(** * Content collections: incremental tracker and build-time asset propagation

    A shallow embedding of
      - the types generator of [packages/astro/src/content]
        ([createContentTypesGenerator]: [handleEvent], [queueEvent],
        [runEvents], [writeContentFiles] and the small map helpers), and
      - [packages/astro/src/content/vite-plugin-content-assets.ts]
        (the [build:post] hook of [astroConfigBuildPlugin]),
    together with the properties of the specification that concern them. *)

From Stdlib Require Import String Ascii List Bool Arith NArith Lia.
From stdpp Require Import base option list strings sorting.

Local Open Scope string_scope.
Local Open Scope list_scope.
Local Open Scope nat_scope.

(** ** Plain JavaScript objects used as dictionaries

    [Record<string, V>] objects are modelled as property lists in insertion
    order, which is the order [Object.keys] and [for ... in] report for keys
    that are not array indices.  Every key the tracker stores is the result
    of [JSON.stringify] on a string, hence starts with a double quote: it is
    never an array index and never shadows a property inherited from
    [Object.prototype], so that [k in o] is plain membership. *)
Module JsObject.

Definition t (V : Type) : Type := list (string * V).

Definition empty {V} : t V := [].

(** [o[k]] *)
Fixpoint get {V} (k : string) (o : t V) : option V :=
  match o with
  | [] => None
  | (k', v) :: o' => if String.eqb k k' then Some v else get k o'
  end.

(** [k in o] *)
Definition has {V} (k : string) (o : t V) : bool :=
  match get k o with Some _ => true | None => false end.

(** [o[k] = v]: an existing property keeps its position, a new one is
    appended. *)
Fixpoint set {V} (k : string) (v : V) (o : t V) : t V :=
  match o with
  | [] => [(k, v)]
  | (k', v') :: o' =>
      if String.eqb k k' then (k', v) :: o' else (k', v') :: set k v o'
  end.

(** [delete o[k]] *)
Fixpoint delete {V} (k : string) (o : t V) : t V :=
  match o with
  | [] => []
  | (k', v') :: o' =>
      if String.eqb k k' then delete k o' else (k', v') :: delete k o'
  end.

(** [Object.keys(o)] *)
Definition keys {V} (o : t V) : list string := map fst o.

(** The well-formedness every JavaScript object enjoys: one property per
    key. *)
Definition wf {V} (o : t V) : Prop := NoDup (keys o).

End JsObject.

(** ** String primitives of the host language *)

Definition nl : string := String (ascii_of_nat 10) EmptyString.
Definition tab : string := String (ascii_of_nat 9) EmptyString.

(** [s.split(sep)] for a one-character separator. *)
Fixpoint split_aux (sep : ascii) (acc : string) (s : string) : list string :=
  match s with
  | EmptyString => [acc]
  | String c s' =>
      if Ascii.eqb c sep then acc :: split_aux sep EmptyString s'
      else split_aux sep (acc +:+ String c EmptyString) s'
  end.

Definition split (sep : ascii) (s : string) : list string :=
  split_aux sep EmptyString s.

(** Occurrence of a character in a string. *)
Fixpoint occurs (c : ascii) (s : string) : bool :=
  match s with
  | EmptyString => false
  | String c' s' => Ascii.eqb c' c || occurs c s'
  end.

(** [s.startsWith(p)] *)
Definition startsWith (s p : string) : bool := String.prefix p s.

(** Splits [s] at the first occurrence of [pat]: [Some (pre, post)] with
    [s = pre ++ pat ++ post], [None] when [pat] does not occur. *)
Fixpoint find_first (pat s : string) : option (string * string) :=
  if String.prefix pat s
  then Some (EmptyString, String.substring (String.length pat)
                            (String.length s - String.length pat) s)
  else
    match s with
    | EmptyString => None
    | String c s' =>
        match find_first pat s' with
        | Some (pre, post) => Some (String c pre, post)
        | None => None
        end
    end.

(** [s.includes(pat)] *)
Definition includes (s pat : string) : bool :=
  match find_first pat s with Some _ => true | None => false end.

(** [s.endsWith(p)] *)
Definition endsWith (s p : string) : bool :=
  (String.length p <=? String.length s) &&
  String.eqb (String.substring (String.length s - String.length p)
                (String.length p) s) p.

Definition dquote : string := String (ascii_of_nat 34) EmptyString.
Definition backslash : string := String (ascii_of_nat 92) EmptyString.

(** *** [JSON.stringify] and [JSON.parse] on strings

    Strings are byte strings.  [JSON.stringify] quotes its argument and
    escapes the double quote, the backslash and the control characters below
    0x20 (the short forms for backspace, tab, newline, form feed and carriage
    return, [\u00xx] for the others). *)
Definition hex_digit (n : nat) : ascii :=
  nth n ["0"; "1"; "2"; "3"; "4"; "5"; "6"; "7"; "8"; "9";
         "a"; "b"; "c"; "d"; "e"; "f"]%char "0"%char.

Definition json_escape (c : ascii) : string :=
  let n := nat_of_ascii c in
  if n =? 34 then backslash +:+ dquote
  else if n =? 92 then backslash +:+ backslash
  else if n =? 8 then backslash +:+ "b"
  else if n =? 9 then backslash +:+ "t"
  else if n =? 10 then backslash +:+ "n"
  else if n =? 12 then backslash +:+ "f"
  else if n =? 13 then backslash +:+ "r"
  else if n <? 32 then
    backslash +:+ "u00" +:+
      String (hex_digit (n / 16)) (String (hex_digit (n mod 16)) EmptyString)
  else String c EmptyString.

Fixpoint json_escape_all (s : string) : string :=
  match s with
  | EmptyString => EmptyString
  | String c s' => json_escape c +:+ json_escape_all s'
  end.

Definition JSON_stringify (s : string) : string :=
  dquote +:+ json_escape_all s +:+ dquote.

Definition hex_value (c : ascii) : option nat :=
  let n := nat_of_ascii c in
  if (48 <=? n) && (n <=? 57) then Some (n - 48)
  else if (97 <=? n) && (n <=? 102) then Some (n - 87)
  else if (65 <=? n) && (n <=? 70) then Some (n - 55)
  else None.

(** The characters of a JSON string literal after its opening quote. *)
Fixpoint json_unescape_all (s : string) : option string :=
  match s with
  | EmptyString => None
  | String c s1 =>
      let n := nat_of_ascii c in
      if n =? 34 then
        match s1 with EmptyString => Some EmptyString | _ => None end
      else if n =? 92 then
        match s1 with
        | EmptyString => None
        | String e s2 =>
            let k := nat_of_ascii e in
            let simple (d : nat) :=
              option_map (String (ascii_of_nat d)) (json_unescape_all s2) in
            if k =? 34 then simple 34
            else if k =? 92 then simple 92
            else if k =? 47 then simple 47
            else if k =? 98 then simple 8
            else if k =? 116 then simple 9
            else if k =? 110 then simple 10
            else if k =? 102 then simple 12
            else if k =? 114 then simple 13
            else if k =? 117 then
              match s2 with
              | String h1 (String h2 (String h3 (String h4 s6))) =>
                  match hex_value h1, hex_value h2, hex_value h3, hex_value h4 with
                  | Some 0, Some 0, Some a, Some b =>
                      option_map (String (ascii_of_nat (16 * a + b)))
                        (json_unescape_all s6)
                  | _, _, _, _ => None
                  end
              | _ => None
              end
            else None
        end
      else if n <? 32 then None
      else option_map (String c) (json_unescape_all s1)
  end.

(** [JSON.parse] restricted to string literals: [None] stands for an input
    that is no JSON string literal (where the host either throws or yields a
    value that is not a string).  The keys of a Collection Map are all
    produced by [JSON.stringify], see [JSON_parse_stringify]. *)
Definition JSON_parse (s : string) : option string :=
  match s with
  | String c s' => if nat_of_ascii c =? 34 then json_unescape_all s' else None
  | EmptyString => None
  end.

(** [JSON.stringify] of an array of strings. *)
Definition JSON_stringify_array (items : list string) : string :=
  "[" +:+ String.concat "," items +:+ "]".

(** *** [String.prototype.replace] with a string pattern

    Only the first occurrence is replaced, and the replacement text is
    subject to the [$]-patterns of the language: [$$] stands for a dollar
    sign, [$&] for the match, [$`] and [$'] for the text before and after
    it.  A string pattern has no capture groups, so any other [$] is
    literal. *)
Fixpoint expand_replacement (repl pre matched post : string) : string :=
  match repl with
  | EmptyString => EmptyString
  | String a tl =>
      if Ascii.eqb a "$" then
        match tl with
        | String c r =>
            if Ascii.eqb c "$" then "$" +:+ expand_replacement r pre matched post
            else if Ascii.eqb c "&" then matched +:+ expand_replacement r pre matched post
            else if Ascii.eqb c "`" then pre +:+ expand_replacement r pre matched post
            else if Ascii.eqb c "'" then post +:+ expand_replacement r pre matched post
            else String a (expand_replacement tl pre matched post)
        | EmptyString => String a EmptyString
        end
      else String a (expand_replacement tl pre matched post)
  end.

Definition replace (s pat repl : string) : string :=
  match find_first pat s with
  | None => s
  | Some (pre, post) => pre +:+ expand_replacement repl pre pat post +:+ post
  end.

(** *** [Array.prototype.sort] on strings

    The default comparison orders strings by their code units. *)
Definition sort (l : list string) : list string := merge_sort String.le l.

(** ** Values, errors and completions *)

(** [Error] objects.  [UnsupportedFileTypeError] is the subclass declared by
    the generator; [AstroError] carries the name of its [AstroErrorData]
    entry. *)
Inductive Error : Type :=
  | UnsupportedFileTypeError (message : string)
  | AstroError (name : string)
  | TypeError (message : string)
  | SyntaxError (message : string)
  | OtherError (message : string).

Definition UnknownContentCollectionError : Error :=
  AstroError "UnknownContentCollectionError".

(** What a [throw] carries: any value, an [Error] or not. *)
Inductive Thrown : Type :=
  | ThrownError (e : Error)
  | ThrownValue (v : string).

(** How the evaluation of an expression or the awaiting of a promise ends. *)
Inductive Completion (A : Type) : Type :=
  | Normal (a : A)
  | Throw (t : Thrown).
Arguments Normal {A} a.
Arguments Throw {A} t.

#[global] Instance Completion_ret : MRet Completion := @Normal.
#[global] Instance Completion_bind : MBind Completion :=
  λ A B f c, match c with Normal a => f a | Throw t => Throw t end.

(** A value of the frontmatter, as far as the generator looks at it. *)
Inductive JsValue : Type :=
  | undefined
  | JsString (s : string)
  | JsOther (repr : string).

Record Frontmatter : Type := { fm_slug : JsValue }.

(** ** Data model of the types generator *)

Definition URL : Type := string.

Inductive ChokidarEvent : Type := add | addDir | change | unlink | unlinkDir.

Record ContentEvent : Type := { name : ChokidarEvent; entry : URL }.

(** [{ type: 'content'; slug }] or [{ type: 'data' }] *)
Inductive EntryMetadata : Type :=
  | ContentEntryMetadata (slug : string)
  | DataEntryMetadata.

Definition CollectionTypes : Type := JsObject.t (JsObject.t EntryMetadata).

Inductive LogLevel : Type := info | warn.

Record EventOpts : Type := { logLevel : LogLevel }.

Record EventWithOptions : Type :=
  { type : ContentEvent; opts : option EventOpts }.

(** Result of [getEntryType]. *)
Inductive EntryType : Type := content | data | config | ignored | unsupported.

(** The content config: per collection, whether a [schema] is given. *)
Record CollectionConfig : Type := { schema : option string }.
Record ContentConfig : Type :=
  { collections : JsObject.t CollectionConfig }.

(** Modelled from the spec: the states of the Content-Config Observable
    (declared in [utils.ts]); the generator sets the last four. *)
Inductive ContentObservableState : Type :=
  | st_unloaded
  | st_loading
  | st_loaded (cfg : ContentConfig)
  | st_does_not_exist
  | st_error (e : Error).

Record ContentPaths : Type := {
  contentDir : URL;
  cacheDir : URL;
  config_url : URL;
}.

Record ContentEntryType : Type := {
  extensions : list string;
  contentModuleTypes : option string;
}.

(** What [handleEvent] resolves to. *)
Record Response : Type :=
  { shouldGenerateTypes : bool; error : option Error }.

(** Effects the generator has on its surroundings, in the order they
    happen. *)
Inductive Output : Type :=
  | ObserverSet (s : ContentObservableState)
  | ConfigLoaderCalled
  | ConsoleLog (config : option ContentConfig)
  | Logged (level : LogLevel) (label message : string)
  | Mkdir (dir : URL)
  | WriteFile (file : URL) (text : string).

(** The mutable state closed over by [createContentTypesGenerator], with the
    observer it is given and the trace of its outputs (oldest first). *)
Record Generator : Type := {
  collectionTypes : CollectionTypes;
  events : list EventWithOptions;
  observable : ContentObservableState;
  trace : list Output;
}.

(** The surroundings as an event handler finds them: the files it reads and
    the outcome of the config loader. *)
Record External : Type := {
  readFile : URL → Completion string;
  existsSync : URL → bool;
  loadContentConfig : Completion (option ContentConfig);
}.

(** Functions and constants the generator imports: the helpers of
    [utils.ts], [core/path.ts] and [consts.ts], the settings it is created
    with, and functions of the platform ([node:path], [node:url], [vite],
    [kleur]). *)
Class Imports : Type := {
  contentPaths : ContentPaths;
  contentEntryExts : list string;
  dataEntryExts : list string;
  typeTemplateContent : string;
  contentEntryTypes : list ContentEntryType;
  CONTENT_TYPES_FILE : string;
  getEntryType :
    string → ContentPaths → list string → list string → EntryType;
  getEntryCollectionName : URL → URL → option string;
  getContentEntryIdAndSlug : URL → URL → string → string * string;
  getDataEntryId : URL → URL → string → string;
  getEntrySlug : string → string → string → JsValue → Completion string;
  parseFrontmatter : string → string → Completion Frontmatter;
  isRelativePath : string → bool;
  fileURLToPath : URL → string;
  pathToFileURL : string → URL;
  pathname : URL → string;
  path_relative : string → string → string;
  path_extname : string → string;
  normalizePath : string → string;
  new_URL : string → URL → URL;
  cyan : string → string;
}.

(** ** The effect monad of the generator

    A computation runs on the generator state and ends normally or by a
    throw; what it did to the state before throwing stays done. *)
Definition Effect (A : Type) : Type := Generator → Completion A * Generator.

#[global] Instance Effect_ret : MRet Effect := λ A a g, (Normal a, g).
#[global] Instance Effect_bind : MBind Effect :=
  λ A B f m g,
    match m g with
    | (Normal a, g') => f a g'
    | (Throw t, g') => (Throw t, g')
    end.

(** [await] of an external promise, or evaluation of a pure expression that
    may throw. *)
Definition await {A} (c : Completion A) : Effect A := λ g, (c, g).

Definition throw {A} (e : Error) : Effect A := λ g, (Throw (ThrownError e), g).

(** [try { body } catch (e) { handler }] *)
Definition try_catch {A} (body : Effect A) (handler : Thrown → Effect A)
  : Effect A :=
  λ g, match body g with
       | (Normal a, g') => (Normal a, g')
       | (Throw t, g') => handler t g'
       end.

Definition emit (o : Output) : Effect unit :=
  λ g, (Normal (),
        {| collectionTypes := collectionTypes g; events := events g;
           observable := observable g; trace := trace g ++ [o] |}).

Definition getCollectionTypes : Effect CollectionTypes :=
  λ g, (Normal (collectionTypes g), g).

Definition putCollectionTypes (m : CollectionTypes) : Effect unit :=
  λ g, (Normal (),
        {| collectionTypes := m; events := events g;
           observable := observable g; trace := trace g |}).

Definition getEvents : Effect (list EventWithOptions) :=
  λ g, (Normal (events g), g).

Definition putEvents (l : list EventWithOptions) : Effect unit :=
  λ g, (Normal (),
        {| collectionTypes := collectionTypes g; events := l;
           observable := observable g; trace := trace g |}).

(** [contentConfigObserver.set(s)] and [contentConfigObserver.get()] *)
Definition observer_set (s : ContentObservableState) : Effect unit :=
  λ g, (Normal (),
        {| collectionTypes := collectionTypes g; events := events g;
           observable := s; trace := trace g ++ [ObserverSet s] |}).

Definition observer_get : Effect ContentObservableState :=
  λ g, (Normal (observable g), g).

(** [if (c) { body }] *)
Definition when (c : bool) (body : Effect unit) : Effect unit :=
  if c then body else mret ().

(** ** Helpers on the Collection Map *)

Definition addCollection (contentMap : CollectionTypes) (collectionKey : string)
  : CollectionTypes :=
  JsObject.set collectionKey JsObject.empty contentMap.

Definition removeCollection (contentMap : CollectionTypes)
    (collectionKey : string) : CollectionTypes :=
  JsObject.delete collectionKey contentMap.

(** [contentTypes[collectionKey][entryKey] = metadata]; an absent collection
    makes the assignment throw. *)
Definition setEntry (contentTypes : CollectionTypes)
    (collectionKey entryKey : string) (metadata : EntryMetadata)
  : Completion CollectionTypes :=
  match JsObject.get collectionKey contentTypes with
  | Some entries =>
      Normal (JsObject.set collectionKey
                (JsObject.set entryKey metadata entries) contentTypes)
  | None => Throw (ThrownError (TypeError "Cannot set properties of undefined"))
  end.

(** [delete contentTypes[collectionKey][entryKey]] *)
Definition removeEntry (contentTypes : CollectionTypes)
    (collectionKey entryKey : string) : Completion CollectionTypes :=
  match JsObject.get collectionKey contentTypes with
  | Some entries =>
      Normal (JsObject.set collectionKey
                (JsObject.delete entryKey entries) contentTypes)
  | None =>
      Throw (ThrownError (TypeError "Cannot convert undefined to object"))
  end.

(** [entryKey in contentTypes[collectionKey]] *)
Definition entryIn (contentTypes : CollectionTypes)
    (collectionKey entryKey : string) : Completion bool :=
  match JsObject.get collectionKey contentTypes with
  | Some entries => Normal (JsObject.has entryKey entries)
  | None =>
      Throw (ThrownError (TypeError "Cannot use 'in' operator in undefined"))
  end.

(** [contentTypes[collectionKey]?.[entryKey]] *)
Definition lookupEntry (contentTypes : CollectionTypes)
    (collectionKey entryKey : string) : option EntryMetadata :=
  match JsObject.get collectionKey contentTypes with
  | Some entries => JsObject.get entryKey entries
  | None => None
  end.

Definition isDirEvent (n : ChokidarEvent) : bool :=
  match n with addDir | unlinkDir => true | _ => false end.

(** [logLevel] is ['info'] or ['warn'], so this test of the source holds at
    both. *)
Definition includes_info_warn (l : LogLevel) : bool :=
  match l with info | warn => true end.

Definition isInfo (l : LogLevel) : bool :=
  match l with info => true | warn => false end.

Definition optsLogLevel (o : option EventOpts) : LogLevel :=
  match o with Some o' => logLevel o' | None => info end.

Section TypesGenerator.

Context {I : Imports}.

(** [parseSlug]: reads the entry, parses its frontmatter and resolves the
    slug; each of the three steps may throw. *)
Definition parseSlug (ext : External) (event : ContentEvent)
    (id slug collection : string) : Completion string :=
  rawContents ← readFile ext (entry event);
  frontmatter ← parseFrontmatter rawContents (fileURLToPath (entry event));
  getEntrySlug id slug collection (fm_slug frontmatter).

(** The path of an entry relative to the content directory. *)
Definition relativeToContentDir (e : URL) : string :=
  normalizePath
    (path_relative (fileURLToPath (contentDir contentPaths)) (fileURLToPath e)).

Definition doAddCollection (collectionKey : string) : Effect unit :=
  types ← getCollectionTypes;
  putCollectionTypes (addCollection types collectionKey).

Definition doRemoveCollection (collectionKey : string) : Effect unit :=
  types ← getCollectionTypes;
  putCollectionTypes (removeCollection types collectionKey).

Definition doSetEntry (collectionKey entryKey : string)
    (metadata : EntryMetadata) : Effect unit :=
  types ← getCollectionTypes;
  types' ← await (setEntry types collectionKey entryKey metadata);
  putCollectionTypes types'.

Definition doRemoveEntry (collectionKey entryKey : string) : Effect unit :=
  types ← getCollectionTypes;
  types' ← await (removeEntry types collectionKey entryKey);
  putCollectionTypes types'.

(** The [add] case, shared in shape by data and content entries. *)
Definition addEntry (collectionKey entryKey : string)
    (metadata : EntryMetadata) : Effect Response :=
  types ← getCollectionTypes;
  when (negb (JsObject.has collectionKey types))
    (doAddCollection collectionKey);;
  types ← getCollectionTypes;
  present ← await (entryIn types collectionKey entryKey);
  when (negb present) (doSetEntry collectionKey entryKey metadata);;
  mret {| shouldGenerateTypes := true; error := None |}.

(** The [unlink] case. *)
Definition unlinkEntry (collectionKey entryKey : string) : Effect Response :=
  types ← getCollectionTypes;
  present ←
    (if JsObject.has collectionKey types
     then await (entryIn types collectionKey entryKey)
     else mret false);
  when present (doRemoveEntry collectionKey entryKey);;
  mret {| shouldGenerateTypes := true; error := None |}.

(** [handleEvent]: directory events first, then the file events by the type
    of the file; the two [switch] statements on the event name share their
    [add] and [unlink] cases with [addEntry] and [unlinkEntry]. *)
Definition handleEvent (ext : External) (event : ContentEvent)
    (opts : option EventOpts) : Effect Response :=
  let logLevel := optsLogLevel opts in
  if isDirEvent (name event) then
    let collection := relativeToContentDir (entry event) in
    (* If directory is multiple levels deep, it is not a collection. *)
    let isCollectionEvent := length (split "/" collection) =? 1 in
    if negb isCollectionEvent
    then mret {| shouldGenerateTypes := false; error := None |}
    else
      match name event with
      | addDir =>
          doAddCollection (JSON_stringify collection);;
          when (isInfo logLevel)
            (emit (Logged info "content"
                     (cyan collection +:+ " collection added")))
      | unlinkDir => doRemoveCollection (JSON_stringify collection)
      | _ => mret ()
      end;;
      mret {| shouldGenerateTypes := true; error := None |}
  else
  let fileType :=
    getEntryType (fileURLToPath (entry event)) contentPaths
      contentEntryExts dataEntryExts in
  match fileType with
  | ignored => mret {| shouldGenerateTypes := false; error := None |}
  | config =>
      observer_set st_loading;;
      try_catch
        (emit ConfigLoaderCalled;;
         config ← await (loadContentConfig ext);
         emit (ConsoleLog config);;
         match config with
         | Some cfg => observer_set (st_loaded cfg)
         | None => observer_set st_does_not_exist
         end)
        (λ e,
           observer_set
             (st_error
                match e with
                | ThrownError err => err (* e instanceof Error *)
                | ThrownValue _ => UnknownContentCollectionError
                end));;
      mret {| shouldGenerateTypes := true; error := None |}
  | unsupported =>
      (* Avoid warning if file was deleted. *)
      match name event with
      | unlink => mret {| shouldGenerateTypes := false; error := None |}
      | _ =>
          let id :=
            fst (getContentEntryIdAndSlug (entry event)
                   (contentDir contentPaths) "") in
          mret {| shouldGenerateTypes := false;
                  error := Some (UnsupportedFileTypeError id) |}
      end
  | content | data =>
      match getEntryCollectionName (entry event) (contentDir contentPaths) with
      | None =>
          when (includes_info_warn logLevel)
            (emit (Logged warn "content"
                     (cyan (relativeToContentDir (entry event)) +:+
                      " must be nested in a collection directory. Skipping.")));;
          mret {| shouldGenerateTypes := false; error := None |}
      | Some collection =>
          match fileType with
          | data =>
              let id :=
                getDataEntryId (entry event) (contentDir contentPaths)
                  collection in
              let collectionKey := JSON_stringify collection in
              let entryKey := JSON_stringify id in
              match name event with
              | add => addEntry collectionKey entryKey DataEntryMetadata
              | unlink => unlinkEntry collectionKey entryKey
              | change =>
                  mret {| shouldGenerateTypes := false; error := None |}
              | addDir | unlinkDir =>
                  (* not reached: directory events returned above *)
                  mret {| shouldGenerateTypes := false; error := None |}
              end
          | _ =>
              let '(id, slug) :=
                getContentEntryIdAndSlug (entry event)
                  (contentDir contentPaths) collection in
              let collectionKey := JSON_stringify collection in
              let entryKey := JSON_stringify id in
              match name event with
              | add =>
                  addedSlug ← await (parseSlug ext event id slug collection);
                  addEntry collectionKey entryKey
                    (ContentEntryMetadata addedSlug)
              | unlink => unlinkEntry collectionKey entryKey
              | change =>
                  (* User may modify `slug` in their frontmatter.
                     Only regen types if this change is detected. *)
                  changedSlug ←
                    await (parseSlug ext event id slug collection);
                  types ← getCollectionTypes;
                  match lookupEntry types collectionKey entryKey with
                  | Some (ContentEntryMetadata storedSlug) =>
                      if negb (String.eqb storedSlug changedSlug) then
                        doSetEntry collectionKey entryKey
                          (ContentEntryMetadata changedSlug);;
                        mret {| shouldGenerateTypes := true; error := None |}
                      else
                        mret {| shouldGenerateTypes := false; error := None |}
                  | _ =>
                      mret {| shouldGenerateTypes := false; error := None |}
                  end
              | addDir | unlinkDir =>
                  (* not reached: directory events returned above *)
                  mret {| shouldGenerateTypes := false; error := None |}
              end
          end
      end
  end.

(** *** [writeContentFiles] *)

(** [collectionConfig?.schema ? `InferEntrySchema<${collectionKey}>` : 'any'] *)
Definition dataTypeOf (collectionConfig : option CollectionConfig)
    (collectionKey : string) : string :=
  match collectionConfig with
  | Some c =>
      match schema c with
      | Some _ => "InferEntrySchema<" +:+ collectionKey +:+ ">"
      | None => "any"
      end
  | None => "any"
  end.

(** The text emitted for one entry. *)
Definition entryTypeStr (collectionKey entryKey dataType : string)
    (entryMetadata : EntryMetadata) : Completion string :=
  match entryMetadata with
  | DataEntryMetadata =>
      Normal
        (entryKey +:+ ": {" +:+ nl +:+ tab +:+ "type: 'data'," +:+ nl +:+
         tab +:+ "id: " +:+ entryKey +:+ "," +:+ nl +:+
         tab +:+ "collection: " +:+ collectionKey +:+ "," +:+ nl +:+
         tab +:+ "data: " +:+ dataType +:+ nl +:+ "}," +:+ nl)
  | ContentEntryMetadata slug =>
      match JSON_parse entryKey with
      | None => Throw (ThrownError (SyntaxError "JSON.parse"))
      | Some id =>
          let renderType :=
            "{ render(): Render[" +:+ JSON_stringify (path_extname id) +:+
            "] }" in
          let slugType := JSON_stringify slug in
          Normal
            (entryKey +:+ ": {" +:+ nl +:+ "  type: 'content'," +:+ nl +:+
             tab +:+ "id: " +:+ entryKey +:+ "," +:+ nl +:+
             "  slug: " +:+ slugType +:+ "," +:+ nl +:+
             "  body: string," +:+ nl +:+
             "  collection: " +:+ collectionKey +:+ "," +:+ nl +:+
             "  data: " +:+ dataType +:+ nl +:+
             "} & " +:+ renderType +:+ "," +:+ nl)
      end
  end.

(** The inner loop, over the sorted entry keys of one collection. *)
Fixpoint entriesLoop (collectionConfig : option CollectionConfig)
    (collectionKey : string) (entries : JsObject.t EntryMetadata)
    (entryKeys : list string) (contentTypesStr : string)
  : Completion string :=
  match entryKeys with
  | [] => Normal contentTypesStr
  | entryKey :: rest =>
      match JsObject.get entryKey entries with
      | None =>
          Throw (ThrownError (TypeError "Cannot read properties of undefined"))
      | Some entryMetadata =>
          let dataType := dataTypeOf collectionConfig collectionKey in
          str ← entryTypeStr collectionKey entryKey dataType entryMetadata;
          entriesLoop collectionConfig collectionKey entries rest
            (contentTypesStr +:+ str)
      end
  end.

(** [contentConfig?.collections[JSON.parse(collectionKey)]]: without a
    config the key is not parsed. *)
Definition collectionConfigOf (contentConfig : option ContentConfig)
    (collectionKey : string) : Completion (option CollectionConfig) :=
  match contentConfig with
  | None => Normal None
  | Some cfg =>
      match JSON_parse collectionKey with
      | None => Throw (ThrownError (SyntaxError "JSON.parse"))
      | Some collection => Normal (JsObject.get collection (collections cfg))
      end
  end.

(** The outer loop, over the sorted collection keys. *)
Fixpoint collectionsLoop (contentConfig : option ContentConfig)
    (contentTypes : CollectionTypes) (collectionKeys : list string)
    (contentTypesStr : string) : Completion string :=
  match collectionKeys with
  | [] => Normal contentTypesStr
  | collectionKey :: rest =>
      collectionConfig ← collectionConfigOf contentConfig collectionKey;
      let contentTypesStr := contentTypesStr +:+ collectionKey +:+ ": {" +:+ nl in
      match JsObject.get collectionKey contentTypes with
      | None =>
          Throw (ThrownError (TypeError "Cannot convert undefined to object"))
      | Some entries =>
          let entryKeys := sort (JsObject.keys entries) in
          contentTypesStr ←
            entriesLoop collectionConfig collectionKey entries entryKeys
              contentTypesStr;
          collectionsLoop contentConfig contentTypes rest
            (contentTypesStr +:+ "}," +:+ nl)
      end
  end.

(** The entry-map body of the manifest. *)
Definition contentTypesStrOf (contentTypes : CollectionTypes)
    (contentConfig : option ContentConfig) : Completion string :=
  collectionsLoop contentConfig contentTypes
    (sort (JsObject.keys contentTypes)) "".

(** The import path of the config file, relative to the cache directory. *)
Definition configPathRelativeToCacheDir : string :=
  let p :=
    normalizePath
      (path_relative (pathname (cacheDir contentPaths))
         (pathname (config_url contentPaths))) in
  let p := if negb (isRelativePath p) then "./" +:+ p else p in
  (* Remove `.ts` from import path *)
  if endsWith p ".ts"
  then String.substring 0 (String.length p - 3) p
  else p.

(** The [contentModuleTypes] of the entry types, each put in front of the
    template. *)
Definition withContentModuleTypes (contentEntryTypes : list ContentEntryType)
    (typeTemplateContent : string) : string :=
  fold_left
    (λ template contentEntryType,
       match contentModuleTypes contentEntryType with
       | Some types =>
           if String.eqb types "" then template
           else types +:+ nl +:+ template
       | None => template
       end)
    contentEntryTypes typeTemplateContent.

(** The text of the manifest, given the entry-map body. *)
Definition manifestText (typeTemplateContent : string)
    (contentEntryTypes : list ContentEntryType)
    (contentConfig : option ContentConfig) (contentTypesStr : string)
  : string :=
  let template := withContentModuleTypes contentEntryTypes typeTemplateContent in
  let template := replace template "// @@ENTRY_MAP@@" contentTypesStr in
  replace template "'@@CONTENT_CONFIG_TYPE@@'"
    match contentConfig with
    | Some _ =>
        "typeof import(" +:+ JSON_stringify configPathRelativeToCacheDir +:+ ")"
    | None => "never"
    end.

(** [fs.existsSync(dir)], taking into account the directories made since. *)
Definition dirKnown (ext : External) (dir : URL) (outputs : list Output)
  : bool :=
  existsSync ext dir ||
  existsb (λ o, match o with
                | Mkdir d => String.eqb d dir
                | _ => false
                end) outputs.

Definition dirExists (ext : External) (dir : URL) : Effect bool :=
  λ g, (Normal (dirKnown ext dir (trace g)), g).

Definition writeContentFiles (ext : External) (contentTypes : CollectionTypes)
    (typeTemplateContent : string) (contentEntryTypes : list ContentEntryType)
    (contentConfig : option ContentConfig) : Effect unit :=
  contentTypesStr ← await (contentTypesStrOf contentTypes contentConfig);
  cacheDirExists ← dirExists ext (cacheDir contentPaths);
  when (negb cacheDirExists) (emit (Mkdir (cacheDir contentPaths)));;
  emit (WriteFile (new_URL CONTENT_TYPES_FILE (cacheDir contentPaths))
          (manifestText typeTemplateContent contentEntryTypes contentConfig
             contentTypesStr)).

Definition warnNonexistentCollections (contentConfig : ContentConfig)
    (contentTypes : CollectionTypes) : Effect unit :=
  fold_left
    (λ (done : Effect unit) configuredCollection,
       done;;
       when (negb (JsObject.has (JSON_stringify configuredCollection)
                     contentTypes))
         (emit (Logged warn "content"
                  (JSON_stringify configuredCollection +:+
                   " is not a collection. Check your content config for typos."))))
    (JsObject.keys (collections contentConfig)) (mret ()).

(** *** [queueEvent] and [runEvents] *)

(** [queueEvent] appends the event when it lies in the content directory;
    it then (re)arms the debounce timer whose expiry calls [runEvents]. *)
Definition queueEvent (rawName : ChokidarEvent) (rawEntry : string)
    (opts : option EventOpts) : Effect unit :=
  let event :=
    {| type := {| name := rawName; entry := pathToFileURL rawEntry |};
       opts := opts |} in
  if negb (startsWith (pathname (entry (type event)))
             (pathname (contentDir contentPaths)))
  then mret ()
  else
    queued ← getEvents;
    putEvents (queued ++ [event]).

(** The loop of [runEvents] over the queue: every event is handled in
    turn and its response pushed. *)
Fixpoint handleEvents (ext : External) (queued : list EventWithOptions)
    (eventResponses : list Response) : Effect (list Response) :=
  match queued with
  | [] => mret eventResponses
  | event :: rest =>
      response ← handleEvent ext (type event) (opts event);
      handleEvents ext rest (eventResponses ++ [response])
  end.

Definition unsupportedFilesOf (eventResponses : list Response) : list string :=
  omap (λ response,
          match error response with
          | Some (UnsupportedFileTypeError message) => Some message
          | _ => None
          end) eventResponses.

Definition loadedConfig (observable : ContentObservableState)
  : option ContentConfig :=
  match observable with st_loaded cfg => Some cfg | _ => None end.

Definition runEvents (ext : External) (opts : option EventOpts)
  : Effect unit :=
  let logLevel := optsLogLevel opts in
  queued ← getEvents;
  eventResponses ← handleEvents ext queued [];
  putEvents [];;
  let unsupportedFiles := unsupportedFilesOf eventResponses in
  when ((0 <? length unsupportedFiles) && includes_info_warn logLevel)
    (emit (Logged warn "content"
             ("Unsupported file types found. Prefix with an underscore (`_`) to ignore:"
              +:+ nl +:+ "- " +:+ String.concat nl unsupportedFiles)));;
  observable ← observer_get;
  when (existsb shouldGenerateTypes eventResponses)
    (types ← getCollectionTypes;
     writeContentFiles ext types typeTemplateContent contentEntryTypes
       (loadedConfig observable);;
     match observable with
     | st_loaded cfg =>
         when (includes_info_warn logLevel)
           (warnNonexistentCollections cfg types)
     | _ => mret ()
     end).

(** [runEventsSafe], the function [queueEvent] hands to the debounce
    timer: the run with its exceptions swallowed. *)
Definition runEventsSafe (ext : External) (opts : option EventOpts)
  : Effect unit :=
  try_catch (runEvents ext opts)
    (λ _,
       (* Prevent frontmatter errors from crashing the server. *)
       mret ()).

(** *** [init] *)

(** What [init] resolves to: [{ typesGenerated: true }], or
    [{ typesGenerated: false, reason: 'no-content-dir' }]. *)
Inductive InitResult : Type := TypesGenerated | NoContentDir.

(** [init].  [globResult] is what the listing of the content directory by
    [glob('**', ...)] resolves to: paths relative to that directory. *)
Definition init (ext : External) (globResult : Completion (list string))
  : Effect InitResult :=
  if negb (existsSync ext (contentDir contentPaths))
  then mret NoContentDir
  else
    queued ← getEvents;
    putEvents
      (queued ++
       [{| type := {| name := add; entry := config_url contentPaths |};
           opts := Some {| logLevel := warn |} |}]);;
    globbed ← await globResult;
    let entries :=
      List.filter
        (* Config loading handled first. Avoid running twice. *)
        (λ e, negb (startsWith e (config_url contentPaths)))
        (map (λ e, new_URL e (contentDir contentPaths)) globbed) in
    queued ← getEvents;
    putEvents
      (queued ++
       map (λ entry,
              {| type := {| name := add; entry := entry |};
                 opts := Some {| logLevel := warn |} |})
         entries);;
    runEvents ext None;;
    mret TypesGenerated.

End TypesGenerator.

(** ** Build-time asset propagation ([astroConfigBuildPlugin], [build:post]) *)

(** A [Set<string>] in insertion order. *)
Definition JsSet : Type := list string.

(** [s.add(x)] *)
Definition set_add (x : string) (s : JsSet) : JsSet :=
  if bool_decide (x ∈ s) then s else s ++ [x].

(** [s.has(x)] *)
Definition set_has (x : string) (s : JsSet) : bool := bool_decide (x ∈ s).

(** [for (const value of values) s.add(value)] *)
Definition set_add_all (values : list string) (s : JsSet) : JsSet :=
  fold_left (λ acc value, set_add value acc) values s.

(** An item of a bundler output: a chunk with its code and the ids of its
    modules, or an asset. *)
Inductive OutputItem : Type :=
  | OutputChunk (fileName code : string) (modules : JsObject.t unit)
  | OutputAsset (fileName : string).

Record ModuleInfo : Type := { info_id : string }.

(** The part of a page's data the hook reads: per module id, the styles and
    the scripts propagated from it. *)
Record PageData : Type := {
  propagatedStyles : option (JsObject.t (list string));
  propagatedScripts : option (JsObject.t (list string));
}.

(** Functions and constants the plugin imports ([core/build/graph.ts],
    [core/build/internal.ts], [core/path.ts], [consts.ts]) and the settings
    it reads; the plugin context and the build internals they are applied to
    are fixed. *)
Class BuildImports : Type := {
  LINKS_PLACEHOLDER : string;
  SCRIPTS_PLACEHOLDER : string;
  walkParentInfos : string → list ModuleInfo;
  moduleIsTopLevelPage : ModuleInfo → bool;
  getPageDataByViteID : string → option PageData;
  joinPaths : string → string → string;
  prependForwardSlash : string → string;
  assetsPrefix : option string;
  base : string;
}.

Section BuildPost.

Context {B : BuildImports}.

Definition prependBase (src : string) : string :=
  match assetsPrefix with
  | Some prefix =>
      if String.eqb prefix "" then prependForwardSlash (joinPaths base src)
      else joinPaths prefix src
  | None => prependForwardSlash (joinPaths base src)
  end.

(** [m?.get(id)], then adding every value found to the accumulator. *)
Definition addPropagated (m : option (JsObject.t (list string)))
    (id : string) (acc : JsSet) : JsSet :=
  match m ≫= JsObject.get id with
  | Some values => set_add_all values acc
  | None => acc
  end.

(** Body of the loop over the parents of module [id]. *)
Definition visitParent (id : string) (acc : JsSet * JsSet)
    (pageInfo : ModuleInfo) : JsSet * JsSet :=
  if moduleIsTopLevelPage pageInfo then
    match getPageDataByViteID (info_id pageInfo) with
    | None => acc
    | Some pageData =>
        (addPropagated (propagatedStyles pageData) id (fst acc),
         addPropagated (propagatedScripts pageData) id (snd acc))
    end
  else acc.

(** The two accumulators [entryCSS] and [entryScripts] of a chunk after
    the loop over its modules. *)
Definition collectAssets (modules : JsObject.t unit) : JsSet * JsSet :=
  fold_left
    (λ acc id, fold_left (visitParent id) (walkParentInfos id) acc)
    (JsObject.keys modules) ([], []).

(** The names of the client chunks that contain one of the scripts. *)
Definition clientFileNames (clientOutputs : list (list OutputItem))
    (entryScripts : JsSet) : JsSet :=
  fold_left
    (λ names output,
       fold_left
         (λ names clientChunk,
            match clientChunk with
            | OutputAsset _ => names
            | OutputChunk fileName _ modules =>
                fold_left
                  (λ names id,
                     if set_has id entryScripts then set_add fileName names
                     else names)
                  (JsObject.keys modules) names
            end)
         output names)
    clientOutputs [].

(** [JSON.stringify({ props: { src, type: 'module' }, children: '' })] *)
Definition scriptDescriptor (src : string) : string :=
  "{" +:+ JSON_stringify "props" +:+ ":{" +:+
  JSON_stringify "src" +:+ ":" +:+ JSON_stringify src +:+ "," +:+
  JSON_stringify "type" +:+ ":" +:+ JSON_stringify "module" +:+ "}," +:+
  JSON_stringify "children" +:+ ":" +:+ JSON_stringify "" +:+ "}".

Definition linksJSON (entryCSS : JsSet) : string :=
  JSON_stringify_array (map (λ src, JSON_stringify (prependBase src)) entryCSS).

Definition scriptsJSON (entryFileNames : JsSet) : string :=
  JSON_stringify_array
    (map (λ src, scriptDescriptor (prependBase src)) entryFileNames).

(** The style placeholder is replaced when [entryCSS] is not empty. *)
Definition replaceLinks (entryCSS : JsSet) (code : string) : string :=
  if 0 <? length entryCSS
  then replace code (JSON_stringify LINKS_PLACEHOLDER) (linksJSON entryCSS)
  else code.

(** The script placeholder is replaced when [entryScripts] is not empty. *)
Definition replaceScripts (clientOutputs : list (list OutputItem))
    (entryScripts : JsSet) (code : string) : string :=
  if 0 <? length entryScripts
  then replace code (JSON_stringify SCRIPTS_PLACEHOLDER)
         (scriptsJSON (clientFileNames clientOutputs entryScripts))
  else code.

(** What the hook does with one item of the server output: [Some newCode]
    when it calls [mutate(chunk, 'server', newCode)], [None] when it skips
    the item. *)
Definition processChunk (clientOutputs : list (list OutputItem))
    (chunk : OutputItem) : option string :=
  match chunk with
  | OutputAsset _ => None
  | OutputChunk _ code modules =>
      if includes code LINKS_PLACEHOLDER || includes code SCRIPTS_PLACEHOLDER
      then
        let '(entryCSS, entryScripts) := collectAssets modules in
        Some (replaceScripts clientOutputs entryScripts
                (replaceLinks entryCSS code))
      else None
  end.

(** The hook: the calls of [mutate], in order, as pairs of the chunk's
    file name and its new code. *)
Definition buildPost (ssrOutputs clientOutputs : list (list OutputItem))
  : list (string * string) :=
  omap (λ chunk,
          match chunk with
          | OutputChunk fileName _ _ =>
              option_map (pair fileName) (processChunk clientOutputs chunk)
          | OutputAsset _ => None
          end)
    (concat ssrOutputs).

End BuildPost.

(** ** A concrete site

    Stand-ins for the imported helpers, on POSIX paths and [file://] URLs,
    used to run the generator and the build hook on concrete inputs. *)
Module Site.

Definition segments (p : string) : list string :=
  List.filter (λ s, negb (String.eqb s "")) (split "/" p).

Fixpoint drop_common (a b : list string) : list string * list string :=
  match a, b with
  | x :: a', y :: b' =>
      if String.eqb x y then drop_common a' b' else (a, b)
  | _, _ => (a, b)
  end.

(** [path.relative] on absolute POSIX paths. *)
Definition relative (from to : string) : string :=
  let '(up, down) := drop_common (segments from) (segments to) in
  String.concat "/" (map (λ _, "..") up ++ down).

(** The text of [s] from its last dot on. *)
Fixpoint from_last_dot (s : string) : option string :=
  match s with
  | EmptyString => None
  | String c s' =>
      match from_last_dot s' with
      | Some e => Some e
      | None => if Ascii.eqb c "." then Some (String c s') else None
      end
  end.

(** [path.extname] *)
Definition extname (p : string) : string :=
  match last (split "/" p) with
  | Some (String _ rest) => default "" (from_last_dot rest)
  | _ => ""
  end.

Definition stripExt (p : string) : string :=
  String.substring 0 (String.length p - String.length (extname p)) p.

Definition fileURLToPath' (u : URL) : string :=
  String.substring 7 (String.length u - 7) u.

Definition pathToFileURL' (p : string) : URL := "file://" +:+ p.

Definition paths : ContentPaths :=
  {| contentDir := "file:///site/src/content/";
     cacheDir := "file:///site/.astro/";
     config_url := "file:///site/src/content/config.ts" |}.

Definition isOneOf (x : string) (l : list string) : bool :=
  existsb (String.eqb x) l.

(** Modelled from the spec: the Event Classifier ([getEntryType] of
    [utils.ts]).  A path outside the content root is ignored, the config
    file is [config], and the extension decides between [content], [data]
    and [unsupported]. *)
Definition getEntryType' (entryPath : string) (contentPaths : ContentPaths)
    (contentFileExts dataFileExts : list string) : EntryType :=
  if negb (startsWith entryPath (fileURLToPath' (contentDir contentPaths)))
  then ignored
  else if String.eqb entryPath (fileURLToPath' (config_url contentPaths))
  then config
  else if isOneOf (extname entryPath) contentFileExts then content
  else if isOneOf (extname entryPath) dataFileExts then data
  else unsupported.

(** Modelled from the spec: [getEntryCollectionName] of [utils.ts].  The
    collection of an entry is its first-level directory; a file directly
    under the content root has none. *)
Definition getEntryCollectionName' (entry contentDir : URL) : option string :=
  match segments (relative (fileURLToPath' contentDir) (fileURLToPath' entry)) with
  | collection :: _ :: _ => Some collection
  | _ => None
  end.

Definition idInCollection (entry contentDir : URL) (collection : string)
  : string :=
  String.concat "/"
    (segments
       (relative (fileURLToPath' contentDir +:+ collection)
          (fileURLToPath' entry))).

(** Modelled from the spec: [getContentEntryIdAndSlug] of [utils.ts].  The
    id is the path below the collection, the derived slug is the id
    without its extension. *)
Definition getContentEntryIdAndSlug' (entry contentDir : URL)
    (collection : string) : string * string :=
  let id := idInCollection entry contentDir collection in
  (id, stripExt id).

(** Modelled from the spec: [getDataEntryId] of [utils.ts]. *)
Definition getDataEntryId' (entry contentDir : URL) (collection : string)
  : string :=
  stripExt (idInCollection entry contentDir collection).

(** Modelled from the spec: [getEntrySlug] of [utils.ts].  A slug given in
    the frontmatter overrides the derived one; a value that is no string
    is an error. *)
Definition getEntrySlug' (id slug collection : string)
    (unvalidatedSlug : JsValue) : Completion string :=
  match unvalidatedSlug with
  | undefined => Normal slug
  | JsString s => Normal s
  | JsOther _ => Throw (ThrownError (AstroError "InvalidContentEntrySlugError"))
  end.

Definition firstLine (s : string) : string :=
  match split (ascii_of_nat 10) s with
  | l :: _ => l
  | [] => ""
  end.

(** Modelled from the spec: the frontmatter extractor.  A stand-in that
    reads a leading [slug: value] line and rejects a text starting with
    a percent sign. *)
Definition parseFrontmatter' (rawContents filePath : string)
  : Completion Frontmatter :=
  if startsWith rawContents "%"
  then Throw (ThrownError (OtherError "YAMLException"))
  else if startsWith rawContents "slug: "
  then Normal {| fm_slug :=
                   JsString (String.substring 6
                               (String.length (firstLine rawContents) - 6)
                               rawContents) |}
  else Normal {| fm_slug := undefined |}.

Definition template : string :=
  "declare module 'astro:content' {" +:+ nl +:+
  "// @@ENTRY_MAP@@" +:+ nl +:+
  "type ContentConfig = '@@CONTENT_CONFIG_TYPE@@';" +:+ nl +:+ "}".

Definition imports : Imports :=
  {| contentPaths := paths;
     contentEntryExts := [".md"; ".mdx"];
     dataEntryExts := [".json"; ".yaml"];
     typeTemplateContent := template;
     contentEntryTypes := [];
     CONTENT_TYPES_FILE := "types.d.ts";
     getEntryType := getEntryType';
     getEntryCollectionName := getEntryCollectionName';
     getContentEntryIdAndSlug := getContentEntryIdAndSlug';
     getDataEntryId := getDataEntryId';
     getEntrySlug := getEntrySlug';
     parseFrontmatter := parseFrontmatter';
     isRelativePath := λ p, startsWith p ".";
     fileURLToPath := fileURLToPath';
     pathToFileURL := pathToFileURL';
     pathname := fileURLToPath';
     path_relative := relative;
     path_extname := extname;
     normalizePath := λ p, p;
     new_URL := λ rel base, base +:+ rel;
     cyan := λ s, s |}.

(** A file system given by the texts of its files. *)
Definition filesystem (files : JsObject.t string) (config : Completion (option ContentConfig))
  : External :=
  {| readFile := λ u,
       match JsObject.get u files with
       | Some text => Normal text
       | None => Throw (ThrownError (OtherError "ENOENT"))
       end;
     existsSync := λ _, false;
     loadContentConfig := config |}.

Definition initial : Generator :=
  {| collectionTypes := JsObject.empty; events := [];
     observable := st_unloaded; trace := [] |}.

Definition withTypes (m : CollectionTypes) : Generator :=
  {| collectionTypes := m; events := [];
     observable := st_unloaded; trace := [] |}.

Definition withEvents (l : list EventWithOptions) : Generator :=
  {| collectionTypes := JsObject.empty; events := l;
     observable := st_unloaded; trace := [] |}.

Definition url (p : string) : URL := "file:///site/src/content/" +:+ p.

Definition ev (n : ChokidarEvent) (p : string) : ContentEvent :=
  {| name := n; entry := url p |}.

End Site.

(** ** Notions used to state the properties *)

(** The depth of a directory below the content root, as [handleEvent]
    measures it: the number of segments of its relative path. *)
Definition depth (relativePath : string) : nat :=
  length (split "/" relativePath).

(** The generator state with another Collection Map. *)
Definition withCollectionTypes (g : Generator) (m : CollectionTypes)
  : Generator :=
  {| collectionTypes := m; events := events g;
     observable := observable g; trace := trace g |}.

Definition regenerate : Response :=
  {| shouldGenerateTypes := true; error := None |}.

Definition noRegenerate : Response :=
  {| shouldGenerateTypes := false; error := None |}.

(** The manifest writes among some outputs. *)
Definition manifestWrites (outputs : list Output) : list string :=
  omap (λ o, match o with WriteFile _ text => Some text | _ => None end)
    outputs.

Section Notions.

Context {I : Imports}.

(** The classification of the file at [e]. *)
Definition classify (e : URL) : EntryType :=
  getEntryType (fileURLToPath e) contentPaths contentEntryExts dataEntryExts.

(** The keys under which [handleEvent] tracks the file at [e]: those of
    its collection and of its entry.  [None] when the file is no entry of
    a collection. *)
Definition trackedKeys (e : URL) : option (string * string) :=
  match getEntryCollectionName e (contentDir contentPaths) with
  | Some collection =>
      match classify e with
      | data =>
          Some (JSON_stringify collection,
                JSON_stringify
                  (getDataEntryId e (contentDir contentPaths) collection))
      | content =>
          Some (JSON_stringify collection,
                JSON_stringify
                  (fst (getContentEntryIdAndSlug e (contentDir contentPaths)
                          collection)))
      | _ => None
      end
  | None => None
  end.

(** The slug [handleEvent] computes for the content entry of an [add] or
    [change] event, or the exception the computation ends with. *)
Definition computedSlug (ext : External) (event : ContentEvent)
  : option (Completion string) :=
  match getEntryCollectionName (entry event) (contentDir contentPaths) with
  | Some collection =>
      match classify (entry event) with
      | content =>
          let '(id, slug) :=
            getContentEntryIdAndSlug (entry event) (contentDir contentPaths)
              collection in
          Some (parseSlug ext event id slug collection)
      | _ => None
      end
  | None => None
  end.

(** The events whose handling reads a slug: [add] and [change] of a
    content entry. *)
Definition readsSlug (n : ChokidarEvent) : bool :=
  match n with add | change => true | _ => false end.

(** Handling the event throws: the slug it needs cannot be read. *)
Definition slugUnreadable (ext : External) (event : ContentEvent) : Prop :=
  readsSlug (name event) = true ∧
  ∃ t, computedSlug ext event = Some (Throw t).

Definition slugReadable (ext : External) (event : ContentEvent) : Prop :=
  readsSlug (name event) = true →
  ∀ t, computedSlug ext event ≠ Some (Throw t).

(** Sequential processing of a queue, first event first: the state each
    event is handled in is the one its predecessor left. *)
Inductive processed (ext : External)
  : Generator → list EventWithOptions → list Response → Generator → Prop :=
  | processed_nil g : processed ext g [] [] g
  | processed_cons g event queued response g1 responses g2 :
      handleEvent ext (type event) (opts event) g = (Normal response, g1) →
      processed ext g1 queued responses g2 →
      processed ext g (event :: queued) (response :: responses) g2.

(** Every key of the map is a JSON string literal, as [JSON.stringify]
    produces them. *)
Definition jsonKey (k : string) : Prop := ∃ s, k = JSON_stringify s.

Definition jsonKeys (m : CollectionTypes) : Prop :=
  Forall (λ c, jsonKey (fst c) ∧ Forall (λ e, jsonKey (fst e)) (snd c)) m.

(** The text of the manifest body in closed form: one block per
    collection key in the given order, holding one block per entry key. *)
Definition entryBlock (collectionConfig : option CollectionConfig)
    (collectionKey : string) (entries : JsObject.t EntryMetadata)
    (entryKey : string) : Completion string :=
  match JsObject.get entryKey entries with
  | Some md =>
      entryTypeStr collectionKey entryKey
        (dataTypeOf collectionConfig collectionKey) md
  | None =>
      Throw (ThrownError (TypeError "Cannot read properties of undefined"))
  end.

End Notions.

(** Two objects hold the same properties, whatever the order they were
    added in. *)
Definition sameProperties {V} (o1 o2 : JsObject.t V) : Prop :=
  JsObject.wf o1 ∧ JsObject.wf o2 ∧ o1 ≡ₚ o2.

(** Two Collection Maps with the same collections holding the same entries,
    whatever the order of insertion. *)
Definition sameCollections (m1 m2 : CollectionTypes) : Prop :=
  JsObject.wf m1 ∧ JsObject.wf m2 ∧
  JsObject.keys m1 ≡ₚ JsObject.keys m2 ∧
  ∀ k,
    match JsObject.get k m1, JsObject.get k m2 with
    | Some e1, Some e2 => sameProperties e1 e2
    | None, None => True
    | _, _ => False
    end.

(** The Collection Map after the [add] of an entry. *)
Definition afterAdd (collectionKey entryKey : string) (metadata : EntryMetadata)
    (m : CollectionTypes) : CollectionTypes :=
  match JsObject.get collectionKey m with
  | None => m ++ [(collectionKey, [(entryKey, metadata)])]
  | Some entries =>
      match JsObject.get entryKey entries with
      | Some _ => m
      | None =>
          JsObject.set collectionKey (entries ++ [(entryKey, metadata)]) m
      end
  end.

(** The Collection Map after the [unlink] of an entry. *)
Definition afterUnlink (collectionKey entryKey : string) (m : CollectionTypes)
  : CollectionTypes :=
  match JsObject.get collectionKey m with
  | None => m
  | Some entries =>
      match JsObject.get entryKey entries with
      | Some _ =>
          JsObject.set collectionKey (JsObject.delete entryKey entries) m
      | None => m
      end
  end.

(** The Collection Map after the [change] of a content entry whose slug is
    now [changedSlug]. *)
Definition afterChange (collectionKey entryKey changedSlug : string)
    (m : CollectionTypes) : CollectionTypes :=
  match JsObject.get collectionKey m with
  | Some entries =>
      match JsObject.get entryKey entries with
      | Some (ContentEntryMetadata storedSlug) =>
          if String.eqb storedSlug changedSlug then m
          else
            JsObject.set collectionKey
              (JsObject.set entryKey (ContentEntryMetadata changedSlug) entries)
              m
      | _ => m
      end
  | None => m
  end.

(** Whether the [change] of a content entry whose slug is now [changedSlug]
    asks for a regeneration. *)
Definition changeRegenerates (collectionKey entryKey changedSlug : string)
    (m : CollectionTypes) : bool :=
  match lookupEntry m collectionKey entryKey with
  | Some (ContentEntryMetadata storedSlug) =>
      negb (String.eqb storedSlug changedSlug)
  | _ => false
  end.

(** The observable carries, as its error, the very value that was thrown. *)
Definition carriesCause (s : ContentObservableState) (t : Thrown) : Prop :=
  ∃ e, s = st_error e ∧ t = ThrownError e.

(** Number of occurrences of a character. *)
Fixpoint count_char (c : ascii) (s : string) : nat :=
  match s with
  | EmptyString => 0
  | String c' s' => (if Ascii.eqb c' c then 1 else 0) + count_char c s'
  end.

(** The blocks of the given keys, one after the other. *)
Fixpoint concatBlocks (block : string → Completion string) (keys : list string)
  : Completion string :=
  match keys with
  | [] => Normal ""
  | k :: rest =>
      b ← block k;
      r ← concatBlocks block rest;
      Normal (b +:+ r)
  end.

Section ManifestBody.

Context {I : Imports}.

(** The block of a collection: its key, the blocks of its entries in the
    lexicographic order of their keys, and the closing line. *)
Definition collectionBlock (contentConfig : option ContentConfig)
    (contentTypes : CollectionTypes) (collectionKey : string)
  : Completion string :=
  collectionConfig ← collectionConfigOf contentConfig collectionKey;
  match JsObject.get collectionKey contentTypes with
  | None => Throw (ThrownError (TypeError "Cannot convert undefined to object"))
  | Some entries =>
      body ←
        concatBlocks (entryBlock collectionConfig collectionKey entries)
          (sort (JsObject.keys entries));
      Normal (collectionKey +:+ ": {" +:+ nl +:+ body +:+ "}," +:+ nl)
  end.

(** The manifest body as the specification words it: the blocks of the
    collections in the lexicographic order of their keys. *)
Definition sortedBody (contentTypes : CollectionTypes)
    (contentConfig : option ContentConfig) : Completion string :=
  concatBlocks (collectionBlock contentConfig contentTypes)
    (sort (JsObject.keys contentTypes)).

End ManifestBody.

(** The outputs a computation started in [g] has added when it ends in
    [g']. *)
Definition outputsSince (g g' : Generator) : list Output :=
  drop (length (trace g)) (trace g').

(** The generator state with more outputs in its trace. *)
Definition addOutputs (g : Generator) (outputs : list Output) : Generator :=
  {| collectionTypes := collectionTypes g; events := events g;
     observable := observable g; trace := trace g ++ outputs |}.

(** [g'] differs from [g] by more outputs that are no manifest writes, the
    queue being the same. *)
Definition quietly (g g' : Generator) : Prop :=
  events g' = events g ∧
  ∃ outputs, trace g' = trace g ++ outputs ∧ manifestWrites outputs = [].

(** An effect that only logs. *)
Definition logsOnly (m : Effect unit) : Prop :=
  ∀ g, ∃ outputs,
    m g = (Normal (), addOutputs g outputs) ∧ manifestWrites outputs = [].

Section Propagation.

Context {B : BuildImports}.

(** What a parent [pageInfo] of module [id] contributes: the references
    its page data lists for [id], when it is a top-level page. *)
Definition contributes
    (field : PageData → option (JsObject.t (list string)))
    (id : string) (pageInfo : ModuleInfo) (x : string) : Prop :=
  ∃ pageData values,
    moduleIsTopLevelPage pageInfo = true ∧
    getPageDataByViteID (info_id pageInfo) = Some pageData ∧
    field pageData ≫= JsObject.get id = Some values ∧
    x ∈ values.

(** The reference [x] is propagated to a chunk with the given modules:
    some module of the chunk has a top-level page among its parents whose
    page data lists [x] for that module. *)
Definition propagatedTo
    (field : PageData → option (JsObject.t (list string)))
    (modules : JsObject.t unit) (x : string) : Prop :=
  ∃ id pageInfo,
    id ∈ JsObject.keys modules ∧
    pageInfo ∈ walkParentInfos id ∧
    contributes field id pageInfo x.

(** The references the pages propagate to the modules of a chunk, in the
    order the hook meets them: module by module, parent by parent. *)
Definition propagatedList
    (field : PageData → option (JsObject.t (list string)))
    (modules : JsObject.t unit) : list string :=
  flat_map
    (λ id,
       flat_map
         (λ pageInfo,
            if moduleIsTopLevelPage pageInfo then
              match getPageDataByViteID (info_id pageInfo) with
              | Some pageData => default [] (field pageData ≫= JsObject.get id)
              | None => []
              end
            else [])
         (walkParentInfos id))
    (JsObject.keys modules).

(** The JSON text of the array of links, as the claim words it: the
    references with the base applied, quoted, between brackets. *)
Definition linksArrayText (references : list string) : string :=
  "[" +:+
  String.concat "," (map (λ src, JSON_stringify (prependBase src)) references)
  +:+ "]".

(** The JSON text of one script descriptor,
    [{"props":{"src":...,"type":"module"},"children":""}]. *)
Definition descriptorText (src : string) : string :=
  "{" +:+ dquote +:+ "props" +:+ dquote +:+ ":{" +:+
  dquote +:+ "src" +:+ dquote +:+ ":" +:+ JSON_stringify src +:+ "," +:+
  dquote +:+ "type" +:+ dquote +:+ ":" +:+ dquote +:+ "module" +:+ dquote +:+
  "}," +:+ dquote +:+ "children" +:+ dquote +:+ ":" +:+ dquote +:+ dquote +:+
  "}".

Definition scriptsArrayText (fileNames : list string) : string :=
  "[" +:+
  String.concat "," (map (λ src, descriptorText (prependBase src)) fileNames)
  +:+ "]".

End Propagation.

(** A list without its repetitions, every element staying where it first
    occurs. *)
Definition firstOccurrences (l : list string) : list string :=
  reverse (remove_dups (reverse l)).

(** The names of the client chunks one of whose modules is among the
    scripts, in the order of the client outputs. *)
Definition scriptChunkNames (clientOutputs : list (list OutputItem))
    (entryScripts : list string) : list string :=
  flat_map
    (λ output,
       flat_map
         (λ clientChunk,
            match clientChunk with
            | OutputChunk fileName _ modules =>
                if existsb (λ id, bool_decide (id ∈ entryScripts))
                     (JsObject.keys modules)
                then [fileName] else []
            | OutputAsset _ => []
            end)
         output)
    clientOutputs.

(** [code] reads [pre], then [token], then [post], and [token] occurs
    nowhere earlier in it. *)
Definition firstOccurrenceAt (pre token code post : string) : Prop :=
  code = pre +:+ token +:+ post ∧
  ∀ pre' post',
    code = pre' +:+ token +:+ post' → String.length pre ≤ String.length pre'.

(** [token] occurs nowhere in [code]. *)
Definition absentFrom (token code : string) : Prop :=
  ∀ pre post, code ≠ pre +:+ token +:+ post.


(** Stand-ins for the imports of the build plugin, on a module graph given
    by its importer edges. *)
Module Bundle.

(** Modelled from the spec: the Dependency Graph Walker
    ([walkParentInfos] of [core/build/graph.ts]).  From a module it walks
    up the importer edges, depth first, and yields the module and then
    its parents; a visited set is kept, so that every module is yielded
    once, on graphs with cycles too.  The fuel bounds the depth of the
    walk. *)
Fixpoint walkFrom (fuel : nat) (importers : string → list string)
    (seen : list string) (id : string) : list ModuleInfo * list string :=
  let seen := seen ++ [id] in
  match fuel with
  | 0 => ([{| info_id := id |}], seen)
  | S fuel' =>
      fold_left
        (λ (acc : list ModuleInfo * list string) imp,
           if bool_decide (imp ∈ acc.2) then acc
           else
             let parents := walkFrom fuel' importers acc.2 imp in
             (acc.1 ++ parents.1, parents.2))
        (importers id) ([{| info_id := id |}], seen)
  end.

Definition walk (fuel : nat) (importers : string → list string) (id : string)
  : list ModuleInfo :=
  (walkFrom fuel importers [] id).1.

Definition stripTrailingSlash (p : string) : string :=
  if endsWith p "/" then String.substring 0 (String.length p - 1) p else p.

Definition stripLeadingSlash (p : string) : string :=
  if startsWith p "/" then String.substring 1 (String.length p - 1) p else p.

(** Modelled from the spec: [joinPaths] and [prependForwardSlash] of
    [core/path.ts]. *)
Definition joinPaths' (a b : string) : string :=
  stripTrailingSlash a +:+ "/" +:+ stripLeadingSlash b.

Definition prependForwardSlash' (p : string) : string :=
  if startsWith p "/" then p else "/" +:+ p.

(** A page [/src/pages/index.astro] that imports the entry module
    through two components and a second entry module directly; both
    entry modules end up in the same chunk. *)
Definition entryModule : string := "/src/content/blog/m.md?astroPropagatedAssets".
Definition secondModule : string := "/src/content/blog/n.md?astroPropagatedAssets".
Definition page : string := "/src/pages/index.astro".

Definition importers (id : string) : list string :=
  if String.eqb id entryModule then ["/src/components/X.astro"; "/src/components/Y.astro"]
  else if String.eqb id secondModule then [page]
  else if String.eqb id "/src/components/X.astro" then [page]
  else if String.eqb id "/src/components/Y.astro" then [page]
  else [].

Definition pageData : PageData :=
  {| propagatedStyles :=
       Some [(entryModule, ["/a.css"]); (secondModule, ["/a.css"; "/b.css"])];
     propagatedScripts :=
       Some [(entryModule, ["/src/scripts/menu.ts"; "/src/scripts/nav.ts"]);
             (secondModule, ["/src/scripts/menu.ts"])] |}.

Definition imports : BuildImports :=
  {| LINKS_PLACEHOLDER := "@@ASTRO-LINKS@@";
     SCRIPTS_PLACEHOLDER := "@@ASTRO-SCRIPTS@@";
     walkParentInfos := walk 4 importers;
     moduleIsTopLevelPage := λ info, String.eqb (info_id info) page;
     getPageDataByViteID := λ id,
       if String.eqb id page then Some pageData else None;
     joinPaths := joinPaths';
     prependForwardSlash := prependForwardSlash';
     assetsPrefix := None;
     base := "/" |}.

Definition chunkCode : string :=
  "const collectedLinks = " +:+ JSON_stringify "@@ASTRO-LINKS@@" +:+ ";" +:+
  "const collectedScripts = " +:+ JSON_stringify "@@ASTRO-SCRIPTS@@" +:+ ";".

(** The same code as a bundler may print it, the token between single
    quotes. *)
Definition singleQuotedCode : string :=
  "const collectedLinks = '@@ASTRO-LINKS@@';".

Definition chunkModules : JsObject.t unit :=
  [(entryModule, ()); (secondModule, ())].

(** The client output: one chunk holds the two propagated scripts. *)
Definition clientOutputs : list (list OutputItem) :=
  [[OutputChunk "hoisted.abc.js" ""
      [("/src/scripts/menu.ts", ()); ("/src/scripts/nav.ts", ())];
    OutputAsset "style.css";
    OutputChunk "other.js" "" [("/src/scripts/other.ts", ())]]].

(** A graph with a cycle: [a] imports [b] and [b] imports [a]. *)
Definition cycle (id : string) : list string :=
  if String.eqb id "a" then ["b"]
  else if String.eqb id "b" then ["a"]
  else [].

End Bundle.

(** Inputs of the runs on the concrete site. *)
Module Scenario.

Import Site.

Definition key (s : string) : string := JSON_stringify s.

(** A site whose [blog/post1.md] now gives its slug in the frontmatter. *)
Definition files : JsObject.t string :=
  [(url "blog/post1.md", "slug: custom" +:+ nl +:+ "Hello");
   (url "blog/bad.md", "%");
   (url "data/settings.json", "{}")].

Definition disk : External := filesystem files (Normal None).

Definition blogTracked : Generator :=
  withTypes [(key "blog", [(key "post1.md", ContentEntryMetadata "post1")])].

Definition blogEmpty : Generator := withTypes [(key "blog", [])].

Definition q (n : ChokidarEvent) (path : string) : EventWithOptions :=
  {| type := ev n path; opts := None |}.

Definition batch : Generator :=
  withEvents [q addDir "blog"; q add "blog/post1.md";
              q add "data/settings.json"; q change "blog/post1.md"].

Definition blogFirst : CollectionTypes :=
  [(key "blog", [(key "a.md", ContentEntryMetadata "a");
                 (key "b.md", ContentEntryMetadata "b")]);
   (key "data", [(key "settings", DataEntryMetadata)])].

Definition dataFirst : CollectionTypes :=
  [(key "data", [(key "settings", DataEntryMetadata)]);
   (key "blog", [(key "b.md", ContentEntryMetadata "b");
                 (key "a.md", ContentEntryMetadata "a")])].

End Scenario.

(** The Collection Map and each of its entry maps hold one property per
    key. *)
Definition wfMap (m : CollectionTypes) : Prop :=
  JsObject.wf m ∧
  Forall (λ c : string * JsObject.t EntryMetadata, JsObject.wf (snd c)) m.

(** A character that [JSON.stringify] leaves as it is and that sorts after
    the double quote: any character from [#] on, the backslash apart. *)
Definition plainChar (c : ascii) : bool :=
  (34 <? nat_of_ascii c) && negb (nat_of_ascii c =? 92).

(** A name made of plain characters: no control character, space,
    exclamation mark, double quote or backslash. *)
Fixpoint plainName (s : string) : bool :=
  match s with
  | EmptyString => true
  | String c s' => plainChar c && plainName s'
  end.

(** The names of the collections in the order the writer emits them. *)
Definition emittedNames {V} (contentTypes : JsObject.t V) : list string :=
  omap JSON_parse (sort (JsObject.keys contentTypes)).

(** A key that [JSON.stringify] made from a plain name. *)
Definition plainKey (k : string) : Prop :=
  ∃ n, k = JSON_stringify n ∧ plainName n = true.

(** ** Further notions *)

(** The Collection Maps the generator can hold: the empty map it starts
    with, and what handling an event makes of such a map, whatever the
    surroundings and however the handling ends. *)
Inductive tracked {I : Imports} : CollectionTypes → Prop :=
  | tracked_empty : tracked JsObject.empty
  | tracked_step ext event opts g :
      tracked (collectionTypes g) →
      tracked (collectionTypes (handleEvent ext event opts g).2).

(** The state the observable is left in by a config-file event, given the
    outcome of the config loader. *)
Definition configOutcome (ext : External) : ContentObservableState :=
  match loadContentConfig ext with
  | Normal (Some cfg) => st_loaded cfg
  | Normal None => st_does_not_exist
  | Throw (ThrownError e) => st_error e
  | Throw (ThrownValue _) => st_error UnknownContentCollectionError
  end.

Section RunOutputs.

Context {I : Imports}.

(** The warnings of [warnNonexistentCollections]: one for every configured
    collection that the Collection Map does not hold, in the order the
    config enumerates them. *)
Definition missingCollectionWarnings (contentConfig : ContentConfig)
    (contentTypes : CollectionTypes) : list Output :=
  map (λ configuredCollection,
         Logged warn "content"
           (JSON_stringify configuredCollection +:+
            " is not a collection. Check your content config for typos."))
    (List.filter
       (λ configuredCollection,
          negb (JsObject.has (JSON_stringify configuredCollection)
                  contentTypes))
       (JsObject.keys (collections contentConfig))).

(** The one warning of a run about the unsupported files it met. *)
Definition unsupportedWarning (opts : option EventOpts)
    (eventResponses : list Response) : list Output :=
  if (0 <? length (unsupportedFilesOf eventResponses)) &&
     includes_info_warn (optsLogLevel opts)
  then [Logged warn "content"
          ("Unsupported file types found. Prefix with an underscore (`_`) to ignore:"
           +:+ nl +:+ "- " +:+
           String.concat nl (unsupportedFilesOf eventResponses))]
  else [].

(** What the writer does to the file system: it makes the cache directory
    unless it exists or was made before, then writes the manifest. *)
Definition writerOutputs (ext : External) (before : list Output)
    (text : string) : list Output :=
  (if dirKnown ext (cacheDir contentPaths) before
   then [] else [Mkdir (cacheDir contentPaths)]) ++
  [WriteFile (new_URL CONTENT_TYPES_FILE (cacheDir contentPaths)) text].

(** The state of the generator once the loop of a run has handled the
    whole queue and the queue has been emptied. *)
Definition drained (g : Generator) : Generator :=
  {| collectionTypes := collectionTypes g; events := [];
     observable := observable g; trace := trace g |}.

(** The outputs of a run after its loop has handled the queue, given the
    responses, the state the loop ended in and the body of the manifest:
    the warning about unsupported files and, when some response asks for a
    regeneration, the outputs of the writer followed by the warnings about
    configured collections that do not exist. *)
Definition runOutputs (ext : External) (opts : option EventOpts)
    (eventResponses : list Response) (g1 : Generator) (body : string)
  : list Output :=
  unsupportedWarning opts eventResponses ++
  if existsb shouldGenerateTypes eventResponses then
    writerOutputs ext (trace g1)
      (manifestText typeTemplateContent contentEntryTypes
         (loadedConfig (observable g1)) body) ++
    match observable g1 with
    | st_loaded cfg =>
        if includes_info_warn (optsLogLevel opts)
        then missingCollectionWarnings cfg (collectionTypes g1)
        else []
    | _ => []
    end
  else [].

(** The generator state with another queue. *)
Definition withQueue (g : Generator) (queued : list EventWithOptions)
  : Generator :=
  {| collectionTypes := collectionTypes g; events := queued;
     observable := observable g; trace := trace g |}.

(** The events [init] queues for a listing of the content directory: the
    [add] of the config file first, then the [add] of every listed file
    whose URL does not start with that of the config file. *)
Definition initEvents (globbed : list string) : list EventWithOptions :=
  {| type := {| name := add; entry := config_url contentPaths |};
     opts := Some {| logLevel := warn |} |} ::
  map (λ entry,
         {| type := {| name := add; entry := entry |};
            opts := Some {| logLevel := warn |} |})
    (List.filter (λ e, negb (startsWith e (config_url contentPaths)))
       (map (λ e, new_URL e (contentDir contentPaths)) globbed)).

End RunOutputs.

Section UnsupportedFiles.

Context {I : Imports}.

(** The response of [handleEvent] to an event on an unsupported file. *)
Definition unsupportedResponse (event : ContentEvent) : Response :=
  {| shouldGenerateTypes := false;
     error :=
       match name event with
       | unlink => None
       | _ =>
           Some (UnsupportedFileTypeError
                   (fst (getContentEntryIdAndSlug (entry event)
                           (contentDir contentPaths) "")))
       end |}.

(** The ids a run reports for a queue of events on unsupported files: one
    per event that is no [unlink], in the order of the queue. *)
Definition reportedIds (queued : list EventWithOptions) : list string :=
  map (λ e, fst (getContentEntryIdAndSlug (entry (type e))
                   (contentDir contentPaths) ""))
    (List.filter
       (λ e, match name (type e) with unlink => false | _ => true end)
       queued).

End UnsupportedFiles.

(** ** The asset propagation plugin ([astroContentAssetPropagationPlugin]) *)

(** What the plugin reads of an entry of [settings.contentEntryTypes]. *)
Record PropagatingEntryType : Type := {
  pt_extensions : list string;
  handlePropagation : bool;
}.

(** Functions and constants the plugin imports ([consts.ts], [utils.ts],
    [node:path]), the settings it reads, and the two services of its
    surroundings: the query test of the platform's [URL] and the resolver
    of the bundler, applied to the importer and options at hand
    ([None] when it resolves to nothing). *)
Class PluginImports : Type := {
  CONTENT_RENDER_FLAG : string;
  PROPAGATED_ASSET_FLAG : string;
  STYLES_PLACEHOLDER : string;
  hasContentFlag : string → string → bool;
  searchParams_has : string → string → bool;
  resolve : string → option string;
  extname : string → string;
  settings_contentEntryTypes : list PropagatingEntryType;
}.

Section AssetPropagationPlugin.

Context {B : BuildImports} {P : PluginImports}.

(** [new URL(viteId, 'file://').searchParams.has(PROPAGATED_ASSET_FLAG)] *)
Definition isPropagatedAsset (viteId : string) : bool :=
  searchParams_has viteId PROPAGATED_ASSET_FLAG.

(** [id.split('?')[0]] *)
Definition basePathOf (id : string) : string :=
  match split "?" id with
  | basePath :: _ => basePath
  | [] => ""
  end.

(** The loop of [resolveId] over the entry types returns at the first type
    that handles propagation and lists the extension. *)
Definition propagates (base : string) : bool :=
  existsb
    (λ t, handlePropagation t &&
          existsb (String.eqb (extname base)) (pt_extensions t))
    settings_contentEntryTypes.

(** The [resolveId] hook: [None] stands for returning nothing. *)
Definition resolveId (id : string) : option string :=
  if hasContentFlag id CONTENT_RENDER_FLAG then
    match resolve (basePathOf id) with
    | None => None
    | Some base =>
        if propagates base
        then Some (base +:+ "?" +:+ PROPAGATED_ASSET_FLAG)
        else
          (* Resolve to the base id (no content flags)
             if Astro doesn't need to handle propagation. *)
          Some base
    end
  else None.

Definition indent : string := tab +:+ tab +:+ tab +:+ tab +:+ tab.

(** The code of the module generated for a propagated asset. *)
Definition propagatedModule (basePath : string) : string :=
  nl +:+
  indent +:+ "function getMod() {" +:+ nl +:+
  indent +:+ tab +:+ "return import(" +:+ JSON_stringify basePath +:+ ");" +:+ nl +:+
  indent +:+ "}" +:+ nl +:+
  nl +:+
  indent +:+ "const collectedLinks = " +:+
    JSON_stringify LINKS_PLACEHOLDER +:+ ";" +:+ nl +:+
  indent +:+ "const collectedStyles = " +:+
    JSON_stringify STYLES_PLACEHOLDER +:+ ";" +:+ nl +:+
  indent +:+ "const collectedScripts = " +:+
    JSON_stringify SCRIPTS_PLACEHOLDER +:+ ";" +:+ nl +:+
  nl +:+
  indent +:+
    "const defaultMod = { __astroPropagation: true, getMod, collectedLinks, collectedStyles, collectedScripts };"
    +:+ nl +:+
  indent +:+ "export default defaultMod;" +:+ nl +:+
  tab +:+ tab +:+ tab +:+ tab.

(** The [load] hook: the code it returns, [None] when it returns
    nothing. *)
Definition load (id : string) : option string :=
  if isPropagatedAsset id
  then Some (propagatedModule (basePathOf id))
  else None.

End AssetPropagationPlugin.

(** A chunk's module holds a script the pages propagate. *)
Definition holdsScript (entryScripts : JsSet) (clientChunk : OutputItem)
    (fileName : string) : Prop :=
  ∃ code modules id,
    clientChunk = OutputChunk fileName code modules ∧
    id ∈ JsObject.keys modules ∧ id ∈ entryScripts.

(** Stand-ins for the imports of the plugin, to run it on concrete ids:
    flags are looked up in the text after the first question mark, and
    every id resolves to itself under the project root. *)
Module DevPlugin.

Definition queryOf (id : string) : list string :=
  match split "?" id with
  | _ :: query :: _ => split "&" query
  | _ => []
  end.

Definition hasFlag (id flag : string) : bool :=
  existsb (String.eqb flag) (queryOf id).

Definition imports : PluginImports :=
  {| CONTENT_RENDER_FLAG := "astroRenderContent";
     PROPAGATED_ASSET_FLAG := "astroPropagatedAssets";
     STYLES_PLACEHOLDER := "@@ASTRO-STYLES@@";
     hasContentFlag := hasFlag;
     searchParams_has := hasFlag;
     resolve := λ id, Some ("/site" +:+ id);
     extname := Site.extname;
     settings_contentEntryTypes :=
       [{| pt_extensions := [".md"]; handlePropagation := true |}] |}.

End DevPlugin.

(** ** The virtual module plugin ([astroContentVirtualModPlugin]) *)

(** What the plugin takes from [consts.ts], [core/path.ts], the settings
    and the file system: the id of the virtual module, the text of the
    template it reads, and the path of the project root. *)
Class VirtualModImports : Type := {
  VIRTUAL_MODULE_ID : string;
  virtualModTemplate : string;
  root_pathname : string;
  appendForwardSlash : string → string;
}.

Module VirtualMod.

Section Plugin.

Context {I : Imports} {B : BuildImports} {M : VirtualModImports}.

Definition getExtGlob (exts : list string) : string :=
  match exts with
  | [ext] =>
      (* Wrapping {...} breaks when there is only one extension *)
      ext
  | _ => "{" +:+ String.concat "," exts +:+ "}"
  end.

Definition relContentDir : string :=
  normalizePath
    (appendForwardSlash
       (prependForwardSlash
          (path_relative root_pathname (pathname (contentDir contentPaths))))).

Definition virtualModContents : string :=
  replace
    (replace
       (replace
          (replace virtualModTemplate "@@CONTENT_DIR@@" relContentDir)
          "@@CONTENT_ENTRY_GLOB_PATH@@"
          (relContentDir +:+ "**/*" +:+ getExtGlob contentEntryExts))
       "@@DATA_ENTRY_GLOB_PATH@@"
       (relContentDir +:+ "**/*" +:+ getExtGlob dataEntryExts))
    "@@RENDER_ENTRY_GLOB_PATH@@"
    (relContentDir +:+ "**/*" +:+ getExtGlob contentEntryExts).

(** ['\0' + VIRTUAL_MODULE_ID] *)
Definition astroContentVirtualModuleId : string :=
  String (ascii_of_nat 0) VIRTUAL_MODULE_ID.

(** The hooks: [None] stands for returning nothing. *)
Definition resolveId (id : string) : option string :=
  if String.eqb id VIRTUAL_MODULE_ID
  then Some astroContentVirtualModuleId
  else None.

Definition load (id : string) : option string :=
  if String.eqb id astroContentVirtualModuleId
  then Some virtualModContents
  else None.

End Plugin.

End VirtualMod.

(** ** The runtime of the virtual module ([runtime.ts]) *)

(** What a lazy import of an entry resolves to, as far as the lookups
    read it. *)
Record Entry : Type := {
  entry_id : string;
  entry_slug : string;
  entry_body : string;
  entry_collection : string;
  entry_data : string;
}.

(** A lazy import, [() => Promise<any>], by what awaiting its call ends
    with. *)
Definition LazyImport : Type := Completion Entry.

(** A glob result lists its keys in the order [for ... in] visits them.
    In a map from collections to entries only lookups are made, and the
    values of one collection are listed. *)
Definition GlobResult : Type := JsObject.t LazyImport.
Definition CollectionToEntryMap : Type := JsObject.t GlobResult.

(** The names every object inherits from [Object.prototype].  Reading
    such a name on a fresh object yields the inherited value, and writing
    under it goes to that value. *)
Definition inheritedName (k : string) : bool :=
  existsb (String.eqb k)
    ["__proto__"; "constructor"; "hasOwnProperty"; "isPrototypeOf";
     "propertyIsEnumerable"; "toLocaleString"; "toString"; "valueOf";
     "__defineGetter__"; "__defineSetter__"; "__lookupGetter__";
     "__lookupSetter__"].

Module Runtime.

Section Lookups.

(** [key.replace(new RegExp(`^${dir}`), '')]: the key without what the
    pattern made of [dir] matches at its start. *)
Variable stripDir : string → string → string.

(** The body of the loop of [createCollectionToGlobResultMap].  [None]
    stands for a run this model does not follow: the first segment of a
    key names an inherited property, so that [??=] finds the inherited
    value and the assignment writes to it, or the entry id is
    [__proto__]. *)
Definition addGlobEntry (dir : string) (acc : option CollectionToEntryMap)
    (property : string * LazyImport) : option CollectionToEntryMap :=
  collectionToGlobResultMap ← acc;
  let keyRelativeToDir := stripDir dir (fst property) in
  let segments := split "/" keyRelativeToDir in
  if length segments <=? 1 then Some collectionToGlobResultMap
  else
    match segments with
    | collection :: rest =>
        let entryId := String.concat "/" rest in
        if inheritedName collection || String.eqb entryId "__proto__"
        then None
        else
          let entries :=
            default JsObject.empty
              (JsObject.get collection collectionToGlobResultMap) in
          Some (JsObject.set collection
                  (JsObject.set entryId (snd property) entries)
                  collectionToGlobResultMap)
    | [] => Some collectionToGlobResultMap
    end.

Definition createCollectionToGlobResultMap (globResult : GlobResult)
    (dir : string) : option CollectionToEntryMap :=
  fold_left (addGlobEntry dir) globResult (Some JsObject.empty).

(** What [getDataEntryById] resolves to. *)
Record DataEntry : Type := {
  de_id : string;
  de_collection : string;
  de_data : string;
}.

(** The arrow of the error message, U+2192 in UTF-8. *)
Definition arrow : string :=
  String (ascii_of_nat 226)
    (String (ascii_of_nat 134) (String (ascii_of_nat 146) EmptyString)).

(** [dataCollectionToEntryMap[collection]?.[id + '.json']] *)
Definition lazyImportOf (dataCollectionToEntryMap : CollectionToEntryMap)
    (collection id : string) : option LazyImport :=
  JsObject.get collection dataCollectionToEntryMap ≫=
  JsObject.get (id +:+ ".json").

(** [getDataEntryById], as [createGetDataEntryById] returns it. *)
Definition getDataEntryById (dataCollectionToEntryMap : CollectionToEntryMap)
    (collection id : string) : Completion DataEntry :=
  match lazyImportOf dataCollectionToEntryMap collection id with
  | None =>
      Throw (ThrownError
               (OtherError ("Entry " +:+ collection +:+ " " +:+ arrow +:+
                            " " +:+ id +:+ " was not found.")))
  | Some lazyImport =>
      entry ← lazyImport;
      Normal {| de_id := entry_id entry;
                de_collection := entry_collection entry;
                de_data := entry_data entry |}
  end.

(** An entry as [getCollection] and [getEntryBySlug] return it (its
    [render] method apart, which is made of the collection and the id), or
    as [getDataCollection] returns it. *)
Inductive ResultEntry : Type :=
  | ContentResult (id slug body collection data : string)
  | DataResult (id collection data : string).

(** [cacheEntriesByCollection], the [Map] shared by the two getters. *)
Definition Cache : Type := JsObject.t (list ResultEntry).

(** Whether the code runs in production ([import.meta.env.PROD]). *)
Variable PROD : bool.

(** [Promise.all]: the results in order when every promise is fulfilled;
    otherwise the rejection that settles first, which the timing of the
    imports decides: [oracle] is its rank among the rejections. *)
Definition promise_all {A} (oracle : nat) (promises : list (Completion A))
  : Completion (list A) :=
  match omap (λ c, match c with Throw t => Some t | Normal _ => None end)
          promises with
  | [] =>
      Normal (omap (λ c, match c with Normal a => Some a | Throw _ => None end)
                promises)
  | t :: later => Throw (nth oracle (t :: later) t)
  end.

(** [typeof filter === 'function' ? entries.filter(filter) : entries] *)
Definition filtered (filter : option (ResultEntry → bool))
    (entries : list ResultEntry) : list ResultEntry :=
  match filter with
  | Some f => List.filter f entries
  | None => entries
  end.

(** [Object.values(map[collection] ?? {})]; the ids of a collection are
    paths with an extension, which [Object.values] lists in the order they
    were added. *)
Definition lazyImportsOf (map : CollectionToEntryMap) (collection : string)
  : list LazyImport :=
  List.map snd (default JsObject.empty (JsObject.get collection map)).

(** [getCollection], as [createGetCollection] returns it, on the cache. *)
Definition getCollection (oracle : nat)
    (contentCollectionToEntryMap : CollectionToEntryMap)
    (collection : string) (filter : option (ResultEntry → bool))
    (cache : Cache) : Completion (list ResultEntry) * Cache :=
  let lazyImports := lazyImportsOf contentCollectionToEntryMap collection in
  (* Cache `getCollection()` calls in production only *)
  match (if PROD then JsObject.get collection cache else None) with
  | Some entries => (Normal (filtered filter entries), cache)
  | None =>
      match
        promise_all oracle
          (List.map
             (λ lazyImport : LazyImport,
                entry ← lazyImport;
                Normal (ContentResult (entry_id entry) (entry_slug entry)
                          (entry_body entry) (entry_collection entry)
                          (entry_data entry)))
             lazyImports)
      with
      | Throw t => (Throw t, cache)
      | Normal entries =>
          (Normal (filtered filter entries),
           JsObject.set collection entries cache)
      end
  end.


(** [entry.slug === slug] *)
Definition hasSlug (slug : string) (entry : ResultEntry) : bool :=
  match entry with
  | ContentResult _ entrySlug _ _ _ => String.eqb entrySlug slug
  | DataResult _ _ _ => false
  end.

(** [getEntryBySlug], as [createGetEntryBySlug] returns it: [None] stands
    for [undefined]. *)
Definition getEntryBySlug (oracle : nat)
    (contentCollectionToEntryMap : CollectionToEntryMap)
    (collection slug : string) (cache : Cache)
  : Completion (option ResultEntry) * Cache :=
  match getCollection oracle contentCollectionToEntryMap collection None
          cache with
  | (Throw t, cache') => (Throw t, cache')
  | (Normal entries, cache') =>
      (Normal (List.find (hasSlug slug) entries), cache')
  end.

End Lookups.

End Runtime.

(** The collection and the entry id of a key, once relative to the
    directory: its first segment and the rest; none for a key of one
    segment. *)
Definition pathOf (keyRelativeToDir : string) : option (string * string) :=
  match split "/" keyRelativeToDir with
  | collection :: (_ :: _) as rest => Some (collection, String.concat "/" rest)
  | _ => None
  end.

(** The keys the model of [createCollectionToGlobResultMap] follows. *)
Definition followed (stripDir : string → string → string) (dir : string)
    (globResult : GlobResult) : Prop :=
  Forall (λ property : string * LazyImport,
            ∀ collection entryId,
              pathOf (stripDir dir (fst property)) = Some (collection, entryId) →
              inheritedName collection = false ∧ entryId ≠ "__proto__")
    globResult.

(** [m[collection]?.[entryId]] *)
Definition lookup2 (m : CollectionToEntryMap) (collection entryId : string)
  : option LazyImport :=
  JsObject.get collection m ≫= JsObject.get entryId.

(** The error [getDataEntryById] throws for an entry it does not find. *)
Definition notFound (collection id : string) : Thrown :=
  ThrownError
    (OtherError ("Entry " +:+ collection +:+ " " +:+ Runtime.arrow +:+
                 " " +:+ id +:+ " was not found.")).

(** A site's data entries as [import.meta.glob] lists them. *)
Module Glob.

Definition settings : Entry :=
  {| entry_id := "settings"; entry_slug := ""; entry_body := "";
     entry_collection := "data"; entry_data := "{}" |}.

Definition result : GlobResult :=
  [("/src/content/data/settings.json", Normal settings);
   ("/src/content/data/i18n/en.json",
    Throw (ThrownError (AstroError "InvalidContentEntryFrontmatterError")));
   ("/src/content/readme.json", Normal settings)].

(** Stand-in for the replacement by the pattern made of the directory, for
    directories without special characters: the prefix is removed. *)
Definition stripDir (dir key : string) : string :=
  if startsWith key dir
  then String.substring (String.length dir)
         (String.length key - String.length dir) key
  else key.

Definition post (id slug : string) : Entry :=
  {| entry_id := id; entry_slug := slug; entry_body := "Hello";
     entry_collection := "blog"; entry_data := "{}" |}.

Definition blog : CollectionToEntryMap :=
  [("blog", [("a.md", Normal (post "a.md" "a"));
             ("b.md", Normal (post "b.md" "custom"))])].


Definition vmod : VirtualModImports :=
  {| VIRTUAL_MODULE_ID := "astro:content";
     virtualModTemplate := "const contentDir = '@@CONTENT_DIR@@';";
     root_pathname := "/site/";
     appendForwardSlash := λ p, if endsWith p "/" then p else p +:+ "/" |}.

End Glob.

(** Inputs of the runs at start-up and of the runs of the plugins. *)
Module Startup.

Import Site.

Definition config : ContentConfig :=
  {| collections := [("blog", {| schema := Some "z.object" |});
                     ("docs", {| schema := None |})] |}.

(** A site whose content directory exists and whose config loads. *)
Definition disk : External :=
  {| readFile := readFile Scenario.disk;
     existsSync := λ u, String.eqb u (contentDir paths);
     loadContentConfig := Normal (Some config) |}.

Definition listing : list string :=
  ["config.ts"; "blog/post1.md"; "data/settings.json"].

Definition brokenListing : list string := ["blog/post1.md"; "blog/bad.md"].

Definition unsupportedQueue : Generator :=
  withEvents [Scenario.q add "blog/notes.txt";
              Scenario.q unlink "blog/old.txt"].


Definition orphanModules : JsObject.t unit := [("/src/content/blog/other.md", ())].

End Startup.

(** * Properties *)

(** ** Objects *)

Section JsObjectFacts.

Context {V : Type}.
Implicit Types (o : JsObject.t V) (k : string) (v : V).

Lemma has_get k o :
  JsObject.has k o = true ↔ ∃ v, JsObject.get k o = Some v.
Proof.
  unfold JsObject.has. destruct (JsObject.get k o); split; eauto.
  - discriminate.
  - intros [? ?]; discriminate.
Qed.

Lemma has_false_get k o :
  JsObject.has k o = false ↔ JsObject.get k o = None.
Proof.
  unfold JsObject.has. destruct (JsObject.get k o); split; congruence.
Qed.

Lemma get_set_eq k v o : JsObject.get k (JsObject.set k v o) = Some v.
Proof.
  induction o as [|[k' v'] o IH]; simpl.
  - now rewrite String.eqb_refl.
  - destruct (String.eqb_spec k k') as [->|Hne]; simpl.
    + now rewrite String.eqb_refl.
    + destruct (String.eqb_spec k k'); [contradiction|exact IH].
Qed.

Lemma get_set_ne k k' v o :
  k ≠ k' → JsObject.get k' (JsObject.set k v o) = JsObject.get k' o.
Proof.
  intros Hne. induction o as [|[k0 v0] o IH]; simpl.
  - destruct (String.eqb_spec k' k); congruence.
  - destruct (String.eqb_spec k k0) as [->|]; simpl.
    + destruct (String.eqb_spec k' k0); congruence.
    + destruct (String.eqb_spec k' k0); congruence.
Qed.

Lemma set_get_same k v o :
  JsObject.get k o = Some v → JsObject.set k v o = o.
Proof.
  induction o as [|[k' v'] o IH]; simpl; [discriminate|].
  destruct (String.eqb_spec k k') as [->|]; intros Hg.
  - congruence.
  - now rewrite IH.
Qed.

Lemma set_absent k v o :
  JsObject.get k o = None → JsObject.set k v o = o ++ [(k, v)].
Proof.
  induction o as [|[k' v'] o IH]; simpl; [reflexivity|].
  destruct (String.eqb_spec k k'); [discriminate|].
  intros Hg. now rewrite IH.
Qed.

Lemma set_set k v v' o :
  JsObject.set k v (JsObject.set k v' o) = JsObject.set k v o.
Proof.
  induction o as [|[k0 v0] o IH]; simpl.
  - now rewrite String.eqb_refl.
  - destruct (String.eqb_spec k k0) as [->|Hne]; simpl.
    + now rewrite String.eqb_refl.
    + destruct (String.eqb_spec k k0); [contradiction|now rewrite IH].
Qed.

Lemma delete_absent k o :
  JsObject.get k o = None → JsObject.delete k o = o.
Proof.
  induction o as [|[k' v'] o IH]; simpl; [reflexivity|].
  destruct (String.eqb_spec k k'); [discriminate|].
  intros Hg. now rewrite IH.
Qed.

Lemma delete_appended k v o :
  JsObject.get k o = None → JsObject.delete k (o ++ [(k, v)]) = o.
Proof.
  induction o as [|[k' v'] o IH]; simpl.
  - now rewrite String.eqb_refl.
  - destruct (String.eqb_spec k k'); [discriminate|].
    intros Hg. now rewrite IH.
Qed.

Lemma get_delete_eq k o : JsObject.get k (JsObject.delete k o) = None.
Proof.
  induction o as [|[k' v'] o IH]; simpl; [reflexivity|].
  destruct (String.eqb_spec k k') as [->|Hne]; simpl; [exact IH|].
  destruct (String.eqb_spec k k'); [contradiction|exact IH].
Qed.

Lemma get_delete_ne k k' o :
  k ≠ k' → JsObject.get k' (JsObject.delete k o) = JsObject.get k' o.
Proof.
  intros Hne. induction o as [|[k0 v0] o IH]; simpl; [reflexivity|].
  destruct (String.eqb_spec k k0) as [->|]; simpl.
  - destruct (String.eqb_spec k' k0); congruence.
  - destruct (String.eqb_spec k' k0); congruence.
Qed.

Lemma keys_set k v o :
  JsObject.keys (JsObject.set k v o) =
  if JsObject.has k o then JsObject.keys o else JsObject.keys o ++ [k].
Proof.
  unfold JsObject.has.
  induction o as [|[k' v'] o IH]; simpl; [reflexivity|].
  destruct (String.eqb_spec k k') as [->|]; simpl; [reflexivity|].
  rewrite IH. now destruct (JsObject.get k o).
Qed.

Lemma elem_of_keys_get k o :
  k ∈ JsObject.keys o ↔ ∃ v, JsObject.get k o = Some v.
Proof.
  induction o as [|[k' v'] o IH]; simpl.
  - split; [intros Hin; inversion Hin|intros [? ?]; discriminate].
  - rewrite elem_of_cons, IH. simpl.
    destruct (String.eqb_spec k k') as [->|Hne]; split; eauto.
    + intros [?|?]; [contradiction|assumption].
Qed.

Lemma get_elem_of k v o : JsObject.get k o = Some v → (k, v) ∈ o.
Proof.
  induction o as [|[k' v'] o IH]; simpl; [discriminate|].
  destruct (String.eqb_spec k k') as [->|]; intros Hg.
  - injection Hg as ->. left.
  - right. auto.
Qed.

Lemma elem_of_get k v o :
  JsObject.wf o → (k, v) ∈ o → JsObject.get k o = Some v.
Proof.
  unfold JsObject.wf, JsObject.keys.
  induction o as [|[k' v'] o IH]; simpl; intros Hwf Hin.
  - inversion Hin.
  - apply NoDup_cons in Hwf as [Hnotin Hwf].
    apply elem_of_cons in Hin as [Heq|Hin].
    + injection Heq as -> ->. now rewrite String.eqb_refl.
    + destruct (String.eqb_spec k k') as [->|]; [|auto].
      exfalso. apply Hnotin. apply list_elem_of_In.
      change k' with (fst (k', v)). apply in_map. now apply list_elem_of_In.
Qed.

(** Among well-formed objects, the properties read do not depend on the
    order of insertion. *)
Lemma get_Permutation k o1 o2 :
  JsObject.wf o1 → JsObject.wf o2 → o1 ≡ₚ o2 →
  JsObject.get k o1 = JsObject.get k o2.
Proof.
  intros Hwf1 Hwf2 Hp.
  destruct (JsObject.get k o1) as [v|] eqn:H1.
  - symmetry. apply elem_of_get; [assumption|].
    rewrite <- Hp. now apply get_elem_of.
  - destruct (JsObject.get k o2) as [v|] eqn:H2; [|reflexivity].
    apply get_elem_of in H2. rewrite <- Hp in H2.
    apply elem_of_get in H2; [congruence|assumption].
Qed.

Lemma wf_set k v o : JsObject.wf o → JsObject.wf (JsObject.set k v o).
Proof.
  unfold JsObject.wf. rewrite keys_set.
  destruct (JsObject.has k o) eqn:Hh; [auto|].
  intros Hnd. apply NoDup_app. repeat split; [assumption| |apply NoDup_singleton].
  intros x Hx Hx'. apply list_elem_of_singleton in Hx' as ->.
  apply elem_of_keys_get in Hx. apply has_false_get in Hh.
  destruct Hx as [? ?]; congruence.
Qed.

Lemma keys_delete_sublist k o :
  sublist (JsObject.keys (JsObject.delete k o)) (JsObject.keys o).
Proof.
  induction o as [|[k' v'] o IH]; simpl; [constructor|].
  destruct (String.eqb k k'); simpl.
  - now apply sublist_cons.
  - now apply sublist_skip.
Qed.

Lemma wf_delete k o : JsObject.wf o → JsObject.wf (JsObject.delete k o).
Proof.
  unfold JsObject.wf. intros Hnd.
  eapply sublist_NoDup; [eassumption|apply keys_delete_sublist].
Qed.

End JsObjectFacts.

(** ** The event handler *)

Lemma withCollectionTypes_same g : withCollectionTypes g (collectionTypes g) = g.
Proof. now destruct g. Qed.

Lemma quietly_refl g : quietly g g.
Proof. split; [reflexivity|]. exists []. now rewrite app_nil_r. Qed.

Lemma quietly_trans g1 g2 g3 : quietly g1 g2 → quietly g2 g3 → quietly g1 g3.
Proof.
  intros (He1 & o1 & Ht1 & Hw1) (He2 & o2 & Ht2 & Hw2).
  split; [congruence|]. exists (o1 ++ o2).
  rewrite Ht2, Ht1, <- app_assoc. split; [reflexivity|].
  unfold manifestWrites in *. now rewrite omap_app, Hw1, Hw2.
Qed.

Lemma quietly_withCollectionTypes g m : quietly g (withCollectionTypes g m).
Proof. split; [reflexivity|]. exists []. simpl. now rewrite app_nil_r. Qed.

Lemma quietly_outputs g g' outputs :
  events g' = events g → trace g' = trace g ++ outputs →
  manifestWrites outputs = [] → quietly g g'.
Proof. intros He Ht Hw. split; [assumption|]. now exists outputs. Qed.

Ltac quiet :=
  first
    [ apply quietly_refl
    | apply quietly_withCollectionTypes
    | eapply quietly_outputs;
      [reflexivity|simpl; rewrite <- ?app_assoc; reflexivity|reflexivity] ].

Section HandlerFacts.

Context {I : Imports}.

Lemma addEntry_run collectionKey entryKey metadata g :
  addEntry collectionKey entryKey metadata g =
  (Normal regenerate,
   withCollectionTypes g
     (afterAdd collectionKey entryKey metadata (collectionTypes g))).
Proof.
  unfold addEntry, afterAdd, mbind, Effect_bind, getCollectionTypes, when,
    doAddCollection, doSetEntry, mbind, Effect_bind, getCollectionTypes,
    putCollectionTypes, await, JsObject.has.
  destruct (JsObject.get collectionKey (collectionTypes g)) as [entries|] eqn:Hc;
    simpl.
  - unfold entryIn, JsObject.has. rewrite Hc.
    destruct (JsObject.get entryKey entries) eqn:He; simpl.
    + now rewrite withCollectionTypes_same.
    + unfold setEntry. rewrite Hc. simpl.
      now rewrite (set_absent _ _ entries He).
  - unfold addCollection, entryIn, setEntry. simpl.
    rewrite !get_set_eq. simpl. rewrite get_set_eq. simpl.
    rewrite set_set. now rewrite (set_absent _ _ _ Hc).
Qed.

Lemma unlinkEntry_run collectionKey entryKey g :
  unlinkEntry collectionKey entryKey g =
  (Normal regenerate,
   withCollectionTypes g
     (afterUnlink collectionKey entryKey (collectionTypes g))).
Proof.
  unfold unlinkEntry, afterUnlink, mbind, Effect_bind, getCollectionTypes,
    when, doRemoveEntry, mbind, Effect_bind, getCollectionTypes,
    putCollectionTypes, await, JsObject.has.
  destruct (JsObject.get collectionKey (collectionTypes g)) as [entries|] eqn:Hc;
    simpl.
  - unfold entryIn, JsObject.has. rewrite Hc.
    destruct (JsObject.get entryKey entries) eqn:He; simpl.
    + unfold removeEntry. now rewrite Hc.
    + now rewrite withCollectionTypes_same.
  - now rewrite withCollectionTypes_same.
Qed.

Lemma changeEntry_run collectionKey entryKey changedSlug g :
  (types ← getCollectionTypes;
   match lookupEntry types collectionKey entryKey with
   | Some (ContentEntryMetadata storedSlug) =>
       if negb (String.eqb storedSlug changedSlug) then
         doSetEntry collectionKey entryKey (ContentEntryMetadata changedSlug);;
         mret {| shouldGenerateTypes := true; error := None |}
       else mret {| shouldGenerateTypes := false; error := None |}
   | _ => mret {| shouldGenerateTypes := false; error := None |}
   end) g =
  (Normal {| shouldGenerateTypes :=
               changeRegenerates collectionKey entryKey changedSlug
                 (collectionTypes g);
             error := None |},
   withCollectionTypes g
     (afterChange collectionKey entryKey changedSlug (collectionTypes g))).
Proof.
  unfold changeRegenerates, afterChange, lookupEntry, mbind, Effect_bind,
    getCollectionTypes, doSetEntry, mbind, Effect_bind, getCollectionTypes,
    putCollectionTypes, await, setEntry.
  destruct (JsObject.get collectionKey (collectionTypes g)) as [entries|] eqn:Hc;
    simpl; [|now rewrite withCollectionTypes_same].
  destruct (JsObject.get entryKey entries) as [[storedSlug|]|] eqn:He;
    simpl; try now rewrite withCollectionTypes_same.
  destruct (String.eqb storedSlug changedSlug); simpl.
  - now rewrite withCollectionTypes_same.
  - now rewrite Hc.
Qed.

(** What [handleEvent] does on the [add], [change] or [unlink] of an
    entry of a collection. *)
Lemma handleEvent_entry ext event opts g collectionKey entryKey :
  isDirEvent (name event) = false →
  trackedKeys (entry event) = Some (collectionKey, entryKey) →
  handleEvent ext event opts g =
  match name event with
  | unlink =>
      (Normal regenerate,
       withCollectionTypes g
         (afterUnlink collectionKey entryKey (collectionTypes g)))
  | add =>
      match computedSlug ext event with
      | Some (Throw t) => (Throw t, g)
      | Some (Normal addedSlug) =>
          (Normal regenerate,
           withCollectionTypes g
             (afterAdd collectionKey entryKey
                (ContentEntryMetadata addedSlug) (collectionTypes g)))
      | None =>
          (Normal regenerate,
           withCollectionTypes g
             (afterAdd collectionKey entryKey DataEntryMetadata
                (collectionTypes g)))
      end
  | _ =>
      match computedSlug ext event with
      | Some (Throw t) => (Throw t, g)
      | Some (Normal changedSlug) =>
          (Normal {| shouldGenerateTypes :=
                       changeRegenerates collectionKey entryKey changedSlug
                         (collectionTypes g);
                     error := None |},
           withCollectionTypes g
             (afterChange collectionKey entryKey changedSlug
                (collectionTypes g)))
      | None => (Normal noRegenerate, g)
      end
  end.
Proof.
  intros Hdir Hkeys.
  unfold handleEvent, trackedKeys, computedSlug, classify in *.
  rewrite Hdir.
  destruct (getEntryCollectionName (entry event) (contentDir contentPaths))
    as [collection|]; [|discriminate].
  destruct (getEntryType (fileURLToPath (entry event)) contentPaths
              contentEntryExts dataEntryExts); try discriminate.
  - (* content *)
    destruct (getContentEntryIdAndSlug (entry event)
                (contentDir contentPaths) collection) as [id slug].
    simpl in Hkeys. injection Hkeys as <- <-.
    destruct (name event); try discriminate.
    + unfold mbind at 1, Effect_bind at 1, await.
      destruct (parseSlug ext event id slug collection); [|reflexivity].
      apply addEntry_run.
    + unfold mbind at 1, Effect_bind at 1, await.
      destruct (parseSlug ext event id slug collection) as [changedSlug|];
        [|reflexivity].
      apply changeEntry_run.
    + apply unlinkEntry_run.
  - (* data *)
    injection Hkeys as <- <-.
    destruct (name event); try discriminate.
    + apply addEntry_run.
    + reflexivity.
    + apply unlinkEntry_run.
Qed.

(** A file event for something that is no entry of a collection leaves the
    Collection Map and the queue as they are, writes no manifest and never
    throws. *)
Lemma handleEvent_other ext event opts g :
  isDirEvent (name event) = false →
  trackedKeys (entry event) = None →
  ∃ response g',
    handleEvent ext event opts g = (Normal response, g') ∧
    collectionTypes g' = collectionTypes g ∧ quietly g g' ∧
    (classify (entry event) ≠ config → shouldGenerateTypes response = false).
Proof.
  intros Hdir Hkeys.
  unfold handleEvent, trackedKeys, classify in *. rewrite Hdir.
  destruct (getEntryType (fileURLToPath (entry event)) contentPaths
              contentEntryExts dataEntryExts) eqn:Htype.
  - destruct (getEntryCollectionName _ _); [discriminate|].
    destruct (optsLogLevel opts); simpl; eexists _, _;
      (split; [reflexivity|]); (split; [reflexivity|]);
      (split; [|reflexivity]); quiet.
  - destruct (getEntryCollectionName _ _); [discriminate|].
    destruct (optsLogLevel opts); simpl; eexists _, _;
      (split; [reflexivity|]); (split; [reflexivity|]);
      (split; [|reflexivity]); quiet.
  - unfold try_catch, mbind, Effect_bind, observer_set, emit, await.
    simpl.
    destruct (loadContentConfig ext) as [[cfg|]|[e|v]]; simpl;
      eexists _, _; (split; [reflexivity|]); (split; [reflexivity|]);
      (split; [|congruence]); quiet.
  - eexists _, _. split; [reflexivity|]. split; [reflexivity|].
    split; [quiet|reflexivity].
  - destruct (name event); eexists _, _; (split; [reflexivity|]);
      (split; [reflexivity|]); (split; [quiet|reflexivity]).
Qed.

(** A directory event never throws and writes no manifest. *)
Lemma handleEvent_dir ext event opts g :
  isDirEvent (name event) = true →
  ∃ response g',
    handleEvent ext event opts g = (Normal response, g') ∧ quietly g g' ∧
    (collectionTypes g' = collectionTypes g ∨
     collectionTypes g' =
       addCollection (collectionTypes g)
         (JSON_stringify (relativeToContentDir (entry event))) ∨
     collectionTypes g' =
       removeCollection (collectionTypes g)
         (JSON_stringify (relativeToContentDir (entry event)))).
Proof.
  intros Hdir. unfold handleEvent. rewrite Hdir.
  destruct (negb _).
  - eexists _, _. split; [reflexivity|]. split; [quiet|now left].
  - destruct (name event); try discriminate.
    + unfold mbind, Effect_bind, doAddCollection, mbind, Effect_bind,
        getCollectionTypes, putCollectionTypes, when.
      destruct (isInfo (optsLogLevel opts)); simpl; eexists _, _;
        (split; [reflexivity|]); (split; [|right; left; reflexivity]).
      * quiet.
      * apply (quietly_withCollectionTypes g).
    + unfold mbind, Effect_bind, doRemoveCollection, mbind, Effect_bind,
        getCollectionTypes, putCollectionTypes.
      simpl. eexists _, _. split; [reflexivity|].
      split; [apply (quietly_withCollectionTypes g)|right; right; reflexivity].
Qed.

End HandlerFacts.

(** ** Depth of a directory *)

Lemma length_split_aux sep acc s :
  length (split_aux sep acc s) = S (count_char sep s).
Proof.
  revert acc. induction s as [|c s IH]; intros acc; simpl; [reflexivity|].
  destruct (Ascii.eqb c sep); simpl; now rewrite IH.
Qed.

Lemma occurs_count c s : occurs c s = false ↔ count_char c s = 0.
Proof.
  induction s as [|c' s IH]; simpl; [tauto|].
  destruct (Ascii.eqb c' c); simpl; [split; [discriminate|lia]|exact IH].
Qed.

(** A relative path has depth one exactly when it holds no slash. *)
Lemma depth_one_iff relativePath :
  depth relativePath = 1 ↔ occurs "/" relativePath = false.
Proof.
  unfold depth, split. rewrite length_split_aux, occurs_count. lia.
Qed.

(** ** Claims on single events *)

Section EventClaims.

Context {I : Imports}.

(** C1. For a tracked content entry, a [change] event recomputes the slug
    and asks for a regeneration exactly when the recomputed slug differs
    from the stored one, which it then replaces; with an unchanged slug
    nothing is signalled and the state stays as it is.  When the slug
    cannot be recomputed, the handler throws and the state stays as it
    is. *)
Theorem change_regenerates_iff_slug_differs
    ext event opts g collectionKey entryKey storedSlug recomputed :
  name event = change →
  trackedKeys (entry event) = Some (collectionKey, entryKey) →
  lookupEntry (collectionTypes g) collectionKey entryKey =
    Some (ContentEntryMetadata storedSlug) →
  computedSlug ext event = Some recomputed →
  (∀ changedSlug,
     recomputed = Normal changedSlug →
     ∃ response g',
       handleEvent ext event opts g = (Normal response, g') ∧
       (shouldGenerateTypes response = true ↔ changedSlug ≠ storedSlug) ∧
       lookupEntry (collectionTypes g') collectionKey entryKey =
         Some (ContentEntryMetadata changedSlug) ∧
       (changedSlug = storedSlug → g' = g)) ∧
  (∀ t, recomputed = Throw t → handleEvent ext event opts g = (Throw t, g)).
Proof.
  intros Hname Hkeys Hstored Hslug.
  rewrite (handleEvent_entry ext event opts g collectionKey entryKey);
    [|now rewrite Hname|assumption].
  rewrite Hname, Hslug. split; [|now intros t ->].
  intros changedSlug ->. eexists _, _. split; [reflexivity|].
  unfold changeRegenerates, afterChange. rewrite Hstored. simpl.
  unfold lookupEntry in *.
  destruct (JsObject.get collectionKey (collectionTypes g)) as [entries|] eqn:Hc;
    [|discriminate].
  rewrite Hstored.
  destruct (String.eqb_spec storedSlug changedSlug) as [->|Hne]; simpl.
  - rewrite Hc. repeat split; try congruence.
    intros _. apply withCollectionTypes_same.
  - rewrite !get_set_eq. repeat split; congruence.
Qed.

(** C7. The [change] of a data entry never asks for a regeneration and
    leaves the Collection Map unchanged. *)
Theorem data_change_never_regenerates ext event opts g :
  name event = change →
  classify (entry event) = data →
  ∃ g',
    handleEvent ext event opts g = (Normal noRegenerate, g') ∧
    collectionTypes g' = collectionTypes g.
Proof.
  intros Hname Hdata.
  destruct (trackedKeys (entry event)) as [[collectionKey entryKey]|] eqn:Hkeys.
  - rewrite (handleEvent_entry ext event opts g collectionKey entryKey);
      [|now rewrite Hname|assumption].
    rewrite Hname. unfold computedSlug. rewrite Hdata.
    destruct (getEntryCollectionName _ _); eexists; eauto.
  - unfold handleEvent, trackedKeys, classify in *.
    rewrite Hname, Hdata in *. simpl.
    destruct (getEntryCollectionName _ _); [discriminate|].
    destruct (optsLogLevel opts); simpl; eexists; eauto.
Qed.

(** C5. A directory event at depth one asks for a regeneration, [addDir]
    leaving the named collection with an empty entry map and [unlinkDir]
    leaving it absent, the other collections being untouched; a directory
    event at any other depth changes nothing and signals nothing. *)
Theorem directory_events ext event opts g :
  isDirEvent (name event) = true →
  let collectionKey :=
    JSON_stringify (relativeToContentDir (entry event)) in
  (depth (relativeToContentDir (entry event)) = 1 →
   ∃ g',
     handleEvent ext event opts g = (Normal regenerate, g') ∧
     JsObject.get collectionKey (collectionTypes g') =
       match name event with
       | addDir => Some JsObject.empty
       | _ => None
       end ∧
     ∀ k, k ≠ collectionKey →
          JsObject.get k (collectionTypes g') =
          JsObject.get k (collectionTypes g)) ∧
  (depth (relativeToContentDir (entry event)) ≠ 1 →
   handleEvent ext event opts g = (Normal noRegenerate, g)).
Proof.
  intros Hdir collectionKey. unfold handleEvent. rewrite Hdir.
  fold (depth (relativeToContentDir (entry event))).
  split; intros Hdepth.
  - rewrite Hdepth. simpl.
    destruct (name event); try discriminate.
    + unfold mbind, Effect_bind, doAddCollection, mbind, Effect_bind,
        getCollectionTypes, putCollectionTypes, when, addCollection.
      destruct (isInfo (optsLogLevel opts)); simpl; eexists;
        (split; [reflexivity|]); simpl;
        (split; [apply get_set_eq|intros k Hk; now apply get_set_ne]).
    + unfold mbind, Effect_bind, doRemoveCollection, mbind, Effect_bind,
        getCollectionTypes, putCollectionTypes, removeCollection.
      simpl. eexists. split; [reflexivity|]. simpl.
      split; [apply get_delete_eq|intros k Hk; now apply get_delete_ne].
  - apply Nat.eqb_neq in Hdepth. now rewrite Hdepth.
Qed.

(** C8, amended.  A config-file event first sets the observable to
    [loading], then calls the config loader, and ends with the observable
    [loaded] with the definition returned, [does-not-exist] when none is
    returned, and [error] when the loader throws; the error carried is the
    thrown value when that is an [Error] and the generic unknown
    content-collection error otherwise.  In every case a regeneration is
    asked for. *)
Theorem config_event ext event opts g :
  isDirEvent (name event) = false →
  classify (entry event) = config →
  ∃ final logged g',
    handleEvent ext event opts g = (Normal regenerate, g') ∧
    trace g' =
      trace g ++ [ObserverSet st_loading; ConfigLoaderCalled] ++
      map ConsoleLog logged ++ [ObserverSet final] ∧
    observable g' = final ∧
    collectionTypes g' = collectionTypes g ∧
    (∀ cfg, loadContentConfig ext = Normal (Some cfg) → final = st_loaded cfg) ∧
    (loadContentConfig ext = Normal None → final = st_does_not_exist) ∧
    (∀ e, loadContentConfig ext = Throw (ThrownError e) → final = st_error e) ∧
    (∀ v, loadContentConfig ext = Throw (ThrownValue v) →
          final = st_error UnknownContentCollectionError).
Proof.
  intros Hdir Hconfig. unfold handleEvent, classify in *.
  rewrite Hdir, Hconfig.
  unfold try_catch, mbind, Effect_bind, observer_set, emit, await. simpl.
  destruct (loadContentConfig ext) as [[cfg|]|[e|v]]; simpl.
  - exists (st_loaded cfg), [Some cfg]. eexists. split; [reflexivity|].
    simpl. rewrite <- !app_assoc. repeat split; congruence.
  - exists st_does_not_exist, [None]. eexists. split; [reflexivity|].
    simpl. rewrite <- !app_assoc. repeat split; congruence.
  - exists (st_error e), []. eexists. split; [reflexivity|].
    simpl. rewrite <- !app_assoc. repeat split; congruence.
  - exists (st_error UnknownContentCollectionError), []. eexists.
    split; [reflexivity|].
    simpl. rewrite <- !app_assoc. repeat split; congruence.
Qed.

(** C10, amended.  The [add] of an entry whose id is already in its
    collection's entry map leaves the whole state unchanged.  It asks for
    a regeneration, unless the entry is a content entry whose slug cannot
    be read: then the handler throws what reading the slug threw. *)
Theorem add_of_tracked_entry
    ext event opts g collectionKey entryKey metadata :
  name event = add →
  trackedKeys (entry event) = Some (collectionKey, entryKey) →
  lookupEntry (collectionTypes g) collectionKey entryKey = Some metadata →
  ∃ completion,
    handleEvent ext event opts g = (completion, g) ∧
    (∀ t, computedSlug ext event = Some (Throw t) → completion = Throw t) ∧
    ((∀ t, computedSlug ext event ≠ Some (Throw t)) →
     completion = Normal regenerate).
Proof.
  intros Hname Hkeys Hstored.
  rewrite (handleEvent_entry ext event opts g collectionKey entryKey);
    [|now rewrite Hname|assumption].
  rewrite Hname. unfold afterAdd, lookupEntry in *.
  destruct (JsObject.get collectionKey (collectionTypes g)) as [entries|];
    [|discriminate].
  rewrite Hstored, withCollectionTypes_same.
  destruct (computedSlug ext event) as [[addedSlug|t]|]; eexists;
    (split; [reflexivity|]); split; try congruence.
  intros Hreadable. now destruct (Hreadable t).
Qed.

Lemma get_appended {V} k (v : V) (o : JsObject.t V) :
  JsObject.get k o = None → JsObject.get k (o ++ [(k, v)]) = Some v.
Proof.
  intros Hg. rewrite <- (set_absent k v o Hg). apply get_set_eq.
Qed.

Lemma afterUnlink_afterAdd collectionKey entryKey metadata m entries :
  JsObject.get collectionKey m = Some entries →
  JsObject.get entryKey entries = None →
  afterUnlink collectionKey entryKey
    (afterAdd collectionKey entryKey metadata m) = m.
Proof.
  intros Hc He. unfold afterAdd. rewrite Hc, He.
  unfold afterUnlink. rewrite get_set_eq, (get_appended _ _ _ He).
  rewrite set_set, (delete_appended _ _ _ He).
  now apply set_get_same.
Qed.

Lemma afterUnlink_absent collectionKey entryKey m entries :
  JsObject.get collectionKey m = Some entries →
  JsObject.get entryKey entries = None →
  afterUnlink collectionKey entryKey m = m.
Proof. intros Hc He. unfold afterUnlink. now rewrite Hc, He. Qed.

(** C2, amended.  When the collection of an entry path is in the
    Collection Map and its entry id is not, an [add] event for the path
    followed by an [unlink] event for it returns the Collection Map to its
    prior state; so do the two events for a path that is no entry of a
    collection. *)
Theorem add_then_unlink_round_trip ext1 ext2 opts1 opts2 path g :
  (∀ collectionKey entryKey,
     trackedKeys path = Some (collectionKey, entryKey) →
     ∃ entries,
       JsObject.get collectionKey (collectionTypes g) = Some entries ∧
       JsObject.get entryKey entries = None) →
  let g1 := (handleEvent ext1 {| name := add; entry := path |} opts1 g).2 in
  let g2 := (handleEvent ext2 {| name := unlink; entry := path |} opts2 g1).2 in
  collectionTypes g2 = collectionTypes g.
Proof.
  intros Hfresh.
  destruct (trackedKeys path) as [[collectionKey entryKey]|] eqn:Hkeys.
  - destruct (Hfresh _ _ eq_refl) as (entries & Hc & He).
    cbv zeta.
    rewrite (handleEvent_entry ext2 _ opts2 _ collectionKey entryKey);
      [|reflexivity|assumption].
    rewrite (handleEvent_entry ext1 _ opts1 _ collectionKey entryKey);
      [|reflexivity|assumption].
    simpl.
    destruct (computedSlug ext1 _) as [[addedSlug|t]|]; simpl.
    + now apply afterUnlink_afterAdd with entries.
    + now apply afterUnlink_absent with entries.
    + now apply afterUnlink_afterAdd with entries.
  - cbv zeta.
    destruct (handleEvent_other ext1 {| name := add; entry := path |}
                opts1 g eq_refl Hkeys) as (r1 & g1 & -> & Ht1 & _).
    simpl.
    destruct (handleEvent_other ext2 {| name := unlink; entry := path |}
                opts2 g1 eq_refl Hkeys) as (r2 & g2 & -> & Ht2 & _).
    simpl. congruence.
Qed.

Lemma keys_app {V} (o1 o2 : JsObject.t V) :
  JsObject.keys (o1 ++ o2) = JsObject.keys o1 ++ JsObject.keys o2.
Proof. apply map_app. Qed.

Lemma keys_set_present {V} k (v v' : V) (o : JsObject.t V) :
  JsObject.get k o = Some v' →
  JsObject.keys (JsObject.set k v o) = JsObject.keys o.
Proof.
  intros Hg. rewrite keys_set. unfold JsObject.has. now rewrite Hg.
Qed.

Lemma keys_afterUnlink collectionKey entryKey m :
  JsObject.keys (afterUnlink collectionKey entryKey m) = JsObject.keys m.
Proof.
  unfold afterUnlink.
  destruct (JsObject.get collectionKey m) as [entries|] eqn:Hc; [|reflexivity].
  destruct (JsObject.get entryKey entries); [|reflexivity].
  now apply keys_set_present with entries.
Qed.

Lemma keys_afterChange collectionKey entryKey changedSlug m :
  JsObject.keys (afterChange collectionKey entryKey changedSlug m) =
  JsObject.keys m.
Proof.
  unfold afterChange.
  destruct (JsObject.get collectionKey m) as [entries|] eqn:Hc; [|reflexivity].
  destruct (JsObject.get entryKey entries) as [[storedSlug|]|]; try reflexivity.
  destruct (String.eqb storedSlug changedSlug); [reflexivity|].
  now apply keys_set_present with entries.
Qed.

Lemma keys_afterAdd collectionKey entryKey metadata m :
  JsObject.keys (afterAdd collectionKey entryKey metadata m) =
  if JsObject.has collectionKey m then JsObject.keys m
  else JsObject.keys m ++ [collectionKey].
Proof.
  unfold afterAdd, JsObject.has.
  destruct (JsObject.get collectionKey m) as [entries|] eqn:Hc.
  - destruct (JsObject.get entryKey entries); [reflexivity|].
    now apply keys_set_present with entries.
  - apply keys_app.
Qed.

(** C6, amended.  Handling a file event never removes a collection from
    the Collection Map, and it adds one in a single case: the [add] of an
    entry whose collection is not in the map yet, handled to its end.
    The map is then the prior map followed by that collection, whose only
    entry is the new one: a data entry, or a content entry with the slug
    that was read.  When the slug of the content entry cannot be read
    the handler throws and the state is as it was.  [change] and [unlink]
    leave the collections as they are. *)
Theorem collections_under_file_events ext event opts g :
  isDirEvent (name event) = false →
  let before := collectionTypes g in
  let after := collectionTypes (handleEvent ext event opts g).2 in
  (JsObject.keys after = JsObject.keys before ∨
   name event = add ∧
   ∃ collectionKey entryKey metadata,
     trackedKeys (entry event) = Some (collectionKey, entryKey) ∧
     JsObject.has collectionKey before = false ∧
     after = before ++ [(collectionKey, [(entryKey, metadata)])]) ∧
  (name event = add →
   ∀ collectionKey entryKey,
     trackedKeys (entry event) = Some (collectionKey, entryKey) →
     JsObject.has collectionKey before = false →
     match computedSlug ext event with
     | Some (Throw t) => handleEvent ext event opts g = (Throw t, g)
     | Some (Normal addedSlug) =>
         handleEvent ext event opts g =
           (Normal regenerate,
            withCollectionTypes g
              (before ++
               [(collectionKey,
                 [(entryKey, ContentEntryMetadata addedSlug)])]))
     | None =>
         handleEvent ext event opts g =
           (Normal regenerate,
            withCollectionTypes g
              (before ++ [(collectionKey, [(entryKey, DataEntryMetadata)])]))
     end).
Proof.
  intros Hdir. cbv zeta.
  assert (Hnew : ∀ collectionKey entryKey metadata,
    JsObject.has collectionKey (collectionTypes g) = false →
    afterAdd collectionKey entryKey metadata (collectionTypes g) =
    collectionTypes g ++ [(collectionKey, [(entryKey, metadata)])]).
  { intros collectionKey entryKey metadata Hhas. unfold afterAdd.
    apply has_false_get in Hhas. now rewrite Hhas. }
  destruct (trackedKeys (entry event)) as [[collectionKey entryKey]|] eqn:Hkeys.
  - rewrite (handleEvent_entry ext event opts g collectionKey entryKey Hdir Hkeys).
    destruct (name event) eqn:Hname; try discriminate.
    + (* add *)
      destruct (JsObject.has collectionKey (collectionTypes g)) eqn:Hhas.
      * split; [left|intros _ ? ? [= <- <-]; congruence].
        destruct (computedSlug ext event) as [[addedSlug|t]|]; simpl;
          try reflexivity; now rewrite keys_afterAdd, Hhas.
      * split.
        -- destruct (computedSlug ext event) as [[addedSlug|t]|]; simpl;
             [right|now left|right];
             (split; [reflexivity|]); exists collectionKey, entryKey;
             eexists; (split; [reflexivity|]); (split; [exact Hhas|]);
             now apply Hnew.
        -- intros _ ? ? [= <- <-] _.
           destruct (computedSlug ext event) as [[addedSlug|t]|];
             try reflexivity; now rewrite Hnew.
    + (* change *)
      split; [left|discriminate].
      destruct (computedSlug ext event) as [[changedSlug|t]|]; simpl;
        try reflexivity. apply keys_afterChange.
    + (* unlink *)
      split; [left|discriminate]. simpl. apply keys_afterUnlink.
  - destruct (handleEvent_other ext event opts g Hdir Hkeys)
      as (r & g' & -> & Ht & _).
    simpl. rewrite Ht. split; [now left|discriminate].
Qed.

End EventClaims.

(** ** Strings: sorting, JSON text, replacement *)

Lemma sort_sorted l : Sorted String.le (sort l).
Proof. apply Sorted_merge_sort; apply _. Qed.

Lemma sort_strongly_sorted l : StronglySorted String.le (sort l).
Proof. apply StronglySorted_merge_sort; apply _. Qed.

Lemma sort_Permutation l : sort l ≡ₚ l.
Proof. apply merge_sort_Permutation. Qed.

(** Sorting forgets the order of its input. *)
Lemma sort_order_irrelevant l1 l2 : l1 ≡ₚ l2 → sort l1 = sort l2.
Proof.
  intros Hp. apply (Sorted_unique String.le); try apply sort_sorted.
  now rewrite !sort_Permutation.
Qed.

Lemma append_assoc (a b c : string) : (a +:+ b) +:+ c = a +:+ (b +:+ c).
Proof.
  induction a as [|x a IH]; [reflexivity|].
  unfold String.app in *. simpl. now rewrite IH.
Qed.

Lemma append_nil_r (a : string) : a +:+ "" = a.
Proof.
  induction a as [|x a IH]; [reflexivity|].
  unfold String.app in *. simpl. now rewrite IH.
Qed.

Lemma json_unescape_escape_char c rest r :
  json_unescape_all rest = Some r →
  json_unescape_all (json_escape c +:+ rest) = Some (String c r).
Proof.
  intros Hrest.
  destruct c as [[] [] [] [] [] [] [] []];
    cbv [json_escape nat_of_ascii N_of_ascii N_of_digits N.add N.mul
         Pos.add Pos.succ Pos.mul N.to_nat Pos.to_nat Pos.iter_op Nat.add
         Nat.eqb Nat.ltb Nat.leb String.app String.append backslash dquote
         ascii_of_nat ascii_of_pos ascii_of_N Pos.of_nat Pos.of_succ_nat
         Nat.div Nat.modulo Nat.divmod hex_digit nth fst snd Nat.sub
         N.of_nat];
    simpl; rewrite Hrest; reflexivity.
Qed.

Lemma json_unescape_closing : json_unescape_all dquote = Some "".
Proof. reflexivity. Qed.

Lemma json_unescape_escape_all s :
  json_unescape_all (json_escape_all s +:+ dquote) = Some s.
Proof.
  induction s as [|c s IH]; [reflexivity|].
  simpl json_escape_all. rewrite append_assoc.
  now apply json_unescape_escape_char.
Qed.

(** [JSON.parse] gives back what [JSON.stringify] was applied to. *)
Lemma JSON_parse_stringify s : JSON_parse (JSON_stringify s) = Some s.
Proof.
  unfold JSON_stringify.
  change (dquote +:+ json_escape_all s +:+ dquote)
    with (String (ascii_of_nat 34) (json_escape_all s +:+ dquote)).
  simpl. apply json_unescape_escape_all.
Qed.

(** ** Order of the JSON keys and order of the names *)

Lemma json_escape_plain c : plainChar c = true → json_escape c = String c "".
Proof.
  destruct c as [[] [] [] [] [] [] [] []]; intros Hplain;
    vm_compute in Hplain; try discriminate Hplain; reflexivity.
Qed.

Lemma json_escape_all_plain s : plainName s = true → json_escape_all s = s.
Proof.
  induction s as [|c s IH]; [reflexivity|]. simpl.
  intros [Hc Hs]%andb_true_iff.
  now rewrite (json_escape_plain c Hc), (IH Hs).
Qed.

Lemma compare_quote_plain c :
  plainChar c = true →
  Ascii.compare (ascii_of_nat 34) c = Lt ∧
  Ascii.compare c (ascii_of_nat 34) = Gt.
Proof.
  destruct c as [[] [] [] [] [] [] [] []]; intros Hplain;
    vm_compute in Hplain; try discriminate Hplain; split; reflexivity.
Qed.

Lemma compare_quoted a b :
  plainName a = true → plainName b = true →
  String.compare (a +:+ dquote) (b +:+ dquote) = String.compare a b.
Proof.
  revert b. induction a as [|x a IH]; intros [|y b] Ha Hb.
  - reflexivity.
  - simpl in Hb. apply andb_true_iff in Hb as [Hy _].
    destruct (compare_quote_plain y Hy) as [Hlt _].
    unfold String.app, dquote. simpl. now rewrite Hlt.
  - simpl in Ha. apply andb_true_iff in Ha as [Hx _].
    destruct (compare_quote_plain x Hx) as [_ Hgt].
    unfold String.app, dquote. simpl. now rewrite Hgt.
  - simpl in Ha, Hb.
    apply andb_true_iff in Ha as [_ Ha]. apply andb_true_iff in Hb as [_ Hb].
    specialize (IH b Ha Hb). unfold String.app in *. simpl.
    now rewrite IH.
Qed.

(** On plain names, the order of the keys is the order of the names. *)
Lemma JSON_stringify_order a b :
  plainName a = true → plainName b = true →
  String.leb (JSON_stringify a) (JSON_stringify b) = String.leb a b.
Proof.
  intros Ha Hb. unfold JSON_stringify.
  rewrite (json_escape_all_plain a Ha), (json_escape_all_plain b Hb).
  unfold String.leb.
  change (String.compare (dquote +:+ a +:+ dquote) (dquote +:+ b +:+ dquote))
    with (String.compare (a +:+ dquote) (b +:+ dquote)).
  now rewrite compare_quoted.
Qed.

Lemma omap_cons_Some {A B} (f : A → option B) x y l :
  f x = Some y → omap f (x :: l) = y :: omap f l.
Proof. intros Hf. simpl. now rewrite Hf. Qed.

Lemma omap_parse_sorted keys :
  StronglySorted String.le keys → Forall plainKey keys →
  StronglySorted String.le (omap JSON_parse keys).
Proof.
  induction 1 as [|k keys Hsorted IH Hhead]; intros Hplain; [constructor|].
  apply Forall_cons in Hplain as [(n & -> & Hn) Hplain].
  rewrite (omap_cons_Some _ _ n _ (JSON_parse_stringify n)).
  constructor; [now apply IH|].
  apply Forall_forall. intros n' Hn'.
  apply list_elem_of_omap in Hn' as (k' & Hk' & Hparse).
  rewrite Forall_forall in Hplain, Hhead.
  destruct (Hplain k' Hk') as (m & -> & Hm).
  rewrite JSON_parse_stringify in Hparse. injection Hparse as <-.
  specialize (Hhead _ Hk'). unfold String.le in *.
  now rewrite (JSON_stringify_order n m Hn Hm) in Hhead.
Qed.

(** When the names are plain, the writer emits them in their own
    lexicographic order. *)
Lemma emittedNames_sorted {V} (o : JsObject.t V) :
  Forall plainKey (JsObject.keys o) →
  StronglySorted String.le (emittedNames o).
Proof.
  intros Hplain. unfold emittedNames.
  apply omap_parse_sorted; [apply sort_strongly_sorted|].
  now rewrite sort_Permutation.
Qed.

(** ** The manifest writer *)

Section WriterFacts.

Context {I : Imports}.

Local Arguments entryBlock : simpl never.
Local Arguments collectionBlock : simpl never.

Lemma concatBlocks_ext f f' keys :
  (∀ k, k ∈ keys → f k = f' k) → concatBlocks f keys = concatBlocks f' keys.
Proof.
  induction keys as [|k keys IH]; intros Hext; [reflexivity|].
  simpl. rewrite (Hext k) by left.
  rewrite IH; [reflexivity|]. intros k' Hk'. apply Hext. now right.
Qed.

Lemma concatBlocks_total f keys :
  (∀ k, k ∈ keys → ∃ b, f k = Normal b) → ∃ body, concatBlocks f keys = Normal body.
Proof.
  induction keys as [|k keys IH]; intros Htotal; simpl; [eauto|].
  destruct (Htotal k) as [b ->]; [left|].
  destruct IH as [r ->]; [intros k' Hk'; apply Htotal; now right|].
  simpl. eauto.
Qed.

(** The inner loop of the writer appends the blocks of the entry keys, in
    the order given. *)
Lemma entriesLoop_blocks collectionConfig collectionKey entries entryKeys acc :
  entriesLoop collectionConfig collectionKey entries entryKeys acc =
  (body ← concatBlocks (entryBlock collectionConfig collectionKey entries)
            entryKeys;
   Normal (acc +:+ body)).
Proof.
  revert acc. induction entryKeys as [|entryKey rest IH]; intros acc; simpl.
  - now rewrite append_nil_r.
  - assert (Hblock :
      entryBlock collectionConfig collectionKey entries entryKey =
      match JsObject.get entryKey entries with
      | Some md =>
          entryTypeStr collectionKey entryKey
            (dataTypeOf collectionConfig collectionKey) md
      | None =>
          Throw (ThrownError (TypeError "Cannot read properties of undefined"))
      end) by reflexivity.
    rewrite Hblock. clear Hblock.
    destruct (JsObject.get entryKey entries) as [md|]; [|reflexivity].
    destruct (entryTypeStr _ _ _ md) as [str|]; [|reflexivity].
    simpl. rewrite IH.
    destruct (concatBlocks _ rest) as [body|]; [|reflexivity].
    simpl. now rewrite append_assoc.
Qed.

(** The outer loop appends the blocks of the collection keys, in the order
    given. *)
Lemma collectionsLoop_blocks contentConfig contentTypes collectionKeys acc :
  collectionsLoop contentConfig contentTypes collectionKeys acc =
  (body ← concatBlocks (collectionBlock contentConfig contentTypes)
            collectionKeys;
   Normal (acc +:+ body)).
Proof.
  revert acc. induction collectionKeys as [|collectionKey rest IH];
    intros acc; simpl.
  - now rewrite append_nil_r.
  - assert (Hblock :
      collectionBlock contentConfig contentTypes collectionKey =
      (collectionConfig ← collectionConfigOf contentConfig collectionKey;
       match JsObject.get collectionKey contentTypes with
       | None =>
           Throw (ThrownError (TypeError "Cannot convert undefined to object"))
       | Some entries =>
           body ←
             concatBlocks (entryBlock collectionConfig collectionKey entries)
               (sort (JsObject.keys entries));
           Normal (collectionKey +:+ ": {" +:+ nl +:+ body +:+ "}," +:+ nl)
       end)) by reflexivity.
    rewrite Hblock. clear Hblock.
    destruct (collectionConfigOf contentConfig collectionKey)
      as [collectionConfig|]; [|reflexivity].
    simpl.
    destruct (JsObject.get collectionKey contentTypes) as [entries|];
      [|reflexivity].
    rewrite entriesLoop_blocks.
    destruct (concatBlocks _ (sort (JsObject.keys entries))) as [body|];
      [|reflexivity].
    simpl. rewrite IH.
    destruct (concatBlocks _ rest) as [body'|]; [|reflexivity].
    simpl. now rewrite !append_assoc.
Qed.

(** The writer's loops compute the sorted body. *)
Lemma contentTypesStrOf_sortedBody contentTypes contentConfig :
  contentTypesStrOf contentTypes contentConfig =
  sortedBody contentTypes contentConfig.
Proof.
  unfold contentTypesStrOf, sortedBody. rewrite collectionsLoop_blocks.
  now destruct (concatBlocks _ _).
Qed.

Lemma sameProperties_keys {V} (o1 o2 : JsObject.t V) :
  sameProperties o1 o2 → JsObject.keys o1 ≡ₚ JsObject.keys o2.
Proof. intros (_ & _ & Hp). now apply Permutation_map. Qed.

Lemma collectionBlock_same contentConfig m1 m2 collectionKey :
  sameCollections m1 m2 →
  collectionBlock contentConfig m1 collectionKey =
  collectionBlock contentConfig m2 collectionKey.
Proof.
  intros (_ & _ & _ & Hget). specialize (Hget collectionKey).
  unfold collectionBlock.
  destruct (collectionConfigOf contentConfig collectionKey)
    as [collectionConfig|]; [|reflexivity].
  simpl.
  destruct (JsObject.get collectionKey m1) as [e1|],
           (JsObject.get collectionKey m2) as [e2|]; try contradiction;
    [|reflexivity].
  rewrite (sort_order_irrelevant _ _ (sameProperties_keys _ _ Hget)).
  destruct Hget as (Hwf1 & Hwf2 & Hp).
  rewrite (concatBlocks_ext _ (entryBlock collectionConfig collectionKey e2));
    [reflexivity|].
  intros entryKey _. unfold entryBlock.
  now rewrite (get_Permutation entryKey e1 e2).
Qed.

(** The body of the manifest does not depend on the order in which the
    collections and the entries were added. *)
Lemma sortedBody_same m1 m2 contentConfig :
  sameCollections m1 m2 →
  sortedBody m1 contentConfig = sortedBody m2 contentConfig.
Proof.
  intros Hsame. unfold sortedBody.
  destruct Hsame as (Hwf1 & Hwf2 & Hkeys & Hget).
  rewrite (sort_order_irrelevant _ _ Hkeys).
  apply concatBlocks_ext. intros k _.
  apply collectionBlock_same. now repeat split.
Qed.

Lemma jsonKeys_get m collectionKey entries :
  jsonKeys m → JsObject.get collectionKey m = Some entries →
  jsonKey collectionKey ∧ Forall (λ e, jsonKey (fst e)) entries.
Proof.
  intros Hjson Hget. apply get_elem_of in Hget.
  unfold jsonKeys in Hjson. rewrite Forall_forall in Hjson.
  exact (Hjson _ Hget).
Qed.

Lemma jsonKey_parse k : jsonKey k → ∃ s, JSON_parse k = Some s.
Proof. intros [s ->]. exists s. apply JSON_parse_stringify. Qed.

(** On a map whose keys are JSON string literals, the body is produced. *)
Lemma sortedBody_total m contentConfig :
  jsonKeys m → ∃ body, sortedBody m contentConfig = Normal body.
Proof.
  intros Hjson. apply concatBlocks_total. intros collectionKey Hin.
  rewrite sort_Permutation in Hin.
  apply elem_of_keys_get in Hin as [entries Hget].
  destruct (jsonKeys_get _ _ _ Hjson Hget) as [Hkey Hentries].
  unfold collectionBlock, collectionConfigOf. rewrite Hget.
  assert (Hbody : ∀ collectionConfig, ∃ body,
    concatBlocks (entryBlock collectionConfig collectionKey entries)
      (sort (JsObject.keys entries)) = Normal body).
  { intros collectionConfig. apply concatBlocks_total. intros entryKey Hek.
    rewrite sort_Permutation in Hek.
    apply elem_of_keys_get in Hek as [md Hmd].
    unfold entryBlock. rewrite Hmd.
    destruct md as [slug|]; simpl; [|eauto].
    rewrite Forall_forall in Hentries.
    destruct (jsonKey_parse entryKey) as [id ->]; [|eauto].
    exact (Hentries _ (get_elem_of _ _ _ Hmd)). }
  destruct contentConfig as [cfg|]; simpl.
  - destruct (jsonKey_parse _ Hkey) as [collection ->]. simpl.
    destruct (Hbody (JsObject.get collection (collections cfg))) as [body ->].
    simpl. eauto.
  - destruct (Hbody None) as [body ->]. simpl. eauto.
Qed.

Lemma outputsSince_addOutputs g outputs :
  outputsSince g (addOutputs g outputs) = outputs.
Proof. unfold outputsSince. simpl. apply drop_app_length. Qed.

Lemma outputsSince_same g : outputsSince g g = [].
Proof. unfold outputsSince. apply drop_all. Qed.

(** What [writeContentFiles] does: nothing but throw when the body cannot
    be built; otherwise it makes the cache directory if need be and writes
    the manifest once. *)
Lemma writeContentFiles_run ext contentTypes template entryTypes contentConfig g :
  writeContentFiles ext contentTypes template entryTypes contentConfig g =
  match contentTypesStrOf contentTypes contentConfig with
  | Throw t => (Throw t, g)
  | Normal body =>
      (Normal (),
       addOutputs g
         ((if dirKnown ext (cacheDir contentPaths) (trace g)
           then [] else [Mkdir (cacheDir contentPaths)]) ++
          [WriteFile (new_URL CONTENT_TYPES_FILE (cacheDir contentPaths))
             (manifestText template entryTypes contentConfig body)]))
  end.
Proof.
  unfold writeContentFiles, mbind, Effect_bind, await.
  destruct (contentTypesStrOf contentTypes contentConfig) as [body|];
    [|reflexivity].
  unfold dirExists. simpl.
  destruct (dirKnown ext (cacheDir contentPaths) (trace g)); simpl.
  - unfold emit, addOutputs. reflexivity.
  - unfold emit, addOutputs. simpl. now rewrite <- app_assoc.
Qed.

Lemma manifestWrites_app l1 l2 :
  manifestWrites (l1 ++ l2) = manifestWrites l1 ++ manifestWrites l2.
Proof. apply omap_app. Qed.

(** The manifest texts written by one call of [writeContentFiles]. *)
Lemma writeContentFiles_writes ext contentTypes template entryTypes contentConfig g :
  manifestWrites
    (outputsSince g
       (writeContentFiles ext contentTypes template entryTypes contentConfig g).2) =
  match sortedBody contentTypes contentConfig with
  | Normal body => [manifestText template entryTypes contentConfig body]
  | Throw _ => []
  end.
Proof.
  rewrite writeContentFiles_run, contentTypesStrOf_sortedBody.
  destruct (sortedBody contentTypes contentConfig) as [body|]; simpl.
  - rewrite outputsSince_addOutputs, manifestWrites_app.
    now destruct (dirKnown _ _ _).
  - now rewrite outputsSince_same.
Qed.

(** C4, amended.  The writer emits the collections in the lexicographic
    order of their keys, the JSON-quoted names, and the entries of each
    collection in the lexicographic order of their keys, the JSON-quoted
    ids: its loops compute [sortedBody].  For plain names and ids, which
    hold no character below [#] and no backslash, this is the lexicographic
    order of the names and ids themselves.  Hence two invocations on
    Collection Maps with the same content and on the same config write
    byte-identical text, whatever the order in which collections and
    entries were added and whatever the state they run in; and on the maps
    of the tracker, whose keys are JSON strings, each invocation writes
    exactly one text. *)
Theorem manifest_sorted_and_deterministic
    ext ext' g g' contentTypes contentTypes' template entryTypes contentConfig :
  sameCollections contentTypes contentTypes' →
  contentTypesStrOf contentTypes contentConfig =
    sortedBody contentTypes contentConfig ∧
  StronglySorted String.le (sort (JsObject.keys contentTypes)) ∧
  sort (JsObject.keys contentTypes) ≡ₚ JsObject.keys contentTypes ∧
  (∀ entries : JsObject.t EntryMetadata,
     StronglySorted String.le (sort (JsObject.keys entries)) ∧
     sort (JsObject.keys entries) ≡ₚ JsObject.keys entries ∧
     (Forall plainKey (JsObject.keys entries) →
      StronglySorted String.le (emittedNames entries))) ∧
  (Forall plainKey (JsObject.keys contentTypes) →
   StronglySorted String.le (emittedNames contentTypes)) ∧
  manifestWrites
    (outputsSince g
       (writeContentFiles ext contentTypes template entryTypes
          contentConfig g).2) =
  manifestWrites
    (outputsSince g'
       (writeContentFiles ext' contentTypes' template entryTypes
          contentConfig g').2) ∧
  (jsonKeys contentTypes →
   ∃ text,
     manifestWrites
       (outputsSince g
          (writeContentFiles ext contentTypes template entryTypes
             contentConfig g).2) = [text]).
Proof.
  intros Hsame. split; [apply contentTypesStrOf_sortedBody|].
  split; [apply sort_strongly_sorted|]. split; [apply sort_Permutation|].
  split; [intros entries; split;
          [apply sort_strongly_sorted|split;
           [apply sort_Permutation|apply emittedNames_sorted]]|].
  split; [apply emittedNames_sorted|].
  rewrite !writeContentFiles_writes. split.
  - now rewrite (sortedBody_same _ _ contentConfig Hsame).
  - intros Hjson.
    destruct (sortedBody_total _ contentConfig Hjson) as [body ->]. eauto.
Qed.

End WriterFacts.

(** ** The batch runner *)

Section RunnerFacts.

Context {I : Imports}.

Lemma Forall_set {V} (P : string * V → Prop) k v (o : JsObject.t V) :
  Forall P o → P (k, v) → Forall P (JsObject.set k v o).
Proof.
  intros Ho Hkv. induction o as [|[k' v'] o IH]; simpl.
  - now constructor.
  - apply Forall_cons in Ho as [Hhd Htl].
    destruct (String.eqb_spec k k') as [->|]; constructor; auto.
Qed.

Lemma Forall_delete {V} (P : string * V → Prop) k (o : JsObject.t V) :
  Forall P o → Forall P (JsObject.delete k o).
Proof.
  intros Ho. induction o as [|[k' v'] o IH]; simpl; [constructor|].
  apply Forall_cons in Ho as [Hhd Htl].
  destruct (String.eqb k k'); [auto|constructor; auto].
Qed.

Lemma jsonKeys_set m collectionKey entries :
  jsonKeys m → jsonKey collectionKey →
  Forall (λ e : string * EntryMetadata, jsonKey (fst e)) entries →
  jsonKeys (JsObject.set collectionKey entries m).
Proof. intros Hm Hk He. apply Forall_set; [assumption|now split]. Qed.

Lemma jsonKeys_afterAdd collectionKey entryKey metadata m :
  jsonKeys m → jsonKey collectionKey → jsonKey entryKey →
  jsonKeys (afterAdd collectionKey entryKey metadata m).
Proof.
  intros Hm Hck Hek. unfold afterAdd.
  destruct (JsObject.get collectionKey m) as [entries|] eqn:Hc.
  - destruct (JsObject.get entryKey entries); [assumption|].
    apply jsonKeys_set; try assumption.
    apply Forall_app. split; [|now repeat constructor].
    now destruct (jsonKeys_get _ _ _ Hm Hc).
  - apply Forall_app. split; [assumption|].
    repeat constructor; assumption.
Qed.

Lemma jsonKeys_afterUnlink collectionKey entryKey m :
  jsonKeys m → jsonKeys (afterUnlink collectionKey entryKey m).
Proof.
  intros Hm. unfold afterUnlink.
  destruct (JsObject.get collectionKey m) as [entries|] eqn:Hc; [|assumption].
  destruct (JsObject.get entryKey entries); [|assumption].
  destruct (jsonKeys_get _ _ _ Hm Hc) as [Hck He].
  apply jsonKeys_set; try assumption. now apply Forall_delete.
Qed.

Lemma jsonKeys_afterChange collectionKey entryKey changedSlug m :
  jsonKeys m → jsonKey entryKey →
  jsonKeys (afterChange collectionKey entryKey changedSlug m).
Proof.
  intros Hm Hek. unfold afterChange.
  destruct (JsObject.get collectionKey m) as [entries|] eqn:Hc; [|assumption].
  destruct (JsObject.get entryKey entries) as [[storedSlug|]|]; try assumption.
  destruct (String.eqb storedSlug changedSlug); [assumption|].
  destruct (jsonKeys_get _ _ _ Hm Hc) as [Hck He].
  apply jsonKeys_set; try assumption. now apply Forall_set.
Qed.

Lemma trackedKeys_json e collectionKey entryKey :
  trackedKeys e = Some (collectionKey, entryKey) →
  jsonKey collectionKey ∧ jsonKey entryKey.
Proof.
  unfold trackedKeys, jsonKey.
  destruct (getEntryCollectionName _ _); [|discriminate].
  destruct (classify e); intros [= <- <-]; eauto.
Qed.

Lemma computedSlug_tracked ext event c :
  computedSlug ext event = Some c →
  ∃ collectionKey entryKey,
    trackedKeys (entry event) = Some (collectionKey, entryKey).
Proof.
  unfold computedSlug, trackedKeys.
  destruct (getEntryCollectionName _ _); [|discriminate].
  destruct (classify (entry event)); try discriminate. eauto.
Qed.

(** Handling an event either throws, which happens exactly when the slug
    it needs cannot be read and leaves the state as it was, or completes
    without writing a manifest and keeps the keys well formed. *)
Lemma handleEvent_step ext event opts g :
  jsonKeys (collectionTypes g) →
  (slugUnreadable ext event ∧
   ∃ t, handleEvent ext event opts g = (Throw t, g)) ∨
  (slugReadable ext event ∧
   ∃ response g',
     handleEvent ext event opts g = (Normal response, g') ∧
     quietly g g' ∧ jsonKeys (collectionTypes g')).
Proof.
  intros Hjson.
  destruct (isDirEvent (name event)) eqn:Hdir.
  { right. split; [intros Hreads; destruct (name event); discriminate|].
    destruct (handleEvent_dir ext event opts g Hdir)
      as (response & g' & Hrun & Hquiet & Htypes).
    exists response, g'. repeat split; try assumption; try apply Hquiet.
    destruct Htypes as [->| [->| ->]]; [assumption| |].
    - apply jsonKeys_set; [assumption|now eexists|constructor].
    - now apply Forall_delete. }
  destruct (trackedKeys (entry event)) as [[collectionKey entryKey]|] eqn:Hkeys.
  - destruct (trackedKeys_json _ _ _ Hkeys) as [Hck Hek].
    rewrite (handleEvent_entry ext event opts g collectionKey entryKey Hdir Hkeys).
    unfold slugUnreadable, slugReadable.
    destruct (name event) eqn:Hname; try discriminate; simpl.
    + destruct (computedSlug ext event) as [[addedSlug|t]|].
      * right. split; [congruence|]. eexists _, _. split; [reflexivity|].
        split; [quiet|]. now apply jsonKeys_afterAdd.
      * left. eauto.
      * right. split; [congruence|]. eexists _, _. split; [reflexivity|].
        split; [quiet|]. now apply jsonKeys_afterAdd.
    + destruct (computedSlug ext event) as [[changedSlug|t]|].
      * right. split; [congruence|]. eexists _, _. split; [reflexivity|].
        split; [quiet|]. now apply jsonKeys_afterChange.
      * left. eauto.
      * right. split; [congruence|]. eexists _, _. split; [reflexivity|].
        split; [quiet|assumption].
    + right. split; [discriminate|]. eexists _, _. split; [reflexivity|].
      split; [quiet|]. now apply jsonKeys_afterUnlink.
  - right. split.
    + intros _ t Hslug.
      apply computedSlug_tracked in Hslug as (? & ? & ?). congruence.
    + destruct (handleEvent_other ext event opts g Hdir Hkeys)
        as (response & g' & Hrun & Htypes & Hquiet & _).
      exists response, g'. rewrite Htypes. auto.
Qed.

Lemma readable_not_unreadable ext event :
  slugReadable ext event → slugUnreadable ext event → False.
Proof. intros Hr (Hreads & t & Hslug). exact (Hr Hreads t Hslug). Qed.

(** The loop over a queue of events that can all be handled: the events
    are processed first to last and their responses pushed in that
    order. *)
Lemma handleEvents_processed ext queued acc g :
  jsonKeys (collectionTypes g) →
  Forall (λ e, slugReadable ext (type e)) queued →
  ∃ responses g1,
    processed ext g queued responses g1 ∧
    handleEvents ext queued acc g = (Normal (acc ++ responses), g1) ∧
    quietly g g1 ∧ jsonKeys (collectionTypes g1).
Proof.
  revert acc g. induction queued as [|event queued IH]; intros acc g Hjson Hall.
  - exists [], g. rewrite app_nil_r. repeat split; try assumption.
    + constructor.
    + exists []. now rewrite app_nil_r.
  - apply Forall_cons in Hall as [Hhead Htail].
    destruct (handleEvent_step ext (type event) (opts event) g Hjson)
      as [[Hbad _]|(_ & response & g' & Hrun & Hquiet & Hjson')].
    { destruct (readable_not_unreadable _ _ Hhead Hbad). }
    destruct (IH (acc ++ [response]) g' Hjson' Htail)
      as (responses & g1 & Hproc & Hloop & Hquiet1 & Hjson1).
    exists (response :: responses), g1. split; [|split; [|split]].
    + econstructor; eassumption.
    + simpl. unfold mbind, Effect_bind. rewrite Hrun, Hloop.
      now rewrite <- app_assoc.
    + eapply quietly_trans; eassumption.
    + assumption.
Qed.

(** The loop over a queue holding an event that cannot be handled: it
    throws, having written no manifest. *)
Lemma handleEvents_throws ext queued acc g :
  jsonKeys (collectionTypes g) →
  Exists (λ e, slugUnreadable ext (type e)) queued →
  ∃ t g1,
    handleEvents ext queued acc g = (Throw t, g1) ∧ quietly g g1 ∧
    jsonKeys (collectionTypes g1).
Proof.
  revert acc g. induction queued as [|event queued IH]; intros acc g Hjson Hex.
  - inversion Hex.
  - simpl. unfold mbind, Effect_bind.
    destruct (handleEvent_step ext (type event) (opts event) g Hjson)
      as [(_ & t & Hrun)|(Hgood & response & g' & Hrun & Hquiet & Hjson')].
    + rewrite Hrun. exists t, g.
      split; [reflexivity|]. split; [apply quietly_refl|assumption].
    + rewrite Hrun. apply Exists_cons in Hex as [Hbad|Hex].
      { destruct (readable_not_unreadable _ _ Hgood Hbad). }
      destruct (IH (acc ++ [response]) g' Hjson' Hex)
        as (t & g1 & Hloop & Hq & Hjson1).
      exists t, g1. split; [assumption|]. split; [|assumption].
      eapply quietly_trans; eassumption.
Qed.

(** Either every event of a queue can be handled, or one of them cannot. *)
Lemma readable_or_unreadable ext (queued : list EventWithOptions) :
  Forall (λ e, slugReadable ext (type e)) queued ∨
  Exists (λ e, slugUnreadable ext (type e)) queued.
Proof.
  induction queued as [|event queued [IH|IH]].
  - left. constructor.
  - destruct (handleEvent_step ext (type event) None
                {| collectionTypes := []; events := [];
                   observable := st_unloaded; trace := [] |})
      as [[Hbad _]|[Hgood _]]; [constructor| |].
    + right. now left.
    + left. now constructor.
  - right. now right.
Qed.

Lemma addOutputs_nil g : addOutputs g [] = g.
Proof. destruct g. unfold addOutputs. simpl. now rewrite app_nil_r. Qed.

Lemma addOutputs_addOutputs g o1 o2 :
  addOutputs (addOutputs g o1) o2 = addOutputs g (o1 ++ o2).
Proof. unfold addOutputs. simpl. now rewrite app_assoc. Qed.

Lemma logsOnly_ret : logsOnly (mret ()).
Proof. intros g. exists []. now rewrite addOutputs_nil. Qed.

Lemma logsOnly_log level label message :
  logsOnly (emit (Logged level label message)).
Proof. intros g. now exists [Logged level label message]. Qed.

Lemma logsOnly_when c m : logsOnly m → logsOnly (when c m).
Proof. intros Hm. destruct c; [exact Hm|apply logsOnly_ret]. Qed.

Lemma logsOnly_seq (m1 m2 : Effect unit) :
  logsOnly m1 → logsOnly m2 → logsOnly (m1;; m2).
Proof.
  intros H1 H2 g. destruct (H1 g) as (o1 & Hr1 & Hw1).
  destruct (H2 (addOutputs g o1)) as (o2 & Hr2 & Hw2).
  exists (o1 ++ o2). unfold mbind, Effect_bind. rewrite Hr1, Hr2.
  rewrite addOutputs_addOutputs, manifestWrites_app, Hw1, Hw2. auto.
Qed.

Lemma warnNonexistentCollections_logsOnly contentConfig contentTypes :
  logsOnly (warnNonexistentCollections contentConfig contentTypes).
Proof.
  unfold warnNonexistentCollections.
  generalize (JsObject.keys (collections contentConfig)).
  assert (Hinit : logsOnly (mret ())) by apply logsOnly_ret.
  revert Hinit. generalize (mret () : Effect unit).
  intros done Hdone keys. revert done Hdone.
  induction keys as [|k keys IH]; intros done Hdone; simpl; [assumption|].
  apply IH. apply logsOnly_seq; [assumption|].
  apply logsOnly_when, logsOnly_log.
Qed.

Lemma outputsSince_quietly g g' :
  quietly g g' → manifestWrites (outputsSince g g') = [].
Proof.
  intros (_ & outputs & Ht & Hw). unfold outputsSince.
  now rewrite Ht, drop_app_length.
Qed.

Lemma outputsSince_extends g g' o outputs :
  trace g' = trace g ++ o → manifestWrites o = [] →
  manifestWrites (outputsSince g (addOutputs g' outputs)) =
  manifestWrites outputs.
Proof.
  intros Ht Hw. unfold outputsSince. simpl.
  rewrite Ht, <- app_assoc, drop_app_length, manifestWrites_app, Hw.
  reflexivity.
Qed.

(** The two ways a run of the queue ends. *)
Lemma runEvents_cases ext opts g :
  jsonKeys (collectionTypes g) →
  (Forall (λ e, slugReadable ext (type e)) (events g) →
   ∃ responses g1 g2 body,
     processed ext g (events g) responses g1 ∧
     runEvents ext opts g = (Normal (), g2) ∧
     events g2 = [] ∧
     collectionTypes g2 = collectionTypes g1 ∧
     jsonKeys (collectionTypes g1) ∧
     sortedBody (collectionTypes g1) (loadedConfig (observable g1)) =
       Normal body ∧
     manifestWrites (outputsSince g g2) =
       if existsb shouldGenerateTypes responses
       then [manifestText typeTemplateContent contentEntryTypes
               (loadedConfig (observable g1)) body]
       else []) ∧
  (Exists (λ e, slugUnreadable ext (type e)) (events g) →
   ∃ t g2,
     runEvents ext opts g = (Throw t, g2) ∧
     events g2 = events g ∧
     jsonKeys (collectionTypes g2) ∧
     manifestWrites (outputsSince g g2) = []).
Proof.
  intros Hjson. split.
  - intros Hall.
    destruct (handleEvents_processed ext (events g) [] g Hjson Hall)
      as (responses & g1 & Hproc & Hloop & Hquiet & Hjson1).
    simpl in Hloop.
    destruct (sortedBody_total (collectionTypes g1)
                (loadedConfig (observable g1)) Hjson1) as [body Hbody].
    exists responses, g1.
    unfold runEvents.
    unfold mbind at 1, Effect_bind at 1, getEvents at 1.
    unfold mbind at 1, Effect_bind at 1. rewrite Hloop.
    unfold mbind at 1, Effect_bind at 1, putEvents at 1.
    set (g1e := {| collectionTypes := collectionTypes g1; events := [];
                   observable := observable g1; trace := trace g1 |}).
    assert (Hwarn : logsOnly
      (when ((0 <? length (unsupportedFilesOf responses)) &&
             includes_info_warn (optsLogLevel opts))
         (emit (Logged warn "content"
                  ("Unsupported file types found. Prefix with an underscore (`_`) to ignore:"
                   +:+ nl +:+ "- " +:+
                   String.concat nl (unsupportedFilesOf responses)))))).
    { apply logsOnly_when, logsOnly_log. }
    destruct (Hwarn g1e) as (o1 & Hr1 & Hw1).
    unfold mbind at 1, Effect_bind at 1. rewrite Hr1.
    unfold mbind at 1, Effect_bind at 1, observer_get at 1.
    change (observable (addOutputs g1e o1)) with (observable g1).
    destruct Hquiet as (He & o0 & Ht0 & Hw0).
    assert (Hloaded : logsOnly
      (match observable g1 with
       | st_loaded cfg =>
           when (includes_info_warn (optsLogLevel opts))
             (warnNonexistentCollections cfg (collectionTypes g1))
       | _ => mret ()
       end)).
    { destruct (observable g1); try apply logsOnly_ret.
      apply logsOnly_when, warnNonexistentCollections_logsOnly. }
    unfold when at 1.
    destruct (existsb shouldGenerateTypes responses).
    + unfold mbind at 1, Effect_bind at 1, getCollectionTypes at 1.
      unfold mbind at 1, Effect_bind at 1.
      rewrite writeContentFiles_run, contentTypesStrOf_sortedBody.
      change (collectionTypes (addOutputs g1e o1)) with (collectionTypes g1).
      rewrite Hbody.
      match goal with
      | |- context [addOutputs (addOutputs g1e o1) ?o] => set (o2 := o)
      end.
      destruct (Hloaded (addOutputs (addOutputs g1e o1) o2))
        as (o3 & Hr3 & Hw3).
      rewrite Hr3.
      exists (addOutputs (addOutputs (addOutputs g1e o1) o2) o3), body.
      repeat split; try assumption.
      rewrite !addOutputs_addOutputs.
      rewrite (outputsSince_extends g g1e o0) by assumption.
      rewrite !manifestWrites_app, Hw1, Hw3. subst o2.
      rewrite manifestWrites_app.
      now destruct (dirKnown _ _ _).
    + exists (addOutputs g1e o1), body.
      repeat split; try assumption.
      now rewrite (outputsSince_extends g g1e o0) by assumption.
  - intros Hex.
    destruct (handleEvents_throws ext (events g) [] g Hjson Hex)
      as (t & g1 & Hloop & Hquiet & Hjson1).
    exists t, g1. unfold runEvents.
    unfold mbind at 1, Effect_bind at 1, getEvents at 1.
    unfold mbind at 1, Effect_bind at 1. rewrite Hloop.
    split; [reflexivity|]. split; [apply Hquiet|]. split; [assumption|].
    now apply outputsSince_quietly.
Qed.

(** The keys of the Collection Map stay JSON string literals through a
    run, however it ends. *)
Lemma runEvents_jsonKeys ext opts g :
  jsonKeys (collectionTypes g) →
  jsonKeys (collectionTypes (runEvents ext opts g).2).
Proof.
  intros Hjson.
  destruct (runEvents_cases ext opts g Hjson) as [Hcompletes Hthrows].
  destruct (readable_or_unreadable ext (events g)) as [Hall|Hex].
  - destruct (Hcompletes Hall)
      as (responses & g1 & g2 & body & _ & -> & _ & Htypes & Hjson1 & _).
    simpl. now rewrite Htypes.
  - destruct (Hthrows Hex) as (t & g2 & -> & _ & Hjson2 & _).
    exact Hjson2.
Qed.


End RunnerFacts.

(** ** Replacement of the first occurrence *)

Lemma substring_full s : String.substring 0 (String.length s) s = s.
Proof. induction s as [|c s IH]; simpl; [reflexivity|now rewrite IH]. Qed.

Lemma prefix_split pat s :
  String.prefix pat s = true →
  s = pat +:+ String.substring (String.length pat)
                (String.length s - String.length pat) s.
Proof.
  revert s. induction pat as [|a pat IH]; intros s Hp.
  - simpl. rewrite Nat.sub_0_r, substring_full. reflexivity.
  - destruct s as [|b s]; simpl in Hp; [discriminate|].
    destruct (ascii_dec a b) as [->|]; [|discriminate].
    unfold String.app. simpl. f_equal. now apply IH.
Qed.

(** [find_first] splits the string around an occurrence of the pattern. *)
Lemma find_first_split pat s pre post :
  find_first pat s = Some (pre, post) → s = pre +:+ pat +:+ post.
Proof.
  revert pre post. induction s as [|c s IH]; intros pre post.
  - cbn [find_first]. destruct (String.prefix pat "") eqn:Hp; [|discriminate].
    intros [= <- <-]. now apply prefix_split in Hp.
  - cbn [find_first].
    destruct (String.prefix pat (String c s)) eqn:Hp.
    + intros [= <- <-]. now apply prefix_split in Hp.
    + destruct (find_first pat s) as [[pre' post']|]; [|discriminate].
      intros [= <- <-]. unfold String.app. simpl. f_equal.
      now apply IH.
Qed.

Lemma expand_replacement_plain repl pre matched post :
  occurs "$" repl = false → expand_replacement repl pre matched post = repl.
Proof.
  induction repl as [|a repl IH]; [reflexivity|].
  simpl. destruct (Ascii.eqb a "$"); [discriminate|].
  simpl. intros Hno. now rewrite IH.
Qed.

(** A replacement text without dollar sign takes the place of the first
    occurrence of the pattern; what follows that occurrence stays. *)
Lemma replace_first_occurrence s pat repl pre post :
  find_first pat s = Some (pre, post) → occurs "$" repl = false →
  s = pre +:+ pat +:+ post ∧ replace s pat repl = pre +:+ repl +:+ post.
Proof.
  intros Hfind Hplain. split; [now apply find_first_split|].
  unfold replace. rewrite Hfind. now rewrite expand_replacement_plain.
Qed.

Lemma replace_absent s pat repl :
  find_first pat s = None → replace s pat repl = s.
Proof. intros Hfind. unfold replace. now rewrite Hfind. Qed.

(** ** Asset propagation *)

Lemma elem_of_set_add x y s : y ∈ set_add x s ↔ y = x ∨ y ∈ s.
Proof.
  unfold set_add. case_bool_decide as Hin.
  - split; [auto|]. intros [->|?]; assumption.
  - rewrite elem_of_app, list_elem_of_singleton. tauto.
Qed.

Lemma NoDup_set_add x s : NoDup s → NoDup (set_add x s).
Proof.
  intros Hs. unfold set_add. case_bool_decide as Hin; [assumption|].
  apply NoDup_app. repeat split; [assumption| |apply NoDup_singleton].
  intros y Hy Hy'. apply list_elem_of_singleton in Hy' as ->. contradiction.
Qed.

Lemma elem_of_set_add_all values y s :
  y ∈ set_add_all values s ↔ y ∈ values ∨ y ∈ s.
Proof.
  unfold set_add_all. revert s.
  induction values as [|v values IH]; intros s; simpl.
  - rewrite elem_of_nil. tauto.
  - rewrite IH, elem_of_set_add, elem_of_cons. tauto.
Qed.

Lemma NoDup_set_add_all values s : NoDup s → NoDup (set_add_all values s).
Proof.
  unfold set_add_all. revert s.
  induction values as [|v values IH]; intros s Hs; simpl; [assumption|].
  apply IH. now apply NoDup_set_add.
Qed.

Section PropagationFacts.

Context {B : BuildImports}.

Lemma NoDup_addPropagated m id acc :
  NoDup acc → NoDup (addPropagated m id acc).
Proof.
  intros Hacc. unfold addPropagated.
  destruct (m ≫= JsObject.get id); [now apply NoDup_set_add_all|assumption].
Qed.

Lemma elem_of_addPropagated m id acc x :
  x ∈ addPropagated m id acc ↔
  (∃ values, m ≫= JsObject.get id = Some values ∧ x ∈ values) ∨ x ∈ acc.
Proof.
  unfold addPropagated.
  destruct (m ≫= JsObject.get id) as [values|].
  - rewrite elem_of_set_add_all. split.
    + intros [?|?]; [left; eauto|now right].
    + intros [(values' & [= <-] & ?)|?]; [now left|now right].
  - split; [now right|]. intros [(? & ? & ?)|?]; [discriminate|assumption].
Qed.

Lemma visitParent_spec id acc pageInfo :
  NoDup acc.1 → NoDup acc.2 →
  NoDup (visitParent id acc pageInfo).1 ∧
  NoDup (visitParent id acc pageInfo).2 ∧
  (∀ x, x ∈ (visitParent id acc pageInfo).1 ↔
        contributes propagatedStyles id pageInfo x ∨ x ∈ acc.1) ∧
  (∀ x, x ∈ (visitParent id acc pageInfo).2 ↔
        contributes propagatedScripts id pageInfo x ∨ x ∈ acc.2).
Proof.
  intros H1 H2. unfold visitParent, contributes.
  destruct (moduleIsTopLevelPage pageInfo).
  - destruct (getPageDataByViteID (info_id pageInfo)) as [pageData|]; simpl.
    + split; [now apply NoDup_addPropagated|].
      split; [now apply NoDup_addPropagated|].
      split; intros x; rewrite elem_of_addPropagated; split.
      * intros [(values & ? & ?)|?]; [left; eauto 10|now right].
      * intros [(pd & values & _ & [= <-] & ? & ?)|?]; [left; eauto|now right].
      * intros [(values & ? & ?)|?]; [left; eauto 10|now right].
      * intros [(pd & values & _ & [= <-] & ? & ?)|?]; [left; eauto|now right].
    + repeat split; try assumption; try tauto;
        intros [(? & ? & _ & ? & _)|?]; try discriminate; assumption.
  - repeat split; try assumption; try tauto;
      intros [(? & ? & ? & _)|?]; try discriminate; assumption.
Qed.

Lemma visitParents_spec id parents acc :
  NoDup acc.1 → NoDup acc.2 →
  let acc' := fold_left (visitParent id) parents acc in
  NoDup acc'.1 ∧ NoDup acc'.2 ∧
  (∀ x, x ∈ acc'.1 ↔
        (∃ pageInfo, pageInfo ∈ parents ∧
                     contributes propagatedStyles id pageInfo x) ∨ x ∈ acc.1) ∧
  (∀ x, x ∈ acc'.2 ↔
        (∃ pageInfo, pageInfo ∈ parents ∧
                     contributes propagatedScripts id pageInfo x) ∨ x ∈ acc.2).
Proof.
  revert acc. induction parents as [|pageInfo parents IH]; intros acc H1 H2.
  - simpl. repeat split; try assumption; try (now right);
      intros [(? & Hin & _)|?]; try assumption; inversion Hin.
  - simpl.
    destruct (visitParent_spec id acc pageInfo H1 H2) as (N1 & N2 & M1 & M2).
    destruct (IH _ N1 N2) as (N1' & N2' & M1' & M2').
    split; [assumption|]. split; [assumption|].
    split; intros x; [rewrite M1', M1|rewrite M2', M2];
      setoid_rewrite elem_of_cons; split.
    + intros [(p & Hp & Hc)|[Hc|Hx]];
        [left; exists p; auto|left; exists pageInfo; auto|now right].
    + intros [(p & [->|Hp] & Hc)|Hx];
        [right; now left|left; exists p; auto|right; now right].
    + intros [(p & Hp & Hc)|[Hc|Hx]];
        [left; exists p; auto|left; exists pageInfo; auto|now right].
    + intros [(p & [->|Hp] & Hc)|Hx];
        [right; now left|left; exists p; auto|right; now right].
Qed.

Lemma collectLoop_spec ids acc :
  NoDup acc.1 → NoDup acc.2 →
  let acc' :=
    fold_left
      (λ acc id, fold_left (visitParent id) (walkParentInfos id) acc)
      ids acc in
  NoDup acc'.1 ∧ NoDup acc'.2 ∧
  (∀ x, x ∈ acc'.1 ↔
        (∃ id pageInfo, id ∈ ids ∧ pageInfo ∈ walkParentInfos id ∧
                        contributes propagatedStyles id pageInfo x) ∨
        x ∈ acc.1) ∧
  (∀ x, x ∈ acc'.2 ↔
        (∃ id pageInfo, id ∈ ids ∧ pageInfo ∈ walkParentInfos id ∧
                        contributes propagatedScripts id pageInfo x) ∨
        x ∈ acc.2).
Proof.
  revert acc. induction ids as [|id ids IH]; intros acc H1 H2.
  - simpl. repeat split; try assumption; try (now right);
      intros [(? & ? & Hin & _)|?]; try assumption; inversion Hin.
  - simpl.
    destruct (visitParents_spec id (walkParentInfos id) acc H1 H2)
      as (N1 & N2 & M1 & M2).
    destruct (IH _ N1 N2) as (N1' & N2' & M1' & M2').
    split; [assumption|]. split; [assumption|].
    split; intros x; [rewrite M1', M1|rewrite M2', M2];
      setoid_rewrite elem_of_cons; split.
    + intros [(i & p & Hi & Hp & Hc)|[(p & Hp & Hc)|Hx]];
        [left; exists i, p; auto|left; exists id, p; auto|now right].
    + intros [(i & p & [->|Hi] & Hp & Hc)|Hx];
        [right; left; eauto|left; exists i, p; auto|right; now right].
    + intros [(i & p & Hi & Hp & Hc)|[(p & Hp & Hc)|Hx]];
        [left; exists i, p; auto|left; exists id, p; auto|now right].
    + intros [(i & p & [->|Hi] & Hp & Hc)|Hx];
        [right; left; eauto|left; exists i, p; auto|right; now right].
Qed.

(** The accumulators of a chunk hold no reference twice, and hold exactly
    the references propagated to the chunk. *)
Lemma collectAssets_spec modules :
  NoDup (collectAssets modules).1 ∧ NoDup (collectAssets modules).2 ∧
  (∀ x, x ∈ (collectAssets modules).1 ↔
        propagatedTo propagatedStyles modules x) ∧
  (∀ x, x ∈ (collectAssets modules).2 ↔
        propagatedTo propagatedScripts modules x).
Proof.
  destruct (collectLoop_spec (JsObject.keys modules) ([], []))
    as (N1 & N2 & M1 & M2); try apply NoDup_nil_2.
  split; [exact N1|]. split; [exact N2|].
  unfold propagatedTo.
  split; intros x; [rewrite (M1 x)|rewrite (M2 x)]; simpl;
    rewrite elem_of_nil; tauto.
Qed.

Lemma NoDup_clientFileNames clientOutputs entryScripts :
  NoDup (clientFileNames clientOutputs entryScripts).
Proof.
  unfold clientFileNames.
  assert (Hinit : NoDup ([] : JsSet)) by apply NoDup_nil_2.
  revert Hinit. generalize ([] : JsSet).
  induction clientOutputs as [|output outputs IH]; intros names Hnames;
    simpl; [assumption|].
  apply IH. clear IH. revert names Hnames.
  induction output as [|clientChunk output IH]; intros names Hnames;
    simpl; [assumption|].
  apply IH. clear IH.
  destruct clientChunk as [fileName code modules|]; [|assumption].
  revert names Hnames.
  induction (JsObject.keys modules) as [|id ids IH]; intros names Hnames;
    simpl; [assumption|].
  apply IH. destruct (set_has id entryScripts); [|assumption].
  now apply NoDup_set_add.
Qed.

End PropagationFacts.

(** ** Well-formedness of the tracked map *)

Section WellFormed.

Context {I : Imports}.

Lemma wfMap_get m collectionKey entries :
  wfMap m → JsObject.get collectionKey m = Some entries → JsObject.wf entries.
Proof.
  intros [_ Hall] Hget. apply get_elem_of in Hget.
  rewrite Forall_forall in Hall. exact (Hall _ Hget).
Qed.

Lemma wfMap_set m collectionKey entries :
  wfMap m → JsObject.wf entries →
  wfMap (JsObject.set collectionKey entries m).
Proof.
  intros [Hwf Hall] He. split; [now apply wf_set|now apply Forall_set].
Qed.

Lemma wfMap_delete m collectionKey :
  wfMap m → wfMap (JsObject.delete collectionKey m).
Proof.
  intros [Hwf Hall]. split; [now apply wf_delete|now apply Forall_delete].
Qed.

Lemma wfMap_afterAdd collectionKey entryKey metadata m :
  wfMap m → wfMap (afterAdd collectionKey entryKey metadata m).
Proof.
  intros Hm. unfold afterAdd.
  destruct (JsObject.get collectionKey m) as [entries|] eqn:Hc.
  - destruct (JsObject.get entryKey entries) eqn:He; [assumption|].
    apply wfMap_set; [assumption|].
    rewrite <- (set_absent _ _ _ He). apply wf_set.
    now apply wfMap_get with m collectionKey.
  - rewrite <- (set_absent _ _ _ Hc). apply wfMap_set; [assumption|].
    apply NoDup_singleton.
Qed.

Lemma wfMap_afterUnlink collectionKey entryKey m :
  wfMap m → wfMap (afterUnlink collectionKey entryKey m).
Proof.
  intros Hm. unfold afterUnlink.
  destruct (JsObject.get collectionKey m) as [entries|] eqn:Hc; [|assumption].
  destruct (JsObject.get entryKey entries); [|assumption].
  apply wfMap_set; [assumption|]. apply wf_delete.
  now apply wfMap_get with m collectionKey.
Qed.

Lemma wfMap_afterChange collectionKey entryKey changedSlug m :
  wfMap m → wfMap (afterChange collectionKey entryKey changedSlug m).
Proof.
  intros Hm. unfold afterChange.
  destruct (JsObject.get collectionKey m) as [entries|] eqn:Hc; [|assumption].
  destruct (JsObject.get entryKey entries) as [[storedSlug|]|]; try assumption.
  destruct (String.eqb storedSlug changedSlug); [assumption|].
  apply wfMap_set; [assumption|]. apply wf_set.
  now apply wfMap_get with m collectionKey.
Qed.

(** Handling an event keeps the Collection Map well formed, however the
    handling ends. *)
Lemma handleEvent_wfMap ext event opts g :
  wfMap (collectionTypes g) →
  wfMap (collectionTypes (handleEvent ext event opts g).2).
Proof.
  intros Hm.
  destruct (isDirEvent (name event)) eqn:Hdir.
  { destruct (handleEvent_dir ext event opts g Hdir)
      as (response & g' & -> & _ & [Ht| [Ht| Ht]]); simpl; rewrite Ht.
    - assumption.
    - apply wfMap_set; [assumption|apply NoDup_nil_2].
    - now apply wfMap_delete. }
  destruct (trackedKeys (entry event)) as [[collectionKey entryKey]|] eqn:Hkeys.
  - rewrite (handleEvent_entry ext event opts g collectionKey entryKey Hdir Hkeys).
    destruct (name event); try discriminate;
      try destruct (computedSlug ext event) as [[slug|t]|]; simpl;
      auto using wfMap_afterAdd, wfMap_afterUnlink, wfMap_afterChange.
  - destruct (handleEvent_other ext event opts g Hdir Hkeys)
      as (response & g' & -> & Ht & _). simpl. now rewrite Ht.
Qed.

(** A well-formed map has the same collections as itself. *)
Lemma sameCollections_refl m : wfMap m → sameCollections m m.
Proof.
  intros Hm. destruct Hm as [Hwf Hall] eqn:Heq. clear Heq.
  split; [assumption|]. split; [assumption|]. split; [reflexivity|].
  intros k. destruct (JsObject.get k m) as [entries|] eqn:Hget; [|exact Logic.I].
  assert (JsObject.wf entries) by now apply wfMap_get with m k.
  now repeat split.
Qed.

End WellFormed.

(** ** More on the event handler *)

Section HandlerExtras.

Context {I : Imports}.

Lemma afterUnlink_untracked collectionKey entryKey m :
  lookupEntry m collectionKey entryKey = None →
  afterUnlink collectionKey entryKey m = m.
Proof.
  unfold lookupEntry, afterUnlink.
  destruct (JsObject.get collectionKey m) as [entries|]; [|reflexivity].
  now intros ->.
Qed.

(** X1. [handleEvent] throws in one case only: the event is the [add] or
    [change] of a content entry and computing its slug throws; it then
    throws that very exception and leaves the whole state as it was.  The
    accesses to the map ([in], assignment, [delete]) never throw. *)
Theorem handleEvent_throws_iff_slug_unreadable ext event opts g t g' :
  handleEvent ext event opts g = (Throw t, g') ↔
  g' = g ∧ readsSlug (name event) = true ∧
  computedSlug ext event = Some (Throw t).
Proof.
  destruct (isDirEvent (name event)) eqn:Hdir.
  { destruct (handleEvent_dir ext event opts g Hdir)
      as (response & g1 & -> & _). split; [discriminate|].
    intros (_ & Hreads & _). destruct (name event); discriminate. }
  destruct (trackedKeys (entry event)) as [[collectionKey entryKey]|] eqn:Hkeys.
  - rewrite (handleEvent_entry ext event opts g collectionKey entryKey Hdir Hkeys).
    destruct (name event); try discriminate; simpl;
      try destruct (computedSlug ext event) as [[slug|t']|];
      split; try discriminate; try (intros (_ & ? & ?); discriminate);
      try (intros [= <- <-]; auto);
      intros (-> & _ & [= ->]); reflexivity.
  - destruct (handleEvent_other ext event opts g Hdir Hkeys)
      as (response & g1 & -> & _). split; [discriminate|].
    intros (_ & _ & Hslug).
    apply computedSlug_tracked in Hslug as (? & ? & ?). congruence.
Qed.

Lemma handleEvent_observable ext event opts g :
  isDirEvent (name event) = true ∨ classify (entry event) ≠ config →
  observable (handleEvent ext event opts g).2 = observable g.
Proof.
  intros Hnot.
  destruct (isDirEvent (name event)) eqn:Hdir.
  { unfold handleEvent. rewrite Hdir.
    destruct (negb _); [reflexivity|].
    destruct (name event); try discriminate.
    - unfold mbind, Effect_bind, doAddCollection, mbind, Effect_bind,
        getCollectionTypes, putCollectionTypes, when.
      now destruct (isInfo (optsLogLevel opts)).
    - reflexivity. }
  destruct Hnot as [?|Hnot]; [discriminate|].
  destruct (trackedKeys (entry event)) as [[collectionKey entryKey]|] eqn:Hkeys.
  - rewrite (handleEvent_entry ext event opts g collectionKey entryKey Hdir Hkeys).
    destruct (name event); try discriminate;
      try destruct (computedSlug ext event) as [[slug|t']|]; reflexivity.
  - unfold handleEvent, trackedKeys, classify in *. rewrite Hdir.
    destruct (getEntryType (fileURLToPath (entry event)) contentPaths
                contentEntryExts dataEntryExts); try contradiction.
    + destruct (getEntryCollectionName _ _); [discriminate|].
      now destruct (optsLogLevel opts).
    + destruct (getEntryCollectionName _ _); [discriminate|].
      now destruct (optsLogLevel opts).
    + reflexivity.
    + now destruct (name event).
Qed.

Lemma handleEvent_quietly ext event opts g :
  quietly g (handleEvent ext event opts g).2.
Proof.
  destruct (isDirEvent (name event)) eqn:Hdir.
  { destruct (handleEvent_dir ext event opts g Hdir)
      as (response & g1 & -> & Hq & _). exact Hq. }
  destruct (trackedKeys (entry event)) as [[collectionKey entryKey]|] eqn:Hkeys.
  - rewrite (handleEvent_entry ext event opts g collectionKey entryKey Hdir Hkeys).
    destruct (name event); try discriminate;
      try destruct (computedSlug ext event) as [[slug|t']|]; simpl; quiet.
  - destruct (handleEvent_other ext event opts g Hdir Hkeys)
      as (response & g1 & -> & _ & Hq & _). exact Hq.
Qed.

Lemma handleEvent_observable_cases ext event opts g :
  observable (handleEvent ext event opts g).2 = observable g ∨
  isDirEvent (name event) = false ∧ classify (entry event) = config ∧
  observable (handleEvent ext event opts g).2 = configOutcome ext.
Proof.
  destruct (isDirEvent (name event)) eqn:Hdir;
    [left; apply handleEvent_observable; now left|].
  destruct (classify (entry event)) eqn:Hclass;
    try (left; apply handleEvent_observable; right; congruence).
  right. split; [reflexivity|]. split; [reflexivity|].
  unfold handleEvent, classify, configOutcome in *. rewrite Hdir, Hclass.
  unfold try_catch, mbind, Effect_bind, observer_set, emit, await. simpl.
  now destruct (loadContentConfig ext) as [[cfg|]|[e|v]].
Qed.

(** X2. Handling an event never touches the queue and never writes the
    manifest: it only adds log lines and observer updates to the trace.
    The observable changes for config-file events only, and then ends in
    the state the loader's outcome determines. *)
Theorem handleEvent_frame ext event opts g :
  let g' := (handleEvent ext event opts g).2 in
  events g' = events g ∧
  (∃ outputs,
     trace g' = trace g ++ outputs ∧ manifestWrites outputs = [] ∧
     Forall (λ o, match o with Mkdir _ | WriteFile _ _ => False | _ => True end)
       outputs) ∧
  (observable g' = observable g ∨
   isDirEvent (name event) = false ∧ classify (entry event) = config ∧
   observable g' = configOutcome ext).
Proof.
  cbv zeta. split; [apply handleEvent_quietly|]. split.
  - destruct (isDirEvent (name event)) eqn:Hdir.
    { unfold handleEvent. rewrite Hdir.
      destruct (negb _);
        [exists []; rewrite app_nil_r; repeat split; constructor|].
      destruct (name event); try discriminate.
      - unfold mbind, Effect_bind, doAddCollection, mbind, Effect_bind,
          getCollectionTypes, putCollectionTypes, when.
        destruct (isInfo (optsLogLevel opts)); simpl.
        + eexists. split; [reflexivity|]. split; [reflexivity|].
          repeat constructor.
        + exists []. rewrite app_nil_r. repeat split; constructor.
      - exists []. simpl. rewrite app_nil_r. repeat split; constructor. }
    destruct (trackedKeys (entry event)) as [[collectionKey entryKey]|] eqn:Hkeys.
    + exists [].
      rewrite (handleEvent_entry ext event opts g collectionKey entryKey Hdir Hkeys).
      rewrite app_nil_r.
      destruct (name event); try discriminate;
        try destruct (computedSlug ext event) as [[slug|t']|];
        repeat split; constructor.
    + unfold handleEvent, trackedKeys, classify in *. rewrite Hdir.
      destruct (getEntryType (fileURLToPath (entry event)) contentPaths
                  contentEntryExts dataEntryExts).
      * destruct (getEntryCollectionName _ _); [discriminate|].
        destruct (optsLogLevel opts); simpl; eexists;
          (split; [reflexivity|]); (split; [reflexivity|]);
          repeat constructor.
      * destruct (getEntryCollectionName _ _); [discriminate|].
        destruct (optsLogLevel opts); simpl; eexists;
          (split; [reflexivity|]); (split; [reflexivity|]);
          repeat constructor.
      * unfold try_catch, mbind, Effect_bind, observer_set, emit, await.
        simpl.
        destruct (loadContentConfig ext) as [[cfg|]|[e|v]]; simpl;
          eexists; rewrite <- ?app_assoc;
          (split; [reflexivity|]); (split; [reflexivity|]);
          repeat constructor.
      * exists []. simpl. rewrite app_nil_r. repeat split; constructor.
      * exists []. destruct (name event); simpl; rewrite app_nil_r;
          repeat split; constructor.
  - apply handleEvent_observable_cases.
Qed.

(** X3. The [unlink] of an entry that is not tracked changes nothing in
    the state, and yet asks for a regeneration. *)
Theorem unlink_of_untracked_entry ext event opts g collectionKey entryKey :
  name event = unlink →
  trackedKeys (entry event) = Some (collectionKey, entryKey) →
  lookupEntry (collectionTypes g) collectionKey entryKey = None →
  handleEvent ext event opts g = (Normal regenerate, g).
Proof.
  intros Hname Hkeys Huntracked.
  rewrite (handleEvent_entry ext event opts g collectionKey entryKey);
    [|now rewrite Hname|assumption].
  rewrite Hname, (afterUnlink_untracked _ _ _ Huntracked).
  now rewrite withCollectionTypes_same.
Qed.

(** X4. The [change] of a content file that is not tracked as a content
    entry (it is unknown to the map, or stored as a data entry) is not
    picked up: whatever slug the file now gives, the state is unchanged
    and no regeneration is asked for. *)
Theorem change_of_untracked_entry
    ext event opts g collectionKey entryKey changedSlug :
  name event = change →
  trackedKeys (entry event) = Some (collectionKey, entryKey) →
  (∀ storedSlug,
     lookupEntry (collectionTypes g) collectionKey entryKey ≠
       Some (ContentEntryMetadata storedSlug)) →
  computedSlug ext event = Some (Normal changedSlug) →
  handleEvent ext event opts g = (Normal noRegenerate, g).
Proof.
  intros Hname Hkeys Huntracked Hslug.
  rewrite (handleEvent_entry ext event opts g collectionKey entryKey);
    [|now rewrite Hname|assumption].
  rewrite Hname, Hslug. unfold changeRegenerates, afterChange, lookupEntry in *.
  destruct (JsObject.get collectionKey (collectionTypes g)) as [entries|];
    [|now rewrite withCollectionTypes_same].
  destruct (JsObject.get entryKey entries) as [[storedSlug|]|];
    try now rewrite withCollectionTypes_same.
  now destruct (Huntracked storedSlug).
Qed.

End HandlerExtras.

(** ** Repeated events and directory round trips *)

Section Repetition.

Context {I : Imports}.

Lemma afterAdd_idempotent collectionKey entryKey metadata metadata' m :
  afterAdd collectionKey entryKey metadata'
    (afterAdd collectionKey entryKey metadata m) =
  afterAdd collectionKey entryKey metadata m.
Proof.
  unfold afterAdd at 2 3.
  destruct (JsObject.get collectionKey m) as [entries|] eqn:Hc.
  - destruct (JsObject.get entryKey entries) as [stored|] eqn:He.
    + unfold afterAdd. now rewrite Hc, He.
    + unfold afterAdd. rewrite get_set_eq, (get_appended _ _ _ He).
      reflexivity.
  - unfold afterAdd. rewrite (get_appended _ _ _ Hc). simpl.
    now rewrite String.eqb_refl.
Qed.

Lemma afterUnlink_idempotent collectionKey entryKey m :
  afterUnlink collectionKey entryKey (afterUnlink collectionKey entryKey m) =
  afterUnlink collectionKey entryKey m.
Proof.
  unfold afterUnlink at 2 3.
  destruct (JsObject.get collectionKey m) as [entries|] eqn:Hc.
  - destruct (JsObject.get entryKey entries) as [stored|] eqn:He.
    + unfold afterUnlink. now rewrite get_set_eq, get_delete_eq.
    + unfold afterUnlink. now rewrite Hc, He.
  - unfold afterUnlink. now rewrite Hc.
Qed.

Lemma afterChange_idempotent collectionKey entryKey changedSlug m :
  afterChange collectionKey entryKey changedSlug
    (afterChange collectionKey entryKey changedSlug m) =
  afterChange collectionKey entryKey changedSlug m ∧
  changeRegenerates collectionKey entryKey changedSlug
    (afterChange collectionKey entryKey changedSlug m) = false.
Proof.
  unfold changeRegenerates, lookupEntry. unfold afterChange at 2 3 4.
  destruct (JsObject.get collectionKey m) as [entries|] eqn:Hc.
  - destruct (JsObject.get entryKey entries) as [[storedSlug|]|] eqn:He.
    + destruct (String.eqb storedSlug changedSlug) eqn:Heq.
      * unfold afterChange. now rewrite Hc, He, Heq.
      * unfold afterChange. rewrite !get_set_eq, String.eqb_refl. auto.
    + unfold afterChange. now rewrite Hc, He.
    + unfold afterChange. now rewrite Hc, He.
  - unfold afterChange. now rewrite Hc.
Qed.

(** X5. Handling an event a second time, in the same surroundings, leaves
    the Collection Map that handling it once left: a watcher that reports
    an event twice does no harm.  The repeated [change] of an entry of a
    collection, once handled, asks for no regeneration. *)
Theorem repeated_event ext n e opts1 opts2 g :
  let event := {| name := n; entry := e |} in
  let once := handleEvent ext event opts1 g in
  let twice := handleEvent ext event opts2 once.2 in
  collectionTypes twice.2 = collectionTypes once.2 ∧
  ∀ response collectionKey entryKey,
    n = change → once.1 = Normal response →
    trackedKeys e = Some (collectionKey, entryKey) →
    twice = (Normal noRegenerate, once.2).
Proof.
  cbv zeta. set (event := {| name := n; entry := e |}).
  destruct (isDirEvent n) eqn:Hdir.
  { split; [|intros ? ? ? ->; discriminate].
    unfold handleEvent. change (name event) with n. rewrite Hdir.
    destruct (negb _); [reflexivity|].
    destruct n; try discriminate.
    - unfold mbind, Effect_bind, doAddCollection, mbind, Effect_bind,
        getCollectionTypes, putCollectionTypes, when, addCollection.
      destruct (isInfo (optsLogLevel opts1)), (isInfo (optsLogLevel opts2));
        simpl; apply set_set.
    - unfold mbind, Effect_bind, doRemoveCollection, mbind, Effect_bind,
        getCollectionTypes, putCollectionTypes, removeCollection. simpl.
      apply delete_absent, get_delete_eq. }
  destruct (trackedKeys e) as [[collectionKey entryKey]|] eqn:Hkeys.
  - rewrite (handleEvent_entry ext event opts1 g collectionKey entryKey Hdir Hkeys).
    change (name event) with n.
    destruct n; try discriminate.
    + split; [|discriminate].
      destruct (computedSlug ext event) as [[slug|t]|] eqn:Hslug; simpl;
        rewrite (handleEvent_entry ext event opts2 _ collectionKey entryKey
                   Hdir Hkeys); simpl; rewrite Hslug; simpl;
        try apply afterAdd_idempotent; reflexivity.
    + destruct (computedSlug ext event) as [[slug|t]|] eqn:Hslug; simpl;
        rewrite (handleEvent_entry ext event opts2 _ collectionKey entryKey
                   Hdir Hkeys); simpl; rewrite Hslug; simpl.
      * destruct (afterChange_idempotent collectionKey entryKey slug
                    (collectionTypes g)) as [Hmap Hresp].
        split; [exact Hmap|]. intros _ _ _ _ _ _.
        now rewrite Hresp, Hmap.
      * split; [reflexivity|]. intros; discriminate.
      * split; [reflexivity|]. intros _ ck ek _ _ _. reflexivity.
    + split; [|discriminate]. simpl.
      rewrite (handleEvent_entry ext event opts2 _ collectionKey entryKey
                 Hdir Hkeys); simpl.
      apply afterUnlink_idempotent.
  - split; [|intros ? ? ? _ _ ?; discriminate].
    destruct (handleEvent_other ext event opts1 g Hdir Hkeys)
      as (r1 & g1 & -> & Ht1 & _). cbn [snd].
    destruct (handleEvent_other ext event opts2 g1 Hdir Hkeys)
      as (r2 & g2 & -> & Ht2 & _). exact Ht2.
Qed.

Lemma delete_set {V} k (v : V) (o : JsObject.t V) :
  JsObject.delete k (JsObject.set k v o) = JsObject.delete k o.
Proof.
  induction o as [|[k' v'] o IH]; simpl.
  - now rewrite String.eqb_refl.
  - destruct (String.eqb_spec k k') as [->|Hne]; simpl.
    + now rewrite String.eqb_refl.
    + destruct (String.eqb_spec k k'); [contradiction|]. now rewrite IH.
Qed.

(** X6. The [addDir] of a first-level directory followed by its
    [unlinkDir] leaves the Collection Map without that collection, the
    others being as they were; when the collection was not tracked before,
    the map is back to what it was.  Both events ask for a regeneration. *)
Theorem addDir_then_unlinkDir ext1 ext2 opts1 opts2 dir g :
  depth (relativeToContentDir dir) = 1 →
  let collectionKey := JSON_stringify (relativeToContentDir dir) in
  ∃ g1 g2,
    handleEvent ext1 {| name := addDir; entry := dir |} opts1 g =
      (Normal regenerate, g1) ∧
    handleEvent ext2 {| name := unlinkDir; entry := dir |} opts2 g1 =
      (Normal regenerate, g2) ∧
    collectionTypes g2 = JsObject.delete collectionKey (collectionTypes g) ∧
    (JsObject.get collectionKey (collectionTypes g) = None →
     collectionTypes g2 = collectionTypes g).
Proof.
  intros Hdepth collectionKey. unfold handleEvent. simpl.
  fold (depth (relativeToContentDir dir)). rewrite Hdepth. simpl.
  unfold mbind, Effect_bind, doAddCollection, doRemoveCollection, mbind,
    Effect_bind, getCollectionTypes, putCollectionTypes, when,
    addCollection, removeCollection.
  assert (Hdel := delete_set collectionKey (JsObject.empty : JsObject.t EntryMetadata)
                    (collectionTypes g)).
  destruct (isInfo (optsLogLevel opts1)); simpl; eexists _, _;
    (split; [reflexivity|]); (split; [reflexivity|]); simpl;
    (split; [exact Hdel|]); intros Habsent;
    fold collectionKey; rewrite Hdel; now apply delete_absent.
Qed.

End Repetition.

(** ** The maps the tracker builds *)

Section TrackedMaps.

Context {I : Imports}.

Lemma handleEvent_jsonKeys ext event opts g :
  jsonKeys (collectionTypes g) →
  jsonKeys (collectionTypes (handleEvent ext event opts g).2).
Proof.
  intros Hjson.
  destruct (handleEvent_step ext event opts g Hjson)
    as [(_ & t & ->)|(_ & response & g' & -> & _ & Hjson')]; assumption.
Qed.

Lemma tracked_invariant m : tracked m → jsonKeys m ∧ wfMap m.
Proof.
  induction 1 as [|ext event opts g _ [IHjson IHwf]].
  - split; [constructor|]. split; [apply NoDup_nil_2|constructor].
  - split; [now apply handleEvent_jsonKeys|now apply handleEvent_wfMap].
Qed.

(** X7. Whatever events the generator has handled since it started with
    the empty map, in whatever surroundings and whether or not their
    handling threw, its Collection Map holds one property per key, all its
    keys are JSON string literals, and the manifest writer does not throw
    on it: it writes the manifest exactly once. *)
Theorem tracked_map_writes ext m template entryTypes contentConfig g :
  tracked m →
  wfMap m ∧ jsonKeys m ∧ sameCollections m m ∧
  ∃ body,
    contentTypesStrOf m contentConfig = Normal body ∧
    writeContentFiles ext m template entryTypes contentConfig g =
      (Normal (),
       addOutputs g
         (writerOutputs ext (trace g)
            (manifestText template entryTypes contentConfig body))).
Proof.
  intros Htracked. destruct (tracked_invariant m Htracked) as [Hjson Hwf].
  split; [assumption|]. split; [assumption|].
  split; [now apply sameCollections_refl|].
  destruct (sortedBody_total m contentConfig Hjson) as [body Hbody].
  exists body. rewrite writeContentFiles_run, contentTypesStrOf_sortedBody, Hbody.
  split; reflexivity.
Qed.

End TrackedMaps.

(** ** The outputs of a run *)

Section RunOutputFacts.

Context {I : Imports}.

Lemma warnNonexistentCollections_fold (contentTypes : CollectionTypes)
    (keys : list string) (done : Effect unit) :
  ∀ g outputs,
    done g = (Normal (), addOutputs g outputs) →
    fold_left
      (λ (done : Effect unit) configuredCollection,
         done;;
         when (negb (JsObject.has (JSON_stringify configuredCollection)
                       contentTypes))
           (emit (Logged warn "content"
                    (JSON_stringify configuredCollection +:+
                     " is not a collection. Check your content config for typos."))))
      keys done g =
    (Normal (),
     addOutputs g
       (outputs ++
        map (λ configuredCollection,
               Logged warn "content"
                 (JSON_stringify configuredCollection +:+
                  " is not a collection. Check your content config for typos."))
          (List.filter
             (λ configuredCollection,
                negb (JsObject.has (JSON_stringify configuredCollection)
                        contentTypes))
             keys))).
Proof.
  revert done. induction keys as [|k keys IH]; intros done g outputs Hdone.
  - simpl. now rewrite app_nil_r.
  - cbn [fold_left List.filter].
    destruct (negb (JsObject.has (JSON_stringify k) contentTypes)) eqn:Hk.
    + rewrite (IH _ g
                 (outputs ++
                  [Logged warn "content"
                     (JSON_stringify k +:+
                      " is not a collection. Check your content config for typos.")])).
      * cbn [map]. now rewrite <- app_assoc.
      * unfold mbind, Effect_bind. rewrite Hdone.
        unfold when, emit, addOutputs. simpl. now rewrite <- app_assoc.
    + rewrite (IH _ g outputs); [reflexivity|].
      unfold mbind, Effect_bind. now rewrite Hdone.
Qed.

Lemma warnNonexistentCollections_run contentConfig contentTypes g :
  warnNonexistentCollections contentConfig contentTypes g =
  (Normal (),
   addOutputs g (missingCollectionWarnings contentConfig contentTypes)).
Proof.
  unfold warnNonexistentCollections, missingCollectionWarnings.
  rewrite (warnNonexistentCollections_fold contentTypes _ (mret ()) g []).
  - reflexivity.
  - now rewrite addOutputs_nil.
Qed.

(** X8. [warnNonexistentCollections] never throws and changes nothing but
    the log: it warns once about every collection of the config that the
    Collection Map does not hold, in the order of the config, and about no
    other; a collection tracked with no entry is not warned about. *)
Theorem warnNonexistentCollections_warnings contentConfig contentTypes g :
  warnNonexistentCollections contentConfig contentTypes g =
    (Normal (),
     addOutputs g (missingCollectionWarnings contentConfig contentTypes)) ∧
  (∀ message,
     Logged warn "content" message ∈
       missingCollectionWarnings contentConfig contentTypes ↔
     ∃ configuredCollection,
       configuredCollection ∈ JsObject.keys (collections contentConfig) ∧
       JsObject.get (JSON_stringify configuredCollection) contentTypes = None ∧
       message =
         JSON_stringify configuredCollection +:+
         " is not a collection. Check your content config for typos.") ∧
  length (missingCollectionWarnings contentConfig contentTypes) ≤
    length (JsObject.keys (collections contentConfig)).
Proof.
  split; [apply warnNonexistentCollections_run|]. split.
  - intros message. unfold missingCollectionWarnings.
    rewrite list_elem_of_In, in_map_iff. split.
    + intros (c & [= <-] & Hin). exists c.
      apply filter_In in Hin as [Hin Habsent].
      split; [now apply list_elem_of_In|]. split; [|reflexivity].
      apply negb_true_iff in Habsent. now apply has_false_get.
    + intros (c & Hin & Habsent & ->). exists c. split; [reflexivity|].
      apply filter_In. split; [now apply list_elem_of_In|].
      unfold JsObject.has. now rewrite Habsent.
  - unfold missingCollectionWarnings. rewrite length_map.
    apply List.filter_length_le.
Qed.

End RunOutputFacts.

(** ** Runs and start-up *)

Section RunExact.

Context {I : Imports}.

Lemma dirKnown_unsupportedWarning ext dir outputs opts responses :
  dirKnown ext dir (outputs ++ unsupportedWarning opts responses) =
  dirKnown ext dir outputs.
Proof.
  unfold dirKnown, unsupportedWarning. rewrite existsb_app.
  destruct (_ && _); simpl; now rewrite orb_false_r.
Qed.

(** A run whose events can all be handled, to the last output. *)
Lemma runEvents_exact ext opts g :
  jsonKeys (collectionTypes g) →
  Forall (λ e, slugReadable ext (type e)) (events g) →
  ∃ responses g1 body,
    processed ext g (events g) responses g1 ∧
    quietly g g1 ∧
    jsonKeys (collectionTypes g1) ∧
    sortedBody (collectionTypes g1) (loadedConfig (observable g1)) =
      Normal body ∧
    runEvents ext opts g =
      (Normal (),
       addOutputs (drained g1) (runOutputs ext opts responses g1 body)).
Proof.
  intros Hjson Hall.
  destruct (handleEvents_processed ext (events g) [] g Hjson Hall)
    as (responses & g1 & Hproc & Hloop & Hquiet & Hjson1).
  simpl in Hloop.
  destruct (sortedBody_total (collectionTypes g1)
              (loadedConfig (observable g1)) Hjson1) as [body Hbody].
  exists responses, g1, body.
  split; [assumption|]. split; [assumption|]. split; [assumption|].
  split; [assumption|].
  unfold runEvents.
  unfold mbind at 1, Effect_bind at 1, getEvents at 1.
  unfold mbind at 1, Effect_bind at 1. rewrite Hloop.
  unfold mbind at 1, Effect_bind at 1, putEvents at 1.
  fold (drained g1).
  assert (Hwarn :
    when ((0 <? length (unsupportedFilesOf responses)) &&
          includes_info_warn (optsLogLevel opts))
      (emit (Logged warn "content"
               ("Unsupported file types found. Prefix with an underscore (`_`) to ignore:"
                +:+ nl +:+ "- " +:+
                String.concat nl (unsupportedFilesOf responses))))
      (drained g1) =
    (Normal (), addOutputs (drained g1) (unsupportedWarning opts responses))).
  { unfold unsupportedWarning.
    destruct (_ && _); [reflexivity|]. simpl. now rewrite addOutputs_nil. }
  unfold mbind at 1, Effect_bind at 1. rewrite Hwarn.
  unfold mbind at 1, Effect_bind at 1, observer_get at 1.
  change (observable (addOutputs (drained g1) (unsupportedWarning opts responses)))
    with (observable g1).
  unfold runOutputs, when at 1.
  destruct (existsb shouldGenerateTypes responses).
  - unfold mbind at 1, Effect_bind at 1, getCollectionTypes at 1.
    unfold mbind at 1, Effect_bind at 1.
    rewrite writeContentFiles_run, contentTypesStrOf_sortedBody.
    change (collectionTypes (addOutputs (drained g1) (unsupportedWarning opts responses)))
      with (collectionTypes g1).
    rewrite Hbody.
    change (trace (addOutputs (drained g1) (unsupportedWarning opts responses)))
      with (trace g1 ++ unsupportedWarning opts responses).
    rewrite dirKnown_unsupportedWarning. fold (writerOutputs ext (trace g1)
      (manifestText typeTemplateContent contentEntryTypes
         (loadedConfig (observable g1)) body)).
    rewrite addOutputs_addOutputs.
    destruct (observable g1) as [| |cfg| |e];
      try (now rewrite app_nil_r).
    destruct (includes_info_warn (optsLogLevel opts)); simpl when.
    + rewrite warnNonexistentCollections_run, addOutputs_addOutputs.
      now rewrite <- app_assoc.
    + now rewrite app_nil_r.
  - now rewrite app_nil_r.
Qed.

(** X9. A run whose events can all be handled does, after the handlers, at
    most this and in this order: one warning listing the unsupported files
    the handlers reported, if any; then, only when some response asks for
    a regeneration, the creation of the cache directory unless it exists,
    one write of the manifest built from the map the last handler left,
    and, when the config is loaded, the warnings about configured
    collections that do not exist.  The queue ends empty; the map and the
    observable are those the last handler left. *)
Theorem runEvents_outputs ext opts g :
  jsonKeys (collectionTypes g) →
  Forall (λ e, slugReadable ext (type e)) (events g) →
  ∃ responses g1 body,
    processed ext g (events g) responses g1 ∧
    sortedBody (collectionTypes g1) (loadedConfig (observable g1)) =
      Normal body ∧
    runEvents ext opts g =
      (Normal (),
       addOutputs (drained g1) (runOutputs ext opts responses g1 body)) ∧
    (existsb shouldGenerateTypes responses = false →
     runOutputs ext opts responses g1 body =
       unsupportedWarning opts responses) ∧
    (unsupportedFilesOf responses = [] →
     unsupportedWarning opts responses = []).
Proof.
  intros Hjson Hall.
  destruct (runEvents_exact ext opts g Hjson Hall)
    as (responses & g1 & body & Hproc & _ & _ & Hbody & Hrun).
  exists responses, g1, body.
  split; [assumption|]. split; [assumption|]. split; [assumption|].
  split.
  - intros Hnone. unfold runOutputs. rewrite Hnone. apply app_nil_r.
  - intros Hnone. unfold unsupportedWarning. now rewrite Hnone.
Qed.

Lemma handleEvent_config ext event opts g :
  isDirEvent (name event) = false →
  classify (entry event) = config →
  ∃ g',
    handleEvent ext event opts g = (Normal regenerate, g') ∧
    observable g' = configOutcome ext.
Proof.
  intros Hdir Hclass.
  unfold handleEvent, classify, configOutcome in *. rewrite Hdir, Hclass.
  unfold try_catch, mbind, Effect_bind, observer_set, emit, await. simpl.
  destruct (loadContentConfig ext) as [[cfg|]|[e|v]]; simpl; eexists;
    split; reflexivity.
Qed.

Lemma processed_observable ext g queued responses g1 :
  processed ext g queued responses g1 →
  observable g = configOutcome ext → observable g1 = configOutcome ext.
Proof.
  induction 1 as [|g event queued response g1 responses g2 Hrun _ IH];
    [auto|].
  intros Hobs. apply IH.
  destruct (handleEvent_observable_cases ext (type event) (opts event) g)
    as [Hsame|(_ & _ & Hcfg)]; rewrite Hrun in *; simpl in *; congruence.
Qed.

Lemma init_queues ext globbed g :
  existsSync ext (contentDir contentPaths) = true →
  init ext (Normal globbed) g =
  (runEvents ext None;; mret TypesGenerated)
    (withQueue g (events g ++ initEvents globbed)).
Proof.
  intros Hexists. unfold init. rewrite Hexists. cbn [negb].
  unfold withQueue, initEvents.
  unfold mbind at 1, Effect_bind at 1, getEvents at 1.
  unfold mbind at 1, Effect_bind at 1, putEvents at 1.
  unfold mbind at 1, Effect_bind at 1, await at 1.
  unfold mbind at 1, Effect_bind at 1, getEvents at 1.
  unfold mbind at 1, Effect_bind at 1, putEvents at 1.
  cbn [collectionTypes events observable trace].
  now rewrite <- app_assoc.
Qed.

(** X10. Start-up on an existing content directory whose files can all be
    handled: [init] queues the [add] of the config file, then the [add] of
    every listed file, runs the queue in that order, and resolves to
    [typesGenerated].  The config is loaded first, the observable ends in
    the state the loader's outcome determines, the queue ends empty and
    the manifest is written exactly once. *)
Theorem init_generates ext globbed g :
  existsSync ext (contentDir contentPaths) = true →
  classify (config_url contentPaths) = config →
  events g = [] →
  jsonKeys (collectionTypes g) →
  Forall (λ e, slugReadable ext (type e)) (initEvents globbed) →
  ∃ responses g1 g2 body,
    processed ext (withQueue g (initEvents globbed)) (initEvents globbed)
      (regenerate :: responses) g1 ∧
    init ext (Normal globbed) g = (Normal TypesGenerated, g2) ∧
    events g2 = [] ∧
    collectionTypes g2 = collectionTypes g1 ∧
    observable g2 = configOutcome ext ∧
    sortedBody (collectionTypes g2) (loadedConfig (configOutcome ext)) =
      Normal body ∧
    manifestWrites (outputsSince g g2) =
      [manifestText typeTemplateContent contentEntryTypes
         (loadedConfig (configOutcome ext)) body].
Proof.
  intros Hexists Hconfig Hempty Hjson Hall.
  destruct (runEvents_exact ext None (withQueue g (initEvents globbed))
              Hjson Hall)
    as (responses & g1 & body & Hproc & Hquiet & _ & Hbody & Hrun).
  simpl in Hproc.
  assert (Hfirst : ∃ rest, responses = regenerate :: rest ∧
                           observable g1 = configOutcome ext).
  { unfold initEvents in Hproc. inversion Hproc as [|? ? ? ? ga ? ? Hhead Htail];
      subst.
    destruct (handleEvent_config ext
                {| name := add; entry := config_url contentPaths |}
                (Some {| logLevel := warn |})
                (withQueue g (initEvents globbed)) eq_refl Hconfig)
      as (g' & Hrun' & Hobs).
    simpl in Hhead. unfold initEvents in Hrun'. rewrite Hrun' in Hhead.
    injection Hhead as <- <-. eexists. split; [reflexivity|].
    eapply processed_observable; eassumption. }
  destruct Hfirst as (rest & -> & Hobs).
  exists rest, g1, (addOutputs (drained g1)
                      (runOutputs ext None (regenerate :: rest) g1 body)), body.
  split; [exact Hproc|]. split.
  { rewrite (init_queues ext globbed g Hexists), Hempty. cbn [app].
    unfold mbind at 1, Effect_bind at 1. now rewrite Hrun. }
  split; [reflexivity|]. split; [reflexivity|].
  split; [exact Hobs|]. rewrite <- Hobs.
  split; [exact Hbody|].
  destruct Hquiet as (_ & o0 & Ht0 & Hw0). simpl in Ht0.
  unfold outputsSince. simpl trace. rewrite Ht0, <- app_assoc, drop_app_length.
  rewrite manifestWrites_app, Hw0. unfold runOutputs. simpl existsb.
  cbv iota. unfold writerOutputs.
  rewrite !manifestWrites_app.
  assert (Hu : manifestWrites (unsupportedWarning None (regenerate :: rest)) = []).
  { unfold unsupportedWarning. now destruct (_ && _). }
  assert (Hm : ∀ cfg types, manifestWrites (missingCollectionWarnings cfg types) = []).
  { intros cfg types. unfold missingCollectionWarnings.
    induction (List.filter _ _) as [|c l IH]; [reflexivity|exact IH]. }
  rewrite Hu. simpl app.
  destruct (dirKnown ext (cacheDir contentPaths) _);
    simpl; (destruct (observable g1); simpl; rewrite ?Hm; reflexivity).
Qed.

(** X11. Start-up fails loudly or not at all.  Without a content
    directory [init] resolves to [no-content-dir] and touches nothing.
    When the listing of the directory throws, [init] throws the same,
    having queued the config event only and handled, logged and written
    nothing.  When the slug of some listed entry cannot be read, [init]
    throws and no manifest is written. *)
Theorem init_failures ext globResult g :
  (existsSync ext (contentDir contentPaths) = false →
   init ext globResult g = (Normal NoContentDir, g)) ∧
  (∀ t,
     existsSync ext (contentDir contentPaths) = true →
     globResult = Throw t →
     ∃ g2,
       init ext globResult g = (Throw t, g2) ∧
       collectionTypes g2 = collectionTypes g ∧
       observable g2 = observable g ∧ trace g2 = trace g ∧
       events g2 = events g ++ initEvents []) ∧
  (∀ globbed,
     existsSync ext (contentDir contentPaths) = true →
     globResult = Normal globbed →
     events g = [] →
     jsonKeys (collectionTypes g) →
     Exists (λ e, slugUnreadable ext (type e)) (initEvents globbed) →
     ∃ t g2,
       init ext globResult g = (Throw t, g2) ∧
       manifestWrites (outputsSince g g2) = []).
Proof.
  split; [|split].
  - intros Hnone. unfold init. now rewrite Hnone.
  - intros t Hexists ->. unfold init. rewrite Hexists. cbn [negb].
    unfold mbind, Effect_bind, getEvents, putEvents, await.
    eexists. split; [reflexivity|]. repeat split.
  - intros globbed Hexists -> Hempty Hjson Hex.
    destruct (runEvents_cases ext None (withQueue g (initEvents globbed))
                Hjson) as [_ Hthrows].
    destruct (Hthrows Hex) as (t & g2 & Hrun & _ & _ & Hw).
    exists t, g2. split; [|exact Hw].
    rewrite (init_queues ext globbed g Hexists), Hempty. cbn [app].
    unfold mbind at 1, Effect_bind at 1. now rewrite Hrun.
Qed.

End RunExact.

(** ** Unsupported files *)

Section UnsupportedFacts.

Context {I : Imports}.

Lemma handleEvent_unsupported ext event opts g :
  isDirEvent (name event) = false →
  classify (entry event) = unsupported →
  handleEvent ext event opts g = (Normal (unsupportedResponse event), g).
Proof.
  intros Hdir Hclass. unfold handleEvent, classify, unsupportedResponse in *.
  rewrite Hdir, Hclass. now destruct (name event).
Qed.

Lemma handleEvents_unsupported ext queued acc g :
  Forall (λ e, isDirEvent (name (type e)) = false ∧
               classify (entry (type e)) = unsupported) queued →
  handleEvents ext queued acc g =
  (Normal (acc ++ map (λ e, unsupportedResponse (type e)) queued), g).
Proof.
  revert acc. induction queued as [|event queued IH]; intros acc Hall.
  - simpl. now rewrite app_nil_r.
  - apply Forall_cons in Hall as [[Hdir Hclass] Hall]. simpl.
    unfold mbind, Effect_bind.
    rewrite (handleEvent_unsupported ext _ _ g Hdir Hclass), (IH _ Hall).
    now rewrite <- app_assoc.
Qed.

Lemma unsupportedFilesOf_cons response responses :
  unsupportedFilesOf (response :: responses) =
  match error response with
  | Some (UnsupportedFileTypeError message) =>
      message :: unsupportedFilesOf responses
  | _ => unsupportedFilesOf responses
  end.
Proof.
  unfold unsupportedFilesOf. simpl.
  now destruct (error response) as [[]|].
Qed.

Lemma unsupportedFilesOf_unsupported queued :
  unsupportedFilesOf (map (λ e, unsupportedResponse (type e)) queued) =
  reportedIds queued.
Proof.
  induction queued as [|event queued IH]; [reflexivity|].
  cbn [map]. rewrite unsupportedFilesOf_cons, IH.
  unfold reportedIds, unsupportedResponse. cbn [List.filter error].
  now destruct (name (type event)).
Qed.

(** X12. A queue of file events on unsupported files: every event is
    answered with an [UnsupportedFileTypeError] naming the file, except an
    [unlink], which is answered silently.  The run neither touches the
    Collection Map or the observable nor writes the manifest; it empties
    the queue and logs a single warning that lists the files in the order
    of their events, or nothing when the events are all [unlink]s. *)
Theorem unsupported_files_batch ext opts g :
  Forall (λ e, isDirEvent (name (type e)) = false ∧
               classify (entry (type e)) = unsupported) (events g) →
  let responses := map (λ e, unsupportedResponse (type e)) (events g) in
  handleEvents ext (events g) [] g = (Normal responses, g) ∧
  unsupportedFilesOf responses = reportedIds (events g) ∧
  runEvents ext opts g =
    (Normal (), addOutputs (drained g) (unsupportedWarning opts responses)) ∧
  (reportedIds (events g) = [] → runEvents ext opts g = (Normal (), drained g)).
Proof.
  intros Hall responses.
  assert (Hloop := handleEvents_unsupported ext (events g) [] g Hall).
  simpl in Hloop. fold responses in Hloop.
  assert (Hids := unsupportedFilesOf_unsupported (events g)).
  fold responses in Hids.
  assert (Hrun : runEvents ext opts g =
    (Normal (), addOutputs (drained g) (unsupportedWarning opts responses))).
  { unfold runEvents.
    unfold mbind at 1, Effect_bind at 1, getEvents at 1.
    unfold mbind at 1, Effect_bind at 1. rewrite Hloop.
    unfold mbind at 1, Effect_bind at 1, putEvents at 1.
    fold (drained g).
    assert (Hnone : existsb shouldGenerateTypes responses = false).
    { subst responses. clear. induction (events g); [reflexivity|assumption]. }
    rewrite Hnone. unfold unsupportedWarning.
    unfold mbind at 1, Effect_bind at 1.
    destruct (_ && _); simpl; [reflexivity|now rewrite addOutputs_nil]. }
  split; [exact Hloop|]. split; [exact Hids|]. split; [exact Hrun|].
  intros Hnone. rewrite Hrun. unfold unsupportedWarning.
  rewrite Hids, Hnone. simpl. now rewrite addOutputs_nil.
Qed.

End UnsupportedFacts.

(** ** Splitting and searching *)

Lemma split_aux_first sep acc a b :
  occurs sep a = false →
  split_aux sep acc (a +:+ String sep b) = (acc +:+ a) :: split_aux sep "" b.
Proof.
  revert acc. induction a as [|c a IH]; intros acc Hno.
  - unfold String.app at 1. simpl. rewrite Ascii.eqb_refl.
    now rewrite append_nil_r.
  - simpl in Hno. apply orb_false_iff in Hno as [Hc Ha].
    unfold String.app at 1. simpl. fold (String.app a (String sep b)).
    rewrite Hc, (IH _ Ha). f_equal.
    rewrite append_assoc. reflexivity.
Qed.

Lemma split_aux_whole sep acc a :
  occurs sep a = false → split_aux sep acc a = [acc +:+ a].
Proof.
  revert acc. induction a as [|c a IH]; intros acc Hno.
  - simpl. now rewrite append_nil_r.
  - simpl in Hno. apply orb_false_iff in Hno as [Hc Ha].
    simpl. rewrite Hc, (IH _ Ha), append_assoc. reflexivity.
Qed.

Lemma find_first_unfold pat s :
  find_first pat s =
  if String.prefix pat s
  then Some (EmptyString, String.substring (String.length pat)
                            (String.length s - String.length pat) s)
  else
    match s with
    | EmptyString => None
    | String c s' =>
        match find_first pat s' with
        | Some (pre, post) => Some (String c pre, post)
        | None => None
        end
    end.
Proof. now destruct s. Qed.

Lemma prefix_app pat post : String.prefix pat (pat +:+ post) = true.
Proof.
  induction pat as [|c pat IH]; unfold String.app; simpl.
  - now destruct post.
  - destruct (ascii_dec c c); [exact IH|contradiction].
Qed.

Lemma includes_here pat post : includes (pat +:+ post) pat = true.
Proof.
  unfold includes. rewrite find_first_unfold, prefix_app. reflexivity.
Qed.

Lemma includes_later a s pat :
  includes s pat = true → includes (a +:+ s) pat = true.
Proof.
  unfold includes. intros Hs. induction a as [|c a IH]; [exact Hs|].
  change (String c a +:+ s) with (String c (a +:+ s)).
  rewrite find_first_unfold.
  destruct (String.prefix pat (String c (a +:+ s))); [reflexivity|].
  now destruct (find_first pat (a +:+ s)) as [[pre post]|].
Qed.

(** ** The asset propagation plugin *)

Section PluginFacts.

Context {B : BuildImports} {P : PluginImports}.

Lemma basePathOf_flagged base query :
  occurs "?" base = false → basePathOf (base +:+ "?" +:+ query) = base.
Proof.
  intros Hno. unfold basePathOf, split.
  change ("?" +:+ query) with (String "?" query).
  now rewrite (split_aux_first _ _ _ _ Hno).
Qed.





Lemma includes_quoted s : plainName s = true → includes (JSON_stringify s) s = true.
Proof.
  intros Hplain. unfold JSON_stringify.
  rewrite (json_escape_all_plain s Hplain).
  apply includes_later, includes_here.
Qed.

Lemma propagatedModule_links basePath :
  includes (propagatedModule basePath) (JSON_stringify LINKS_PLACEHOLDER) = true.
Proof.
  unfold propagatedModule. do 16 apply includes_later. apply includes_here.
Qed.

Lemma propagatedModule_styles basePath :
  includes (propagatedModule basePath) (JSON_stringify STYLES_PLACEHOLDER) = true.
Proof.
  unfold propagatedModule. do 21 apply includes_later. apply includes_here.
Qed.

Lemma propagatedModule_scripts basePath :
  includes (propagatedModule basePath) (JSON_stringify SCRIPTS_PLACEHOLDER) = true.
Proof.
  unfold propagatedModule. do 26 apply includes_later. apply includes_here.
Qed.

Lemma includes_trans s mid pat :
  includes s mid = true → includes mid pat = true → includes s pat = true.
Proof.
  unfold includes at 1. intros Hs Hmid.
  destruct (find_first mid s) as [[pre post]|] eqn:Hfind; [|discriminate].
  apply find_first_split in Hfind as ->.
  apply includes_later.
  unfold includes in *.
  destruct (find_first pat mid) as [[pre' post']|] eqn:Hfind'; [|discriminate].
  apply find_first_split in Hfind' as ->.
  rewrite !append_assoc. fold (includes (pre' +:+ pat +:+ post' +:+ post) pat).
  apply includes_later, includes_here.
Qed.

(** X14. Whatever id it is loaded for, the module generated for a
    propagated asset holds the three placeholder tokens as JSON string
    literals, which is the text the build hook and the dev transform
    replace.  When the link token is a plain name, a chunk made of this
    code passes the test of the build hook, which hands it back with the
    tokens replaced by what the pages propagate to its modules. *)
Theorem load_carries_placeholders id code clientOutputs fileName modules :
  load id = Some code →
  includes code (JSON_stringify LINKS_PLACEHOLDER) = true ∧
  includes code (JSON_stringify STYLES_PLACEHOLDER) = true ∧
  includes code (JSON_stringify SCRIPTS_PLACEHOLDER) = true ∧
  (plainName LINKS_PLACEHOLDER = true →
   processChunk clientOutputs (OutputChunk fileName code modules) =
     Some (replaceScripts clientOutputs (collectAssets modules).2
             (replaceLinks (collectAssets modules).1 code))).
Proof.
  unfold load. destruct (isPropagatedAsset id); [|discriminate].
  intros [= <-].
  split; [apply propagatedModule_links|].
  split; [apply propagatedModule_styles|].
  split; [apply propagatedModule_scripts|].
  intros Hplain. unfold processChunk.
  rewrite (includes_trans _ _ _ (propagatedModule_links (basePathOf id))
             (includes_quoted _ Hplain)).
  simpl. now destruct (collectAssets modules).
Qed.

(** ** More on the build hook *)

Lemma clientFileNames_modules entryScripts fileName ids names x :
  x ∈ fold_left
        (λ names id,
           if set_has id entryScripts then set_add fileName names else names)
        ids names ↔
  (x = fileName ∧ ∃ id, id ∈ ids ∧ id ∈ entryScripts) ∨ x ∈ names.
Proof.
  revert names. induction ids as [|id ids IH]; intros names; simpl.
  - split; [now right|]. intros [(_ & id & Hin & _)|?]; [inversion Hin|assumption].
  - rewrite IH. unfold set_has. case_bool_decide as Hid.
    + rewrite elem_of_set_add. setoid_rewrite elem_of_cons. split.
      * intros [(-> & id' & Hin & Hs)|[->|?]]; eauto 10.
      * intros [(-> & id' & [->|Hin] & Hs)|?]; eauto 10.
    + setoid_rewrite elem_of_cons. split.
      * intros [(-> & id' & Hin & Hs)|?]; eauto 10.
      * intros [(-> & id' & [->|Hin] & Hs)|?]; eauto 10. contradiction.
Qed.

Lemma clientFileNames_output entryScripts output names x :
  x ∈ fold_left
        (λ names clientChunk,
           match clientChunk with
           | OutputAsset _ => names
           | OutputChunk fileName _ modules =>
               fold_left
                 (λ names id,
                    if set_has id entryScripts then set_add fileName names
                    else names)
                 (JsObject.keys modules) names
           end)
        output names ↔
  (∃ clientChunk, clientChunk ∈ output ∧ holdsScript entryScripts clientChunk x) ∨
  x ∈ names.
Proof.
  revert names. induction output as [|clientChunk output IH]; intros names; simpl.
  - split; [now right|]. intros [(c & Hin & _)|?]; [inversion Hin|assumption].
  - rewrite IH. setoid_rewrite elem_of_cons.
    destruct clientChunk as [fileName code modules|assetName].
    + rewrite clientFileNames_modules. unfold holdsScript. split.
      * intros [(c & Hin & Hc)|[(-> & id & Hin & Hs)|?]]; eauto 15.
      * intros [(c & [->|Hin] & Hc)|?]; eauto 15.
        destruct Hc as (code' & modules' & id & [= <- <- <-] & Hin & Hs).
        eauto 15.
    + split.
      * intros [(c & Hin & Hc)|?]; eauto 15.
      * intros [(c & [->|Hin] & Hc)|?]; eauto 15.
        destruct Hc as (? & ? & ? & [=] & _).
Qed.

Lemma clientFileNames_outputs entryScripts clientOutputs names x :
  x ∈ fold_left
        (λ names output,
           fold_left
             (λ names clientChunk,
                match clientChunk with
                | OutputAsset _ => names
                | OutputChunk fileName _ modules =>
                    fold_left
                      (λ names id,
                         if set_has id entryScripts
                         then set_add fileName names else names)
                      (JsObject.keys modules) names
                end)
             output names)
        clientOutputs names ↔
  (∃ output clientChunk,
     output ∈ clientOutputs ∧ clientChunk ∈ output ∧
     holdsScript entryScripts clientChunk x) ∨
  x ∈ names.
Proof.
  revert names.
  induction clientOutputs as [|output outputs IH]; intros names; simpl.
  - split; [now right|]. intros [(o & c & Hin & _)|?]; [inversion Hin|assumption].
  - rewrite IH, clientFileNames_output. setoid_rewrite elem_of_cons. split.
    + intros [(o & c & Hin & Hc)|[(c & Hin & Hc)|?]]; eauto 15.
    + intros [(o & c & [->|Hin] & Hc)|?]; eauto 15.
Qed.

(** X15. The file names collected for the script descriptors are exactly
    the names of the client chunks, assets apart, one of whose modules is a
    propagated script; none is collected twice, and none is collected when
    no script is propagated. *)
Theorem clientFileNames_characterised clientOutputs entryScripts :
  NoDup (clientFileNames clientOutputs entryScripts) ∧
  (∀ x,
     x ∈ clientFileNames clientOutputs entryScripts ↔
     ∃ output clientChunk,
       output ∈ clientOutputs ∧ clientChunk ∈ output ∧
       holdsScript entryScripts clientChunk x) ∧
  clientFileNames clientOutputs [] = [].
Proof.
  split; [apply NoDup_clientFileNames|]. split.
  - intros x. unfold clientFileNames. rewrite clientFileNames_outputs.
    rewrite elem_of_nil. tauto.
  - destruct (clientFileNames clientOutputs []) as [|x l] eqn:Hnames;
      [reflexivity|].
    assert (Hx : x ∈ clientFileNames clientOutputs []).
    { rewrite Hnames. now left. }
    unfold clientFileNames in Hx. rewrite clientFileNames_outputs in Hx.
    destruct Hx as [(o & c & _ & _ & code & modules & id & _ & _ & Hid)|Hx];
      [inversion Hid|inversion Hx].
Qed.

(** X16. A chunk that holds a placeholder token but to whose modules no
    page propagates a style or a script is handed back with its code as it
    was, tokens included; an asset, and a chunk that holds neither token,
    are not handed back at all. *)
Theorem chunk_without_propagation clientOutputs fileName code modules :
  (includes code LINKS_PLACEHOLDER || includes code SCRIPTS_PLACEHOLDER = true →
   (∀ x, ¬ propagatedTo propagatedStyles modules x) →
   (∀ x, ¬ propagatedTo propagatedScripts modules x) →
   processChunk clientOutputs (OutputChunk fileName code modules) = Some code) ∧
  (includes code LINKS_PLACEHOLDER || includes code SCRIPTS_PLACEHOLDER = false →
   processChunk clientOutputs (OutputChunk fileName code modules) = None) ∧
  processChunk clientOutputs (OutputAsset fileName) = None.
Proof.
  split; [|split; [|reflexivity]].
  - intros Hincludes Hstyles Hscripts. unfold processChunk. rewrite Hincludes.
    destruct (collectAssets_spec modules) as (_ & _ & M1 & M2).
    destruct (collectAssets modules) as [entryCSS entryScripts].
    simpl in M1, M2.
    assert (entryCSS = []) as ->.
    { destruct entryCSS as [|x l]; [reflexivity|].
      destruct (Hstyles x). apply M1. now left. }
    assert (entryScripts = []) as ->.
    { destruct entryScripts as [|x l]; [reflexivity|].
      destruct (Hscripts x). apply M2. now left. }
    reflexivity.
  - intros Hnone. unfold processChunk. now rewrite Hnone.
Qed.

End PluginFacts.

(** ** The virtual module plugin *)

Section VirtualModFacts.

Context {I : Imports} {B : BuildImports} {M : VirtualModImports}.

Lemma eqb_cons_self c s : String.eqb s (String c s) = false.
Proof.
  apply String.eqb_neq. intros Heq.
  apply (f_equal String.length) in Heq. simpl in Heq. lia.
Qed.

(** X17. The virtual module is loaded under the resolved id only: [load]
    answers, with the contents made from the template, exactly the ids
    that [resolveId] produces, and [resolveId] produces an id for the
    public id of the module only.  Neither the public id is loaded nor
    the resolved id resolved again. *)
Theorem virtual_module_hooks id :
  (VirtualMod.load id = Some VirtualMod.virtualModContents ↔
   ∃ requested, VirtualMod.resolveId requested = Some id) ∧
  (VirtualMod.load id = None ↔
   ∀ requested, VirtualMod.resolveId requested ≠ Some id) ∧
  (VirtualMod.resolveId id ≠ None ↔ id = VIRTUAL_MODULE_ID) ∧
  VirtualMod.load VIRTUAL_MODULE_ID = None ∧
  VirtualMod.resolveId VirtualMod.astroContentVirtualModuleId = None.
Proof.
  unfold VirtualMod.load, VirtualMod.resolveId.
  split; [|split; [|split; [|split]]].
  - destruct (String.eqb_spec id VirtualMod.astroContentVirtualModuleId)
      as [->|Hne].
    + split; [|reflexivity]. intros _. exists VIRTUAL_MODULE_ID.
      now rewrite String.eqb_refl.
    + split; [discriminate|]. intros (requested & Hr).
      destruct (String.eqb requested VIRTUAL_MODULE_ID); congruence.
  - destruct (String.eqb_spec id VirtualMod.astroContentVirtualModuleId)
      as [->|Hne].
    + split; [discriminate|]. intros Hnone.
      destruct (Hnone VIRTUAL_MODULE_ID). now rewrite String.eqb_refl.
    + split; [|reflexivity]. intros _ requested.
      destruct (String.eqb requested VIRTUAL_MODULE_ID); congruence.
  - destruct (String.eqb_spec id VIRTUAL_MODULE_ID); split; congruence.
  - unfold VirtualMod.astroContentVirtualModuleId.
    now rewrite eqb_cons_self.
  - unfold VirtualMod.astroContentVirtualModuleId.
    rewrite String.eqb_sym. now rewrite eqb_cons_self.
Qed.

End VirtualModFacts.

(** ** The runtime lookups *)

Lemma split_aux_nonempty sep acc s : split_aux sep acc s ≠ [].
Proof.
  intros Heq. apply (f_equal length) in Heq.
  rewrite length_split_aux in Heq. discriminate.
Qed.

Lemma concat_split_aux sep acc s :
  String.concat (String sep "") (split_aux sep acc s) = acc +:+ s.
Proof.
  revert acc. induction s as [|c s IH]; intros acc.
  - simpl. now rewrite append_nil_r.
  - simpl. destruct (Ascii.eqb_spec c sep) as [->|Hne].
    + destruct (split_aux sep "" s) as [|x l] eqn:Hsplit.
      { now destruct (split_aux_nonempty sep "" s). }
      change (String.concat (String sep "") (acc :: x :: l))
        with (acc +:+ String sep "" +:+ String.concat (String sep "") (x :: l)).
      rewrite <- Hsplit, IH. reflexivity.
    + rewrite IH, append_assoc. reflexivity.
Qed.

Lemma split_aux_head sep acc s x rest :
  split_aux sep acc s = x :: rest → occurs sep acc = false →
  occurs sep x = false.
Proof.
  revert acc. induction s as [|c s IH]; intros acc Hsplit Hacc.
  - simpl in Hsplit. now injection Hsplit as <- _.
  - simpl in Hsplit. destruct (Ascii.eqb c sep) eqn:Hc.
    + now injection Hsplit as <- _.
    + apply (IH _ Hsplit). clear -Hacc Hc.
      induction acc as [|a acc IHacc]; simpl in *.
      * now rewrite Hc.
      * apply orb_false_iff in Hacc as [Ha Hacc].
        unfold String.app. simpl. fold (String.app acc (String c "")).
        now rewrite Ha, IHacc.
Qed.

(** A key has a collection and an entry id exactly when it reads
    [collection/entryId] with no slash in the collection. *)
Lemma pathOf_Some s collection entryId :
  pathOf s = Some (collection, entryId) ↔
  s = collection +:+ "/" +:+ entryId ∧ occurs "/" collection = false.
Proof.
  unfold pathOf, split. split.
  - destruct (split_aux "/" "" s) as [|c [|r rest]] eqn:Hsplit; try discriminate.
    intros [= <- <-]. split.
    + pose proof (concat_split_aux "/" "" s) as Hjoin.
      rewrite Hsplit in Hjoin. symmetry. exact Hjoin.
    + now apply (split_aux_head _ _ _ _ _ Hsplit).
  - intros [-> Hno]. change ("/" +:+ entryId) with (String "/" entryId).
    rewrite (split_aux_first _ _ _ _ Hno).
    destruct (split_aux "/" "" entryId) as [|r rest] eqn:Hsplit.
    { now destruct (split_aux_nonempty "/" "" entryId). }
    rewrite <- Hsplit, concat_split_aux. reflexivity.
Qed.

Section RuntimeFacts.

Variable stripDir : string → string → string.

Lemma addGlobEntry_pathOf dir m key lazyImport :
  Runtime.addGlobEntry stripDir dir (Some m) (key, lazyImport) =
  match pathOf (stripDir dir key) with
  | None => Some m
  | Some (collection, entryId) =>
      if inheritedName collection || String.eqb entryId "__proto__"
      then None
      else
        Some (JsObject.set collection
                (JsObject.set entryId lazyImport
                   (default JsObject.empty (JsObject.get collection m)))
                m)
  end.
Proof.
  unfold Runtime.addGlobEntry, pathOf. simpl.
  now destruct (split "/" (stripDir dir key)) as [|c [|r rest]].
Qed.

Lemma addGlobEntry_None dir properties :
  fold_left (Runtime.addGlobEntry stripDir dir) properties None = None.
Proof. induction properties as [|p l IH]; [reflexivity|exact IH]. Qed.

Lemma lookup2_set m collection entryId lazyImport c e :
  lookup2
    (JsObject.set collection
       (JsObject.set entryId lazyImport
          (default JsObject.empty (JsObject.get collection m))) m) c e =
  if String.eqb c collection && String.eqb e entryId
  then Some lazyImport
  else lookup2 m c e.
Proof.
  unfold lookup2, CollectionToEntryMap, GlobResult in *.
  destruct (String.eqb_spec c collection) as [->|Hc]; simpl.
  - rewrite get_set_eq. simpl.
    destruct (String.eqb_spec e entryId) as [->|He].
    + apply get_set_eq.
    + rewrite get_set_ne by congruence.
      destruct (JsObject.get collection m); reflexivity.
  - rewrite get_set_ne by congruence. reflexivity.
Qed.

(** The loop, from any map: what is looked up afterwards comes from a key
    handled by the loop or was there before, and every key with a
    collection and an entry id can be looked up. *)
Lemma createMap_spec dir properties m0 m :
  fold_left (Runtime.addGlobEntry stripDir dir) properties (Some m0) = Some m →
  (∀ c e v,
     lookup2 m c e = Some v →
     (∃ key, (key, v) ∈ properties ∧ pathOf (stripDir dir key) = Some (c, e)) ∨
     lookup2 m0 c e = Some v) ∧
  (∀ key v c e,
     (key, v) ∈ properties → pathOf (stripDir dir key) = Some (c, e) →
     ∃ v', lookup2 m c e = Some v') ∧
  (∀ c e v, lookup2 m0 c e = Some v → ∃ v', lookup2 m c e = Some v').
Proof.
  revert m0. induction properties as [|[key lazyImport] l IH]; intros m0 Hfold.
  - simpl in Hfold. injection Hfold as <-.
    split; [auto|]. split; [|eauto].
    intros key v c e Hin. inversion Hin.
  - cbn [fold_left] in Hfold. rewrite addGlobEntry_pathOf in Hfold.
    destruct (pathOf (stripDir dir key)) as [[collection entryId]|] eqn:Hpath.
    + destruct (inheritedName collection || String.eqb entryId "__proto__").
      { now rewrite addGlobEntry_None in Hfold. }
      destruct (IH _ Hfold) as (Hsound & Hcomplete & Hkept).
      split; [|split].
      * intros c e v Hlook.
        destruct (Hsound c e v Hlook) as [(k & Hin & Hk)|Hbefore].
        { left. exists k. split; [now right|assumption]. }
        rewrite lookup2_set in Hbefore.
        destruct (String.eqb_spec c collection) as [->|];
          destruct (String.eqb_spec e entryId) as [->|];
          simpl in Hbefore; auto.
        injection Hbefore as <-. left. exists key. split; [now left|assumption].
      * intros k v c e Hin Hk. apply elem_of_cons in Hin as [[= -> ->]|Hin].
        -- apply (Hkept c e lazyImport). rewrite lookup2_set.
           rewrite Hpath in Hk. injection Hk as <- <-.
           now rewrite !String.eqb_refl.
        -- eauto.
      * intros c e v Hbefore.
        destruct (String.eqb c collection && String.eqb e entryId) eqn:Hsame.
        -- apply (Hkept c e lazyImport). now rewrite lookup2_set, Hsame.
        -- apply (Hkept c e v). now rewrite lookup2_set, Hsame.
    + destruct (IH _ Hfold) as (Hsound & Hcomplete & Hkept).
      split; [|split; [|assumption]].
      * intros c e v Hlook.
        destruct (Hsound c e v Hlook) as [(k & Hin & Hk)|Hbefore]; auto.
        left. exists k. split; [now right|assumption].
      * intros k v c e Hin Hk. apply elem_of_cons in Hin as [[= -> ->]|Hin].
        -- congruence.
        -- eauto.
Qed.

Lemma createMap_followed dir properties m0 :
  followed stripDir dir properties →
  ∃ m, fold_left (Runtime.addGlobEntry stripDir dir) properties (Some m0) =
       Some m.
Proof.
  revert m0. induction properties as [|[key lazyImport] l IH]; intros m0 Hall.
  - now exists m0.
  - apply Forall_cons in Hall as [Hhead Hall]. cbn [fold_left].
    rewrite addGlobEntry_pathOf.
    destruct (pathOf (stripDir dir key)) as [[collection entryId]|] eqn:Hpath.
    + destruct (Hhead collection entryId Hpath) as [Hc He].
      apply String.eqb_neq in He. rewrite Hc, He. simpl. apply IH, Hall.
    + apply IH, Hall.
Qed.

(** X18. [createCollectionToGlobResultMap] files every key of the glob
    result that, once relative to the directory, reads
    [collection/entryId] under that collection and that id, deeper
    directories staying in the id, and skips the keys of one segment.
    What is found under a collection and an id is the import of a key
    that reads so; a key that reads so is found, with its own import or
    that of a later key that reads the same. *)
Theorem createCollectionToGlobResultMap_lookup globResult dir :
  followed stripDir dir globResult →
  ∃ m,
    Runtime.createCollectionToGlobResultMap stripDir globResult dir = Some m ∧
    (∀ collection entryId lazyImport,
       lookup2 m collection entryId = Some lazyImport →
       ∃ key,
         (key, lazyImport) ∈ globResult ∧
         stripDir dir key = collection +:+ "/" +:+ entryId ∧
         occurs "/" collection = false) ∧
    (∀ key lazyImport collection entryId,
       (key, lazyImport) ∈ globResult →
       stripDir dir key = collection +:+ "/" +:+ entryId →
       occurs "/" collection = false →
       ∃ found, lookup2 m collection entryId = Some found) ∧
    (∀ collection entryId,
       occurs "/" collection = true → lookup2 m collection entryId = None).
Proof.
  intros Hall.
  destruct (createMap_followed dir globResult JsObject.empty Hall) as [m Hm].
  exists m. split; [exact Hm|].
  destruct (createMap_spec dir globResult JsObject.empty m Hm)
    as (Hsound & Hcomplete & _).
  split; [|split].
  - intros c e v Hlook.
    destruct (Hsound c e v Hlook) as [(key & Hin & Hpath)|Hempty];
      [|discriminate].
    apply pathOf_Some in Hpath as [Hs Hno]. eauto.
  - intros key v c e Hin Hs Hno.
    apply (Hcomplete key v c e Hin). apply pathOf_Some. auto.
  - intros c e Hslash.
    destruct (lookup2 m c e) as [v|] eqn:Hlook; [|reflexivity].
    destruct (Hsound c e v Hlook) as [(key & Hin & Hpath)|Hempty];
      [|discriminate].
    apply pathOf_Some in Hpath as [_ Hno]. congruence.
Qed.

(** X19. [getDataEntryById] on the map made from a glob result: an id is
    found exactly when some key reads [collection/id.json]; the lookup
    then resolves to the fields of an import of such a key, or throws
    what that import throws.  When no key reads so, it throws the error
    naming the collection and the id. *)
Theorem getDataEntryById_on_glob globResult dir collection id :
  followed stripDir dir globResult →
  ∃ m,
    Runtime.createCollectionToGlobResultMap stripDir globResult dir = Some m ∧
    ((∀ key lazyImport,
        (key, lazyImport) ∈ globResult →
        pathOf (stripDir dir key) ≠ Some (collection, id +:+ ".json")) →
     Runtime.getDataEntryById m collection id =
       Throw (notFound collection id)) ∧
    (∀ key lazyImport,
       (key, lazyImport) ∈ globResult →
       pathOf (stripDir dir key) = Some (collection, id +:+ ".json") →
       ∃ key' found,
         (key', found) ∈ globResult ∧
         pathOf (stripDir dir key') = Some (collection, id +:+ ".json") ∧
         Runtime.getDataEntryById m collection id =
           match found with
           | Normal entry =>
               Normal {| Runtime.de_id := entry_id entry;
                         Runtime.de_collection := entry_collection entry;
                         Runtime.de_data := entry_data entry |}
           | Throw t => Throw t
           end).
Proof.
  intros Hall.
  destruct (createMap_followed dir globResult JsObject.empty Hall) as [m Hm].
  exists m. split; [exact Hm|].
  destruct (createMap_spec dir globResult JsObject.empty m Hm)
    as (Hsound & Hcomplete & _).
  unfold Runtime.getDataEntryById, Runtime.lazyImportOf.
  fold (lookup2 m collection (id +:+ ".json")).
  split.
  - intros Hno.
    destruct (lookup2 m collection (id +:+ ".json")) as [v|] eqn:Hlook;
      [|reflexivity].
    destruct (Hsound _ _ v Hlook) as [(key & Hin & Hpath)|Hempty];
      [|discriminate].
    now destruct (Hno key v Hin).
  - intros key v Hin Hpath.
    destruct (Hcomplete key v _ _ Hin Hpath) as [found Hlook].
    destruct (Hsound _ _ found Hlook) as [(key' & Hin' & Hpath')|Hempty];
      [|discriminate].
    exists key', found. split; [assumption|]. split; [assumption|].
    rewrite Hlook. now destruct found.
Qed.

End RuntimeFacts.

(** ** Runs started by the debounce timer *)

Section SafeRuns.

Context {I : Imports}.

Lemma runEventsSafe_throwing ext opts g :
  jsonKeys (collectionTypes g) →
  Exists (λ e, slugUnreadable ext (type e)) (events g) →
  ∃ g2,
    runEventsSafe ext opts g = (Normal (), g2) ∧
    events g2 = events g ∧
    jsonKeys (collectionTypes g2) ∧
    manifestWrites (outputsSince g g2) = [].
Proof.
  intros Hjson Hex.
  destruct (runEvents_cases ext opts g Hjson) as [_ Hthrows].
  destruct (Hthrows Hex) as (t & g2 & Hrun & He & Hjson2 & Hw).
  exists g2. unfold runEventsSafe, try_catch. rewrite Hrun. auto.
Qed.

(** X20. A run started by the timer never throws.  When every queued
    event can be handled it is the plain run.  When the slug needed by
    some queued event cannot be read, it writes no manifest and leaves the
    whole queue in place, so that, the files staying as they are, the next
    run started by the timer meets the same events and ends the same way:
    the events queued behind the unreadable entry are not handled, and no
    manifest is written, until that entry can be read. *)
Theorem runEventsSafe_keeps_failed_queue ext opts opts' g :
  jsonKeys (collectionTypes g) →
  (runEventsSafe ext opts g).1 = Normal () ∧
  (Forall (λ e, slugReadable ext (type e)) (events g) →
   runEventsSafe ext opts g = runEvents ext opts g) ∧
  (Exists (λ e, slugUnreadable ext (type e)) (events g) →
   ∃ g2 g3,
     runEventsSafe ext opts g = (Normal (), g2) ∧
     events g2 = events g ∧
     manifestWrites (outputsSince g g2) = [] ∧
     runEventsSafe ext opts' g2 = (Normal (), g3) ∧
     events g3 = events g ∧
     manifestWrites (outputsSince g2 g3) = []).
Proof.
  intros Hjson.
  assert (Hgood : Forall (λ e, slugReadable ext (type e)) (events g) →
                  runEventsSafe ext opts g = runEvents ext opts g).
  { intros Hall.
    destruct (runEvents_cases ext opts g Hjson) as [Hcompletes _].
    destruct (Hcompletes Hall) as (? & ? & g2 & ? & _ & Hrun & _).
    unfold runEventsSafe, try_catch. now rewrite Hrun. }
  assert (Hbad : Exists (λ e, slugUnreadable ext (type e)) (events g) →
    ∃ g2 g3,
      runEventsSafe ext opts g = (Normal (), g2) ∧
      events g2 = events g ∧
      manifestWrites (outputsSince g g2) = [] ∧
      runEventsSafe ext opts' g2 = (Normal (), g3) ∧
      events g3 = events g ∧
      manifestWrites (outputsSince g2 g3) = []).
  { intros Hex.
    destruct (runEventsSafe_throwing ext opts g Hjson Hex)
      as (g2 & Hrun & He & Hjson2 & Hw).
    rewrite <- He in Hex.
    destruct (runEventsSafe_throwing ext opts' g2 Hjson2 Hex)
      as (g3 & Hrun' & He' & _ & Hw').
    exists g2, g3. rewrite He', He. auto 10. }
  split; [|split; assumption].
  destruct (readable_or_unreadable ext (events g)) as [Hall|Hex].
  - rewrite (Hgood Hall).
    destruct (runEvents_cases ext opts g Hjson) as [Hcompletes _].
    destruct (Hcompletes Hall) as (? & ? & g2 & ? & _ & Hrun & _).
    now rewrite Hrun.
  - destruct (Hbad Hex) as (g2 & g3 & Hrun & _). now rewrite Hrun.
Qed.

End SafeRuns.

(** ** The collection getters and their cache *)

Section GetterFacts.

Variable PROD : bool.

Lemma find_head_filter {A} (f : A → bool) (l : list A) :
  List.find f l = head (List.filter f l).
Proof.
  induction l as [|a l IH]; [reflexivity|]. simpl.
  now destruct (f a).
Qed.



(** X22. [getEntryBySlug] answers as [getCollection] does when filtered on
    the slug: it resolves to the first entry of the collection with that
    slug, to nothing when there is none, throws when [getCollection]
    throws, and leaves the cache as [getCollection] does. *)
Theorem getEntryBySlug_first_of_collection oracle m collection slug cache :
  let listed :=
    Runtime.getCollection PROD oracle m collection
      (Some (Runtime.hasSlug slug)) cache in
  Runtime.getEntryBySlug PROD oracle m collection slug cache =
    (match listed.1 with
     | Normal entries => Normal (head entries)
     | Throw t => Throw t
     end, listed.2) ∧
  (∀ entry,
     (Runtime.getEntryBySlug PROD oracle m collection slug cache).1 =
       Normal (Some entry) →
     Runtime.hasSlug slug entry = true).
Proof.
  cbv zeta.
  assert (Heq :
    Runtime.getEntryBySlug PROD oracle m collection slug cache =
    (match (Runtime.getCollection PROD oracle m collection
              (Some (Runtime.hasSlug slug)) cache).1 with
     | Normal entries => Normal (head entries)
     | Throw t => Throw t
     end,
     (Runtime.getCollection PROD oracle m collection
        (Some (Runtime.hasSlug slug)) cache).2)).
  { unfold Runtime.getEntryBySlug, Runtime.getCollection.
    destruct (if PROD then JsObject.get collection cache else None)
      as [cached|]; simpl.
    - now rewrite find_head_filter.
    - destruct (Runtime.promise_all _ _) as [loaded|t]; simpl;
        [now rewrite find_head_filter|reflexivity]. }
  split; [exact Heq|].
  intros entry. rewrite Heq. simpl.
  destruct (Runtime.getCollection PROD oracle m collection
              (Some (Runtime.hasSlug slug)) cache).1 as [entries|t] eqn:Hl;
    [|discriminate].
  intros [= Hhead].
  unfold Runtime.getCollection in Hl.
  assert (Hall : Forall (λ e, Runtime.hasSlug slug e = true) entries).
  { destruct (if PROD then JsObject.get collection cache else None)
      as [cached|]; simpl in Hl.
    - injection Hl as <-. apply List.Forall_forall. intros e He.
      now apply filter_In in He.
    - destruct (Runtime.promise_all _ _) as [loaded|t']; simpl in Hl;
        [|discriminate].
      injection Hl as <-. apply List.Forall_forall. intros e He.
      now apply filter_In in He. }
  destruct entries as [|e l]; [discriminate|].
  injection Hhead as ->. now apply Forall_cons in Hall.
Qed.

End GetterFacts.

(** ** The glob of the extensions *)

Lemma split_concat sep (l : list string) :
  l ≠ [] → Forall (λ s, occurs sep s = false) l →
  split sep (String.concat (String sep "") l) = l.
Proof.
  unfold split. induction l as [|x [|y r] IH]; intros Hne Hall.
  - contradiction.
  - apply Forall_cons in Hall as [Hx _]. simpl.
    now rewrite (split_aux_whole _ _ _ Hx).
  - apply Forall_cons in Hall as [Hx Hall].
    change (String.concat (String sep "") (x :: y :: r))
      with (x +:+ String sep (String.concat (String sep "") (y :: r))).
    rewrite (split_aux_first _ _ _ _ Hx), IH by (assumption || discriminate).
    reflexivity.
Qed.

(** X23. [getExtGlob] gives a single extension as it is, without braces,
    and otherwise a brace group; for two or more extensions without a
    comma, splitting the text between the braces at the commas gives back
    the extensions in their order, and for no extension the group is
    empty. *)
Theorem getExtGlob_alternatives exts :
  (∀ ext, exts = [ext] → VirtualMod.getExtGlob exts = ext) ∧
  (2 ≤ length exts →
   Forall (λ ext, occurs "," ext = false) exts →
   ∃ inner,
     VirtualMod.getExtGlob exts = "{" +:+ inner +:+ "}" ∧
     split "," inner = exts) ∧
  (exts = [] → VirtualMod.getExtGlob exts = "{}").
Proof.
  split; [|split].
  - now intros ext ->.
  - intros Hlen Hall. exists (String.concat "," exts). split.
    + destruct exts as [|a [|b r]]; simpl in Hlen; try lia; reflexivity.
    + apply split_concat; [|assumption]. now destruct exts.
  - now intros ->.
Qed.

(** ** First occurrences *)

Lemma string_app_inj (a a' b b' : string) :
  a +:+ b = a' +:+ b' → String.length a = String.length a' →
  a = a' ∧ b = b'.
Proof.
  revert a'. induction a as [|c a IH]; intros [|c' a'] Heq Hlen;
    try discriminate Hlen.
  - split; [reflexivity|exact Heq].
  - unfold String.app in Heq. simpl in Heq. fold (String.app a b) in Heq.
    fold (String.app a' b') in Heq. injection Heq as -> Heq.
    injection Hlen as Hlen. destruct (IH _ Heq Hlen) as [-> ->]. auto.
Qed.

Lemma find_first_least pat s pre post :
  find_first pat s = Some (pre, post) →
  ∀ pre' post',
    s = pre' +:+ pat +:+ post' → String.length pre ≤ String.length pre'.
Proof.
  revert pre. induction s as [|c s IH]; intros pre; rewrite find_first_unfold.
  - destruct (String.prefix pat ""); [|discriminate].
    intros [= <- _] pre' post' _. simpl. lia.
  - destruct (String.prefix pat (String c s)) eqn:Hprefix.
    + intros [= <- _] pre' post' _. simpl. lia.
    + destruct (find_first pat s) as [[p post0]|] eqn:Hfind; [|discriminate].
      intros [= <- <-] pre' post' Heq.
      destruct pre' as [|c' p'].
      * change ("" +:+ pat +:+ post') with (pat +:+ post') in Heq.
        rewrite Heq, prefix_app in Hprefix. discriminate.
      * change (String c' p' +:+ pat +:+ post')
          with (String c' (p' +:+ pat +:+ post')) in Heq.
        injection Heq as _ Heq.
        specialize (IH p eq_refl p' post' Heq). simpl. lia.
Qed.

Lemma firstOccurrenceAt_find pre token code post :
  firstOccurrenceAt pre token code post →
  find_first token code = Some (pre, post).
Proof.
  intros [Heq Hleast].
  destruct (find_first token code) as [[pre0 post0]|] eqn:Hfind.
  - pose proof (find_first_split _ _ _ _ Hfind) as Heq0.
    pose proof (find_first_least _ _ _ _ Hfind pre post Heq) as Hle.
    pose proof (Hleast pre0 post0 Heq0) as Hge.
    rewrite Heq in Heq0.
    destruct (string_app_inj _ _ _ _ Heq0) as [-> Hrest]; [lia|].
    destruct (string_app_inj _ _ _ _ Hrest eq_refl) as [_ ->].
    reflexivity.
  - assert (Hin : includes code token = true).
    { rewrite Heq. apply includes_later, includes_here. }
    unfold includes in Hin. rewrite Hfind in Hin. discriminate.
Qed.

Lemma find_firstOccurrenceAt pre token code post :
  find_first token code = Some (pre, post) →
  firstOccurrenceAt pre token code post.
Proof.
  intros Hfind. split; [now apply find_first_split|].
  now apply find_first_least with post.
Qed.

Lemma absentFrom_find token code :
  absentFrom token code → find_first token code = None.
Proof.
  intros Habsent.
  destruct (find_first token code) as [[pre post]|] eqn:Hfind; [|reflexivity].
  destruct (Habsent pre post). now apply find_first_split.
Qed.

Lemma set_add_all_app l1 l2 acc :
  set_add_all (l1 ++ l2) acc = set_add_all l2 (set_add_all l1 acc).
Proof. unfold set_add_all. apply fold_left_app. Qed.

Lemma set_add_in x s : x ∈ s → set_add x s = s.
Proof. intros Hin. unfold set_add. now rewrite bool_decide_true. Qed.

Lemma set_add_idempotent x s : set_add x (set_add x s) = set_add x s.
Proof. apply set_add_in, elem_of_set_add. now left. Qed.

(** Adding the elements of a list to the empty set, one after the other,
    keeps each where it first occurs. *)
Lemma set_add_all_firstOccurrences l :
  set_add_all l [] = firstOccurrences l.
Proof.
  unfold firstOccurrences.
  induction l as [|x l IH] using rev_ind; [reflexivity|].
  rewrite set_add_all_app, IH. simpl.
  rewrite reverse_snoc. simpl. unfold set_add.
  destruct (decide_rel elem_of x (reverse l)) as [Hin|Hnot].
  - rewrite bool_decide_true; [reflexivity|].
    rewrite elem_of_reverse, elem_of_remove_dups. exact Hin.
  - rewrite bool_decide_false.
    + now rewrite reverse_cons.
    + rewrite elem_of_reverse, elem_of_remove_dups. exact Hnot.
Qed.

Lemma elem_of_firstOccurrences x l : x ∈ firstOccurrences l ↔ x ∈ l.
Proof.
  unfold firstOccurrences.
  now rewrite elem_of_reverse, elem_of_remove_dups, elem_of_reverse.
Qed.

Lemma NoDup_firstOccurrences l : NoDup (firstOccurrences l).
Proof.
  unfold firstOccurrences. rewrite reverse_Permutation.
  apply NoDup_remove_dups.
Qed.

(** ** The chunk of the build hook, in closed form *)

Section ChunkFacts.

Context {B : BuildImports}.

Lemma addPropagated_set_add_all m id acc :
  addPropagated m id acc =
  set_add_all (default [] (m ≫= JsObject.get id)) acc.
Proof. unfold addPropagated. now destruct (m ≫= JsObject.get id). Qed.

Lemma visitParents_closed id parents acc :
  fold_left (visitParent id) parents acc =
  (set_add_all
     (flat_map
        (λ pageInfo,
           if moduleIsTopLevelPage pageInfo then
             match getPageDataByViteID (info_id pageInfo) with
             | Some pageData =>
                 default [] (propagatedStyles pageData ≫= JsObject.get id)
             | None => []
             end
           else [])
        parents) acc.1,
   set_add_all
     (flat_map
        (λ pageInfo,
           if moduleIsTopLevelPage pageInfo then
             match getPageDataByViteID (info_id pageInfo) with
             | Some pageData =>
                 default [] (propagatedScripts pageData ≫= JsObject.get id)
             | None => []
             end
           else [])
        parents) acc.2).
Proof.
  revert acc. induction parents as [|pageInfo parents IH]; intros [a1 a2].
  - reflexivity.
  - cbn [fold_left flat_map]. rewrite IH, !set_add_all_app.
    unfold visitParent.
    destruct (moduleIsTopLevelPage pageInfo); [|reflexivity].
    destruct (getPageDataByViteID (info_id pageInfo)) as [pageData|];
      [|reflexivity].
    cbn [fst snd]. now rewrite !addPropagated_set_add_all.
Qed.

Lemma collectLoop_closed ids acc :
  fold_left
    (λ acc id, fold_left (visitParent id) (walkParentInfos id) acc) ids acc =
  (set_add_all
     (flat_map
        (λ id,
           flat_map
             (λ pageInfo,
                if moduleIsTopLevelPage pageInfo then
                  match getPageDataByViteID (info_id pageInfo) with
                  | Some pageData =>
                      default [] (propagatedStyles pageData ≫= JsObject.get id)
                  | None => []
                  end
                else [])
             (walkParentInfos id))
        ids) acc.1,
   set_add_all
     (flat_map
        (λ id,
           flat_map
             (λ pageInfo,
                if moduleIsTopLevelPage pageInfo then
                  match getPageDataByViteID (info_id pageInfo) with
                  | Some pageData =>
                      default [] (propagatedScripts pageData ≫= JsObject.get id)
                  | None => []
                  end
                else [])
             (walkParentInfos id))
        ids) acc.2).
Proof.
  revert acc. induction ids as [|id ids IH]; intros [a1 a2].
  - reflexivity.
  - cbn [fold_left flat_map]. rewrite IH, visitParents_closed.
    cbn [fst snd]. now rewrite !set_add_all_app.
Qed.

(** The two accumulators hold the propagated references, each where it
    first occurs. *)
Lemma collectAssets_closed modules :
  collectAssets modules =
  (firstOccurrences (propagatedList propagatedStyles modules),
   firstOccurrences (propagatedList propagatedScripts modules)).
Proof.
  unfold collectAssets. rewrite collectLoop_closed.
  cbn [fst snd]. now rewrite !set_add_all_firstOccurrences.
Qed.

Lemma clientFileNames_ids entryScripts fileName ids names :
  fold_left
    (λ names id,
       if set_has id entryScripts then set_add fileName names else names)
    ids names =
  set_add_all
    (if existsb (λ id, bool_decide (id ∈ entryScripts)) ids
     then [fileName] else [])
    names.
Proof.
  revert names. induction ids as [|id ids IH]; intros names; [reflexivity|].
  cbn [fold_left existsb]. rewrite IH. unfold set_has.
  destruct (bool_decide (id ∈ entryScripts)); [|reflexivity].
  cbn [orb]. destruct (existsb _ ids); [|reflexivity].
  unfold set_add_all. cbn [fold_left]. apply set_add_idempotent.
Qed.

Lemma clientFileNames_chunks entryScripts output names :
  fold_left
    (λ names clientChunk,
       match clientChunk with
       | OutputAsset _ => names
       | OutputChunk fileName _ modules =>
           fold_left
             (λ names id,
                if set_has id entryScripts then set_add fileName names
                else names)
             (JsObject.keys modules) names
       end)
    output names =
  set_add_all (scriptChunkNames [output] entryScripts) names.
Proof.
  unfold scriptChunkNames. cbn [flat_map]. rewrite app_nil_r.
  revert names.
  induction output as [|clientChunk output IH]; intros names; [reflexivity|].
  cbn [fold_left flat_map]. rewrite IH, set_add_all_app. f_equal.
  destruct clientChunk as [fileName code modules|assetName]; [|reflexivity].
  apply clientFileNames_ids.
Qed.

Lemma clientFileNames_from clientOutputs entryScripts names :
  fold_left
    (λ names output,
       fold_left
         (λ names clientChunk,
            match clientChunk with
            | OutputAsset _ => names
            | OutputChunk fileName _ modules =>
                fold_left
                  (λ names id,
                     if set_has id entryScripts then set_add fileName names
                     else names)
                  (JsObject.keys modules) names
            end)
         output names)
    clientOutputs names =
  set_add_all (scriptChunkNames clientOutputs entryScripts) names.
Proof.
  revert names.
  induction clientOutputs as [|output outputs IH]; intros names;
    [reflexivity|].
  cbn [fold_left]. rewrite IH, clientFileNames_chunks.
  unfold scriptChunkNames. cbn [flat_map].
  now rewrite app_nil_r, set_add_all_app.
Qed.

(** The file names of the script descriptors: the client chunks that hold
    a propagated script, each where it first occurs. *)
Lemma clientFileNames_closed clientOutputs entryScripts :
  clientFileNames clientOutputs entryScripts =
  firstOccurrences (scriptChunkNames clientOutputs entryScripts).
Proof.
  rewrite <- set_add_all_firstOccurrences. apply clientFileNames_from.
Qed.

Lemma scriptsJSON_text fileNames :
  scriptsJSON fileNames = scriptsArrayText fileNames.
Proof. reflexivity. Qed.

Lemma linksJSON_text references :
  linksJSON references = linksArrayText references.
Proof. reflexivity. Qed.

(** C9, amended.  For a chunk that holds a placeholder token, the style
    and script accumulators are sets: they hold the references propagated
    to the modules of the chunk, each once and where it first occurs,
    however many modules and import paths lead to it.  The file names of
    the script descriptors are the client chunks holding a propagated
    script, each once.  The new code is made in two steps, styles then
    scripts.  A step leaves the code as it is when its accumulator is
    empty, and also when the code does not hold the token between double
    quotes, although the chunk passed the test on the bare token.
    Otherwise it replaces the first occurrence of the quoted token, and
    that one only, by the text of the JSON array, provided this text
    holds no dollar sign. *)
Theorem chunk_assets_are_sets clientOutputs fileName code modules :
  includes code LINKS_PLACEHOLDER || includes code SCRIPTS_PLACEHOLDER = true →
  let entryCSS := firstOccurrences (propagatedList propagatedStyles modules) in
  let entryScripts :=
    firstOccurrences (propagatedList propagatedScripts modules) in
  let entryFileNames :=
    firstOccurrences (scriptChunkNames clientOutputs entryScripts) in
  let links := linksArrayText entryCSS in
  let scripts := scriptsArrayText entryFileNames in
  collectAssets modules = (entryCSS, entryScripts) ∧
  NoDup entryCSS ∧ NoDup entryScripts ∧ NoDup entryFileNames ∧
  (∀ x, x ∈ entryCSS ↔ propagatedTo propagatedStyles modules x) ∧
  (∀ x, x ∈ entryScripts ↔ propagatedTo propagatedScripts modules x) ∧
  clientFileNames clientOutputs entryScripts = entryFileNames ∧
  processChunk clientOutputs (OutputChunk fileName code modules) =
    Some (replaceScripts clientOutputs entryScripts
            (replaceLinks entryCSS code)) ∧
  (∀ c,
     entryCSS = [] ∨ absentFrom (JSON_stringify LINKS_PLACEHOLDER) c →
     replaceLinks entryCSS c = c) ∧
  (∀ c pre post,
     entryCSS ≠ [] →
     firstOccurrenceAt pre (JSON_stringify LINKS_PLACEHOLDER) c post →
     occurs "$" links = false →
     replaceLinks entryCSS c = pre +:+ links +:+ post) ∧
  (∀ c,
     entryScripts = [] ∨ absentFrom (JSON_stringify SCRIPTS_PLACEHOLDER) c →
     replaceScripts clientOutputs entryScripts c = c) ∧
  (∀ c pre post,
     entryScripts ≠ [] →
     firstOccurrenceAt pre (JSON_stringify SCRIPTS_PLACEHOLDER) c post →
     occurs "$" scripts = false →
     replaceScripts clientOutputs entryScripts c = pre +:+ scripts +:+ post).
Proof.
  intros Hincludes entryCSS entryScripts entryFileNames links scripts.
  pose proof (collectAssets_closed modules) as Hclosed.
  fold entryCSS entryScripts in Hclosed.
  destruct (collectAssets_spec modules) as (_ & _ & M1 & M2).
  rewrite Hclosed in M1, M2. cbn [fst snd] in M1, M2.
  pose proof (clientFileNames_closed clientOutputs entryScripts) as Hnames.
  fold entryFileNames in Hnames.
  split; [exact Hclosed|].
  split; [apply NoDup_firstOccurrences|].
  split; [apply NoDup_firstOccurrences|].
  split; [apply NoDup_firstOccurrences|].
  split; [exact M1|]. split; [exact M2|]. split; [exact Hnames|].
  split.
  { unfold processChunk. now rewrite Hincludes, Hclosed. }
  split.
  { intros c [Hempty|Habsent]; unfold replaceLinks.
    - now rewrite Hempty.
    - destruct (0 <? length entryCSS); [|reflexivity].
      now apply replace_absent, absentFrom_find. }
  split.
  { intros c pre post Hne Hfirst Hplain. unfold replaceLinks.
    destruct entryCSS as [|x l] eqn:Hcss; [congruence|]. cbn [length Nat.ltb Nat.leb].
    rewrite linksJSON_text.
    now apply replace_first_occurrence; [apply firstOccurrenceAt_find|]. }
  split.
  { intros c [Hempty|Habsent]; unfold replaceScripts.
    - now rewrite Hempty.
    - destruct (0 <? length entryScripts); [|reflexivity].
      now apply replace_absent, absentFrom_find. }
  intros c pre post Hne Hfirst Hplain. unfold replaceScripts.
  destruct entryScripts as [|x l] eqn:Hscr; [congruence|]. cbn [length Nat.ltb Nat.leb].
  rewrite Hnames, scriptsJSON_text.
  now apply replace_first_occurrence; [apply firstOccurrenceAt_find|].
Qed.

End ChunkFacts.

(** ** Runs on the concrete site *)

Module Runs.

Import Site Scenario.

(** The [add] of [blog/post1.md], whose frontmatter says [slug: custom],
    tracks the entry under collection [blog] with that slug. *)
Example add_with_frontmatter_slug :
  handleEvent (I:=imports) disk (ev add "blog/post1.md") None initial =
  (Normal regenerate,
   withTypes [(key "blog", [(key "post1.md", ContentEntryMetadata "custom")])]).
Proof. reflexivity. Qed.

(** A file directly under the content root is skipped with a warning. *)
Example add_outside_collection :
  handleEvent (I:=imports) disk (ev add "post.md") None initial =
  (Normal noRegenerate,
   addOutputs initial
     [Logged warn "content"
        "post.md must be nested in a collection directory. Skipping."]).
Proof. reflexivity. Qed.

(** An unsupported file is reported in the response, not tracked. *)
Example add_unsupported :
  handleEvent (I:=imports) disk (ev add "blog/notes.txt") None initial =
  (Normal {| shouldGenerateTypes := false;
             error := Some (UnsupportedFileTypeError "blog/notes.txt") |},
   initial).
Proof. reflexivity. Qed.

(** The manifest written for one content entry and one data entry. *)
Example manifest_of_two_collections :
  manifestWrites
    (trace
       (runEvents (I:=imports) disk None
          (withEvents [q add "data/settings.json"; q add "blog/post1.md"])).2) =
  ["declare module 'astro:content' {" +:+ nl +:+
   key "blog" +:+ ": {" +:+ nl +:+
   key "post1.md" +:+ ": {" +:+ nl +:+
   "  type: 'content'," +:+ nl +:+
   tab +:+ "id: " +:+ key "post1.md" +:+ "," +:+ nl +:+
   "  slug: " +:+ key "custom" +:+ "," +:+ nl +:+
   "  body: string," +:+ nl +:+
   "  collection: " +:+ key "blog" +:+ "," +:+ nl +:+
   "  data: any" +:+ nl +:+
   "} & { render(): Render[" +:+ key ".md" +:+ "] }," +:+ nl +:+
   "}," +:+ nl +:+
   key "data" +:+ ": {" +:+ nl +:+
   key "settings" +:+ ": {" +:+ nl +:+
   tab +:+ "type: 'data'," +:+ nl +:+
   tab +:+ "id: " +:+ key "settings" +:+ "," +:+ nl +:+
   tab +:+ "collection: " +:+ key "data" +:+ "," +:+ nl +:+
   tab +:+ "data: any" +:+ nl +:+
   "}," +:+ nl +:+
   "}," +:+ nl +:+ nl +:+
   "type ContentConfig = never;" +:+ nl +:+ "}"].
Proof. reflexivity. Qed.

Lemma change_regenerates_iff_slug_differs_witness :
  name (ev change "blog/post1.md") = change ∧
  trackedKeys (I:=imports) (entry (ev change "blog/post1.md")) =
    Some (key "blog", key "post1.md") ∧
  lookupEntry (collectionTypes blogTracked) (key "blog") (key "post1.md") =
    Some (ContentEntryMetadata "post1") ∧
  computedSlug (I:=imports) disk (ev change "blog/post1.md") =
    Some (Normal "custom") ∧
  ∃ response g',
    handleEvent (I:=imports) disk (ev change "blog/post1.md") None
      blogTracked = (Normal response, g') ∧
    (shouldGenerateTypes response = true ↔ "custom" ≠ "post1") ∧
    lookupEntry (collectionTypes g') (key "blog") (key "post1.md") =
      Some (ContentEntryMetadata "custom") ∧
    ("custom" = "post1" → g' = blogTracked).
Proof.
  repeat (split; [reflexivity|]).
  apply (proj1 (change_regenerates_iff_slug_differs (I:=imports) disk
                  (ev change "blog/post1.md") None blogTracked
                  (key "blog") (key "post1.md") "post1" (Normal "custom")
                  eq_refl eq_refl eq_refl eq_refl) "custom" eq_refl).
Defined.

Lemma data_change_never_regenerates_witness :
  name (ev change "data/settings.json") = change ∧
  classify (I:=imports) (entry (ev change "data/settings.json")) = data ∧
  ∃ g',
    handleEvent (I:=imports) disk (ev change "data/settings.json") None
      initial = (Normal noRegenerate, g') ∧
    collectionTypes g' = collectionTypes initial.
Proof.
  repeat (split; [reflexivity|]).
  apply (data_change_never_regenerates (I:=imports) disk
           (ev change "data/settings.json") None initial);
    reflexivity.
Defined.

Lemma directory_events_witness :
  isDirEvent (name (ev addDir "blog")) = true ∧
  depth (relativeToContentDir (I:=imports) (entry (ev addDir "blog"))) = 1 ∧
  ∃ g',
    handleEvent (I:=imports) disk (ev addDir "blog") None blogTracked =
      (Normal regenerate, g') ∧
    JsObject.get (key "blog") (collectionTypes g') = Some JsObject.empty ∧
    ∀ k, k ≠ key "blog" →
         JsObject.get k (collectionTypes g') =
         JsObject.get k (collectionTypes blogTracked).
Proof.
  repeat (split; [reflexivity|]).
  apply (directory_events (I:=imports) disk (ev addDir "blog") None
           blogTracked); reflexivity.
Defined.

Lemma config_event_witness :
  isDirEvent (name (ev add "config.ts")) = false ∧
  classify (I:=imports) (entry (ev add "config.ts")) = config ∧
  ∃ final logged g',
    handleEvent (I:=imports) disk (ev add "config.ts") None initial =
      (Normal regenerate, g') ∧
    trace g' =
      trace initial ++ [ObserverSet st_loading; ConfigLoaderCalled] ++
      map ConsoleLog logged ++ [ObserverSet final] ∧
    observable g' = final ∧
    collectionTypes g' = collectionTypes initial ∧
    (∀ cfg, loadContentConfig disk = Normal (Some cfg) → final = st_loaded cfg) ∧
    (loadContentConfig disk = Normal None → final = st_does_not_exist) ∧
    (∀ e, loadContentConfig disk = Throw (ThrownError e) → final = st_error e) ∧
    (∀ v, loadContentConfig disk = Throw (ThrownValue v) →
          final = st_error UnknownContentCollectionError).
Proof.
  repeat (split; [reflexivity|]).
  apply (config_event (I:=imports) disk (ev add "config.ts") None initial);
    reflexivity.
Defined.

(** C8 as stated fails: a loader that throws a value that is no [Error]
    leaves the observable in [error] with the generic error, not with what
    was thrown. *)
Lemma config_error_without_cause :
  let ext := filesystem files (Throw (ThrownValue "boom")) in
  let g' := (handleEvent (I:=imports) ext (ev add "config.ts") None initial).2 in
  classify (I:=imports) (entry (ev add "config.ts")) = config ∧
  loadContentConfig ext = Throw (ThrownValue "boom") ∧
  observable g' = st_error UnknownContentCollectionError ∧
  ¬ carriesCause (observable g') (ThrownValue "boom").
Proof.
  repeat (split; [reflexivity|]).
  intros (e & _ & Hcause). discriminate Hcause.
Qed.

Lemma add_of_tracked_entry_witness :
  name (ev add "blog/post1.md") = add ∧
  trackedKeys (I:=imports) (entry (ev add "blog/post1.md")) =
    Some (key "blog", key "post1.md") ∧
  lookupEntry (collectionTypes blogTracked) (key "blog") (key "post1.md") =
    Some (ContentEntryMetadata "post1") ∧
  ∃ completion,
    handleEvent (I:=imports) disk (ev add "blog/post1.md") None blogTracked =
      (completion, blogTracked) ∧
    (∀ t, computedSlug (I:=imports) disk (ev add "blog/post1.md") =
            Some (Throw t) → completion = Throw t) ∧
    ((∀ t, computedSlug (I:=imports) disk (ev add "blog/post1.md") ≠
             Some (Throw t)) →
     completion = Normal regenerate).
Proof.
  repeat (split; [reflexivity|]).
  apply (add_of_tracked_entry (I:=imports) disk (ev add "blog/post1.md")
           None blogTracked (key "blog") (key "post1.md")
           (ContentEntryMetadata "post1")); reflexivity.
Defined.

(** C10 as stated fails: the [add] of a tracked content entry whose
    frontmatter does not parse reports nothing, the handler throws. *)
Lemma add_of_tracked_entry_may_throw :
  let g :=
    withTypes [(key "blog", [(key "bad.md", ContentEntryMetadata "bad")])] in
  lookupEntry (collectionTypes g) (key "blog") (key "bad.md") =
    Some (ContentEntryMetadata "bad") ∧
  trackedKeys (I:=imports) (entry (ev add "blog/bad.md")) =
    Some (key "blog", key "bad.md") ∧
  handleEvent (I:=imports) disk (ev add "blog/bad.md") None g =
    (Throw (ThrownError (OtherError "YAMLException")), g) ∧
  ¬ ∃ g', handleEvent (I:=imports) disk (ev add "blog/bad.md") None g =
            (Normal regenerate, g').
Proof.
  repeat (split; [reflexivity|]).
  intros (g' & Hrun). discriminate Hrun.
Qed.

Lemma add_then_unlink_round_trip_witness :
  (∀ collectionKey entryKey,
     trackedKeys (I:=imports) (url "blog/post1.md") =
       Some (collectionKey, entryKey) →
     ∃ entries,
       JsObject.get collectionKey (collectionTypes blogEmpty) = Some entries ∧
       JsObject.get entryKey entries = None) ∧
  let g1 :=
    (handleEvent (I:=imports) disk (ev add "blog/post1.md") None blogEmpty).2 in
  let g2 :=
    (handleEvent (I:=imports) disk (ev unlink "blog/post1.md") None g1).2 in
  collectionTypes g2 = collectionTypes blogEmpty.
Proof.
  assert (Hfresh :
    ∀ collectionKey entryKey,
      trackedKeys (I:=imports) (url "blog/post1.md") =
        Some (collectionKey, entryKey) →
      ∃ entries,
        JsObject.get collectionKey (collectionTypes blogEmpty) = Some entries ∧
        JsObject.get entryKey entries = None).
  { intros collectionKey entryKey [= <- <-]. now exists []. }
  split; [exact Hfresh|].
  exact (add_then_unlink_round_trip (I:=imports) disk disk None None
           (url "blog/post1.md") blogEmpty Hfresh).
Defined.

(** C2 as stated fails: on a map without the collection, [add] creates
    the collection and [unlink] only removes the entry from it. *)
Lemma add_then_unlink_leaves_collection :
  let g1 :=
    (handleEvent (I:=imports) disk (ev add "data/settings.json") None
       initial).2 in
  let g2 :=
    (handleEvent (I:=imports) disk (ev unlink "data/settings.json") None
       g1).2 in
  collectionTypes g2 = [(key "data", [])] ∧
  collectionTypes g2 ≠ collectionTypes initial.
Proof. split; [reflexivity|discriminate]. Qed.

Lemma collections_under_file_events_witness :
  isDirEvent (name (ev add "data/settings.json")) = false ∧
  name (ev add "data/settings.json") = add ∧
  trackedKeys (I:=imports) (entry (ev add "data/settings.json")) =
    Some (key "data", key "settings") ∧
  JsObject.has (key "data") (collectionTypes blogEmpty) = false ∧
  computedSlug (I:=imports) disk (ev add "data/settings.json") = None ∧
  handleEvent (I:=imports) disk (ev add "data/settings.json") None blogEmpty =
    (Normal regenerate,
     withCollectionTypes blogEmpty
       (collectionTypes blogEmpty ++
        [(key "data", [(key "settings", DataEntryMetadata)])])).
Proof.
  repeat (split; [reflexivity|]).
  exact (proj2 (collections_under_file_events (I:=imports) disk
                  (ev add "data/settings.json") None blogEmpty eq_refl)
           eq_refl (key "data") (key "settings") eq_refl eq_refl).
Defined.

(** C6 as stated fails: the [add] of a file creates its collection. *)
Lemma file_event_creates_collection :
  let g' :=
    (handleEvent (I:=imports) disk (ev add "data/settings.json") None
       initial).2 in
  isDirEvent (name (ev add "data/settings.json")) = false ∧
  JsObject.has (key "data") (collectionTypes initial) = false ∧
  JsObject.has (key "data") (collectionTypes g') = true.
Proof. repeat split. Qed.

Lemma batch_readable :
  Forall (λ e, slugReadable (I:=imports) disk (type e)) (events batch).
Proof.
  repeat constructor; intros _ t Hslug; vm_compute in Hslug;
    discriminate Hslug.
Qed.



Lemma get_cons_ne {V} k k' (v : V) o :
  k ≠ k' → JsObject.get k ((k', v) :: o) = JsObject.get k o.
Proof. intros Hne. simpl. now destruct (String.eqb_spec k k'). Qed.

Lemma wf_concrete {V} (o : JsObject.t V) :
  bool_decide (NoDup (JsObject.keys o)) = true → JsObject.wf o.
Proof. intros Hd. now apply bool_decide_eq_true in Hd. Qed.

Lemma blogFirst_dataFirst : sameCollections blogFirst dataFirst.
Proof.
  split; [now apply wf_concrete|]. split; [now apply wf_concrete|].
  split; [apply perm_swap|].
  intros k.
  destruct (String.eqb_spec k (key "blog")) as [->|Hblog].
  - change (sameProperties
              [(key "a.md", ContentEntryMetadata "a");
               (key "b.md", ContentEntryMetadata "b")]
              [(key "b.md", ContentEntryMetadata "b");
               (key "a.md", ContentEntryMetadata "a")]).
    split; [now apply wf_concrete|]. split; [now apply wf_concrete|].
    apply perm_swap.
  - destruct (String.eqb_spec k (key "data")) as [->|Hdata].
    + change (sameProperties [(key "settings", DataEntryMetadata)]
                [(key "settings", DataEntryMetadata)]).
      split; [now apply wf_concrete|]. split; [now apply wf_concrete|].
      reflexivity.
    + unfold blogFirst, dataFirst.
      rewrite !get_cons_ne by assumption. exact Logic.I.
Qed.

Lemma manifest_sorted_and_deterministic_witness :
  sameCollections blogFirst dataFirst ∧
  manifestWrites
    (outputsSince initial
       (writeContentFiles (I:=imports) disk blogFirst template [] None
          initial).2) =
  manifestWrites
    (outputsSince blogTracked
       (writeContentFiles (I:=imports) disk dataFirst template [] None
          blogTracked).2).
Proof.
  split; [exact blogFirst_dataFirst|].
  apply (manifest_sorted_and_deterministic (I:=imports) disk disk initial
           blogTracked blogFirst dataFirst template [] None
           blogFirst_dataFirst).
Defined.

(** The walker on a graph with a cycle yields each module once. *)
Example walk_on_cycle :
  Bundle.walk 4 Bundle.cycle "b" = [{| info_id := "b" |}; {| info_id := "a" |}] ∧
  Bundle.walk 4 Bundle.importers Bundle.entryModule =
    [{| info_id := Bundle.entryModule |};
     {| info_id := "/src/components/X.astro" |};
     {| info_id := Bundle.page |};
     {| info_id := "/src/components/Y.astro" |}].
Proof. split; reflexivity. Qed.

Lemma chunk_assets_are_sets_witness :
  includes Bundle.chunkCode (LINKS_PLACEHOLDER (BuildImports:=Bundle.imports))
  || includes Bundle.chunkCode
       (SCRIPTS_PLACEHOLDER (BuildImports:=Bundle.imports)) = true ∧
  propagatedList (B:=Bundle.imports) propagatedStyles Bundle.chunkModules =
    ["/a.css"; "/a.css"; "/b.css"] ∧
  collectAssets (B:=Bundle.imports) Bundle.chunkModules =
    (["/a.css"; "/b.css"], ["/src/scripts/menu.ts"; "/src/scripts/nav.ts"]) ∧
  clientFileNames Bundle.clientOutputs
    ["/src/scripts/menu.ts"; "/src/scripts/nav.ts"] = ["hoisted.abc.js"] ∧
  processChunk (B:=Bundle.imports) Bundle.clientOutputs
    (OutputChunk "chunk.mjs" Bundle.chunkCode Bundle.chunkModules) =
    Some ("const collectedLinks = [" +:+ JSON_stringify "/a.css" +:+ "," +:+
          JSON_stringify "/b.css" +:+ "];" +:+
          "const collectedScripts = [{" +:+ JSON_stringify "props" +:+ ":{" +:+
          JSON_stringify "src" +:+ ":" +:+ JSON_stringify "/hoisted.abc.js" +:+
          "," +:+ JSON_stringify "type" +:+ ":" +:+ JSON_stringify "module" +:+
          "}," +:+ JSON_stringify "children" +:+ ":" +:+ JSON_stringify "" +:+
          "}];").
Proof.
  split; [reflexivity|]. split; [reflexivity|].
  destruct (chunk_assets_are_sets (B:=Bundle.imports) Bundle.clientOutputs
              "chunk.mjs" Bundle.chunkCode Bundle.chunkModules eq_refl)
    as (Hassets & _ & _ & _ & _ & _ & Hnames & Hrun & _ & Hlinks & _ & Hscripts).
  split; [rewrite Hassets; reflexivity|].
  split; [reflexivity|].
  rewrite Hrun.
  rewrite (Hlinks Bundle.chunkCode "const collectedLinks = "
             (";const collectedScripts = " +:+
              JSON_stringify "@@ASTRO-SCRIPTS@@" +:+ ";")).
  - rewrite (Hscripts _
               ("const collectedLinks = [" +:+ JSON_stringify "/a.css" +:+
                "," +:+ JSON_stringify "/b.css" +:+ "];" +:+
                "const collectedScripts = ") ";").
    + reflexivity.
    + discriminate.
    + apply find_firstOccurrenceAt. reflexivity.
    + reflexivity.
  - discriminate.
  - apply find_firstOccurrenceAt. reflexivity.
  - reflexivity.
Defined.

(** C9 as stated fails: this chunk holds the link token, styles are
    propagated to its modules, and yet it is handed back with the token
    in place, for the token stands between single quotes. *)
Lemma single_quoted_token_left_unreplaced :
  let chunk :=
    OutputChunk "chunk.mjs" Bundle.singleQuotedCode Bundle.chunkModules in
  includes Bundle.singleQuotedCode
    (LINKS_PLACEHOLDER (BuildImports:=Bundle.imports)) = true ∧
  (collectAssets (B:=Bundle.imports) Bundle.chunkModules).1 =
    ["/a.css"; "/b.css"] ∧
  processChunk (B:=Bundle.imports) Bundle.clientOutputs chunk =
    Some Bundle.singleQuotedCode ∧
  buildPost (B:=Bundle.imports) [[chunk]] Bundle.clientOutputs =
    [("chunk.mjs", Bundle.singleQuotedCode)].
Proof. repeat split. Qed.



(** C4 as stated fails: of the collections [blog] and [blog 2], the second
    is emitted first, its key being the smaller one, although its name is
    the greater one. *)
Lemma keys_not_in_name_order :
  let contentTypes : CollectionTypes := [(key "blog", []); (key "blog 2", [])] in
  emittedNames contentTypes = ["blog 2"; "blog"] ∧
  String.leb "blog 2" "blog" = false ∧
  contentTypesStrOf (I:=imports) contentTypes None =
    Normal (key "blog 2" +:+ ": {" +:+ nl +:+ "}," +:+ nl +:+
            key "blog" +:+ ": {" +:+ nl +:+ "}," +:+ nl).
Proof. repeat split. Qed.

End Runs.

(** ** Further runs on the concrete site *)

Module MoreRuns.

Import Site Scenario.

Lemma handleEvent_throws_iff_slug_unreadable_witness :
  readsSlug (name (ev add "blog/bad.md")) = true ∧
  computedSlug (I:=imports) disk (ev add "blog/bad.md") =
    Some (Throw (ThrownError (OtherError "YAMLException"))) ∧
  handleEvent (I:=imports) disk (ev add "blog/bad.md") None blogTracked =
    (Throw (ThrownError (OtherError "YAMLException")), blogTracked).
Proof.
  split; [reflexivity|]. split; [reflexivity|].
  apply (proj2 (handleEvent_throws_iff_slug_unreadable (I:=imports) disk
                  (ev add "blog/bad.md") None blogTracked
                  (ThrownError (OtherError "YAMLException")) blogTracked)).
  repeat split.
Defined.

Lemma unlink_of_untracked_entry_witness :
  name (ev unlink "blog/gone.md") = unlink ∧
  trackedKeys (I:=imports) (entry (ev unlink "blog/gone.md")) =
    Some (key "blog", key "gone.md") ∧
  lookupEntry (collectionTypes blogTracked) (key "blog") (key "gone.md") =
    None ∧
  handleEvent (I:=imports) disk (ev unlink "blog/gone.md") None blogTracked =
    (Normal regenerate, blogTracked).
Proof.
  repeat (split; [reflexivity|]).
  apply (unlink_of_untracked_entry (I:=imports) disk
           (ev unlink "blog/gone.md") None blogTracked
           (key "blog") (key "gone.md")); reflexivity.
Defined.

Lemma change_of_untracked_entry_witness :
  name (ev change "blog/post1.md") = change ∧
  trackedKeys (I:=imports) (entry (ev change "blog/post1.md")) =
    Some (key "blog", key "post1.md") ∧
  lookupEntry (collectionTypes blogEmpty) (key "blog") (key "post1.md") =
    None ∧
  computedSlug (I:=imports) disk (ev change "blog/post1.md") =
    Some (Normal "custom") ∧
  handleEvent (I:=imports) disk (ev change "blog/post1.md") None blogEmpty =
    (Normal noRegenerate, blogEmpty).
Proof.
  repeat (split; [reflexivity|]).
  apply (change_of_untracked_entry (I:=imports) disk
           (ev change "blog/post1.md") None blogEmpty
           (key "blog") (key "post1.md") "custom");
    try reflexivity.
  intros storedSlug. discriminate.
Defined.

Lemma repeated_event_witness :
  let once :=
    handleEvent (I:=imports) disk (ev change "blog/post1.md") None
      blogTracked in
  once.1 = Normal regenerate ∧
  trackedKeys (I:=imports) (url "blog/post1.md") =
    Some (key "blog", key "post1.md") ∧
  handleEvent (I:=imports) disk (ev change "blog/post1.md") None once.2 =
    (Normal noRegenerate, once.2).
Proof.
  split; [reflexivity|]. split; [reflexivity|].
  apply (proj2 (repeated_event (I:=imports) disk change (url "blog/post1.md")
                  None None blogTracked)
           regenerate (key "blog") (key "post1.md"));
    reflexivity.
Defined.

Lemma addDir_then_unlinkDir_witness :
  depth (relativeToContentDir (I:=imports) (url "blog")) = 1 ∧
  ∃ g1 g2,
    handleEvent (I:=imports) disk (ev addDir "blog") None initial =
      (Normal regenerate, g1) ∧
    handleEvent (I:=imports) disk (ev unlinkDir "blog") None g1 =
      (Normal regenerate, g2) ∧
    collectionTypes g2 =
      JsObject.delete (key "blog") (collectionTypes initial) ∧
    (JsObject.get (key "blog") (collectionTypes initial) = None →
     collectionTypes g2 = collectionTypes initial).
Proof.
  split; [reflexivity|].
  apply (addDir_then_unlinkDir (I:=imports) disk disk None None
           (url "blog") initial).
  reflexivity.
Defined.

Lemma tracked_map_writes_witness :
  let m :=
    collectionTypes
      (handleEvent (I:=imports) disk (ev add "blog/post1.md") None initial).2 in
  tracked (I:=imports) m ∧
  m = [(key "blog", [(key "post1.md", ContentEntryMetadata "custom")])] ∧
  wfMap m ∧ jsonKeys m ∧ sameCollections m m ∧
  ∃ body,
    contentTypesStrOf (I:=imports) m None = Normal body ∧
    writeContentFiles (I:=imports) disk m template [] None initial =
      (Normal (),
       addOutputs initial
         (writerOutputs (I:=imports) disk (trace initial)
            (manifestText (I:=imports) template [] None body))).
Proof.
  cbv zeta.
  assert (Htracked :
    tracked (I:=imports)
      (collectionTypes
         (handleEvent (I:=imports) disk (ev add "blog/post1.md") None
            initial).2)).
  { apply (tracked_step (I:=imports) disk (ev add "blog/post1.md") None
             initial).
    exact tracked_empty. }
  split; [exact Htracked|]. split; [reflexivity|].
  exact (tracked_map_writes (I:=imports) disk _ template [] None initial
           Htracked).
Defined.

Lemma runEvents_outputs_witness :
  jsonKeys (collectionTypes batch) ∧
  Forall (λ e, slugReadable (I:=imports) disk (type e)) (events batch) ∧
  ∃ responses g1 body,
    processed (I:=imports) disk batch (events batch) responses g1 ∧
    sortedBody (I:=imports) (collectionTypes g1)
      (loadedConfig (observable g1)) = Normal body ∧
    runEvents (I:=imports) disk None batch =
      (Normal (),
       addOutputs (drained g1)
         (runOutputs (I:=imports) disk None responses g1 body)) ∧
    (existsb shouldGenerateTypes responses = false →
     runOutputs (I:=imports) disk None responses g1 body =
       unsupportedWarning None responses) ∧
    (unsupportedFilesOf responses = [] →
     unsupportedWarning None responses = []).
Proof.
  split; [constructor|]. split; [exact Runs.batch_readable|].
  exact (runEvents_outputs (I:=imports) disk None batch (List.Forall_nil _)
           Runs.batch_readable).
Defined.

Lemma listing_readable :
  Forall (λ e, slugReadable (I:=imports) Startup.disk (type e))
    (initEvents (I:=imports) Startup.listing).
Proof.
  repeat constructor; intros _ t Hslug; vm_compute in Hslug;
    discriminate Hslug.
Qed.

Lemma init_generates_witness :
  existsSync Startup.disk (contentDir (contentPaths (Imports:=imports))) = true ∧
  classify (I:=imports) (config_url (contentPaths (Imports:=imports))) =
    config ∧
  events initial = [] ∧
  jsonKeys (collectionTypes initial) ∧
  Forall (λ e, slugReadable (I:=imports) Startup.disk (type e))
    (initEvents (I:=imports) Startup.listing) ∧
  length (initEvents (I:=imports) Startup.listing) = 3 ∧
  ∃ responses g1 g2 body,
    processed (I:=imports) Startup.disk
      (withQueue initial (initEvents (I:=imports) Startup.listing))
      (initEvents (I:=imports) Startup.listing) (regenerate :: responses) g1 ∧
    init (I:=imports) Startup.disk (Normal Startup.listing) initial =
      (Normal TypesGenerated, g2) ∧
    events g2 = [] ∧
    collectionTypes g2 = collectionTypes g1 ∧
    observable g2 = configOutcome Startup.disk ∧
    sortedBody (I:=imports) (collectionTypes g2)
      (loadedConfig (configOutcome Startup.disk)) = Normal body ∧
    manifestWrites (outputsSince initial g2) =
      [manifestText (I:=imports) template []
         (loadedConfig (configOutcome Startup.disk)) body].
Proof.
  split; [reflexivity|]. split; [reflexivity|]. split; [reflexivity|].
  split; [constructor|]. split; [exact listing_readable|].
  split; [reflexivity|].
  exact (init_generates (I:=imports) Startup.disk Startup.listing initial
           eq_refl eq_refl eq_refl (List.Forall_nil _) listing_readable).
Defined.

Lemma brokenListing_unreadable :
  Exists (λ e, slugUnreadable (I:=imports) Startup.disk (type e))
    (initEvents (I:=imports) Startup.brokenListing).
Proof.
  apply Exists_cons_tl, Exists_cons_tl, Exists_cons_hd.
  split; [reflexivity|]. eexists. reflexivity.
Qed.

Lemma init_failures_witness :
  existsSync disk (contentDir (contentPaths (Imports:=imports))) = false ∧
  init (I:=imports) disk (Normal Startup.listing) initial =
    (Normal NoContentDir, initial) ∧
  existsSync Startup.disk (contentDir (contentPaths (Imports:=imports))) = true ∧
  Exists (λ e, slugUnreadable (I:=imports) Startup.disk (type e))
    (initEvents (I:=imports) Startup.brokenListing) ∧
  ∃ t g2,
    init (I:=imports) Startup.disk (Normal Startup.brokenListing) initial =
      (Throw t, g2) ∧
    manifestWrites (outputsSince initial g2) = [].
Proof.
  split; [reflexivity|].
  split.
  { apply (proj1 (init_failures (I:=imports) disk (Normal Startup.listing)
                    initial)).
    reflexivity. }
  split; [reflexivity|]. split; [exact brokenListing_unreadable|].
  exact (proj2 (proj2 (init_failures (I:=imports) Startup.disk
                         (Normal Startup.brokenListing) initial))
           Startup.brokenListing eq_refl eq_refl eq_refl (List.Forall_nil _)
           brokenListing_unreadable).
Defined.

Lemma unsupported_files_batch_witness :
  Forall (λ e, isDirEvent (name (type e)) = false ∧
               classify (I:=imports) (entry (type e)) = unsupported)
    (events Startup.unsupportedQueue) ∧
  reportedIds (I:=imports) (events Startup.unsupportedQueue) =
    ["blog/notes.txt"] ∧
  runEvents (I:=imports) disk None Startup.unsupportedQueue =
    (Normal (),
     addOutputs initial
       [Logged warn "content"
          ("Unsupported file types found. Prefix with an underscore (`_`) to ignore:"
           +:+ nl +:+ "- blog/notes.txt")]).
Proof.
  assert (Hall :
    Forall (λ e, isDirEvent (name (type e)) = false ∧
                 classify (I:=imports) (entry (type e)) = unsupported)
      (events Startup.unsupportedQueue)).
  { repeat constructor. }
  split; [exact Hall|]. split; [reflexivity|].
  destruct (unsupported_files_batch (I:=imports) disk None
              Startup.unsupportedQueue Hall) as (_ & _ & Hrun & _).
  rewrite Hrun. reflexivity.
Defined.


Lemma load_carries_placeholders_witness :
  let flagged := "/site/src/content/blog/a.md?astroPropagatedAssets" in
  let code :=
    propagatedModule (B:=Bundle.imports) (P:=DevPlugin.imports)
      "/site/src/content/blog/a.md" in
  load (B:=Bundle.imports) (P:=DevPlugin.imports) flagged = Some code ∧
  plainName (LINKS_PLACEHOLDER (BuildImports:=Bundle.imports)) = true ∧
  includes code
    (JSON_stringify (STYLES_PLACEHOLDER (PluginImports:=DevPlugin.imports))) =
    true ∧
  processChunk (B:=Bundle.imports) []
    (OutputChunk "chunk.mjs" code Bundle.chunkModules) =
    Some (replaceScripts (B:=Bundle.imports) []
            (collectAssets (B:=Bundle.imports) Bundle.chunkModules).2
            (replaceLinks (B:=Bundle.imports)
               (collectAssets (B:=Bundle.imports) Bundle.chunkModules).1
               code)).
Proof.
  cbv zeta. split; [reflexivity|]. split; [reflexivity|].
  destruct (load_carries_placeholders (B:=Bundle.imports)
              (P:=DevPlugin.imports)
              "/site/src/content/blog/a.md?astroPropagatedAssets"
              _ [] "chunk.mjs" Bundle.chunkModules eq_refl)
    as (_ & Hstyles & _ & Hchunk).
  split; [exact Hstyles|]. exact (Hchunk eq_refl).
Defined.

Lemma orphan_not_propagated
    (field : PageData → option (JsObject.t (list string))) x :
  ¬ propagatedTo (B:=Bundle.imports) field Startup.orphanModules x.
Proof.
  intros (id & pageInfo & Hid & Hinfo & pd & values & Htop & _).
  apply list_elem_of_singleton in Hid as ->.
  apply list_elem_of_singleton in Hinfo as ->.
  discriminate Htop.
Qed.

Lemma chunk_without_propagation_witness :
  includes Bundle.chunkCode (LINKS_PLACEHOLDER (BuildImports:=Bundle.imports))
  || includes Bundle.chunkCode
       (SCRIPTS_PLACEHOLDER (BuildImports:=Bundle.imports)) = true ∧
  (∀ x, ¬ propagatedTo (B:=Bundle.imports) propagatedStyles
           Startup.orphanModules x) ∧
  (∀ x, ¬ propagatedTo (B:=Bundle.imports) propagatedScripts
           Startup.orphanModules x) ∧
  processChunk (B:=Bundle.imports) []
    (OutputChunk "chunk.mjs" Bundle.chunkCode Startup.orphanModules) =
    Some Bundle.chunkCode.
Proof.
  split; [reflexivity|].
  split; [apply orphan_not_propagated|].
  split; [apply orphan_not_propagated|].
  apply (proj1 (chunk_without_propagation (B:=Bundle.imports) [] "chunk.mjs"
                  Bundle.chunkCode Startup.orphanModules));
    [reflexivity| |]; apply orphan_not_propagated.
Defined.

Lemma glob_followed : followed Glob.stripDir "/src/content/" Glob.result.
Proof.
  unfold followed, Glob.result.
  repeat (apply List.Forall_cons;
          [intros collection entryId Hpath; vm_compute in Hpath;
           try discriminate Hpath; injection Hpath as <- <-;
           (split; [reflexivity|discriminate])|]).
  apply List.Forall_nil.
Qed.

Lemma createCollectionToGlobResultMap_lookup_witness :
  followed Glob.stripDir "/src/content/" Glob.result ∧
  Runtime.createCollectionToGlobResultMap Glob.stripDir Glob.result
    "/src/content/" =
    Some [("data",
           [("settings.json", Normal Glob.settings);
            ("i18n/en.json",
             Throw (ThrownError
                      (AstroError "InvalidContentEntryFrontmatterError")))])] ∧
  ∃ m,
    Runtime.createCollectionToGlobResultMap Glob.stripDir Glob.result
      "/src/content/" = Some m ∧
    (∀ collection entryId lazyImport,
       lookup2 m collection entryId = Some lazyImport →
       ∃ key,
         (key, lazyImport) ∈ Glob.result ∧
         Glob.stripDir "/src/content/" key =
           collection +:+ "/" +:+ entryId ∧
         occurs "/" collection = false) ∧
    (∀ key lazyImport collection entryId,
       (key, lazyImport) ∈ Glob.result →
       Glob.stripDir "/src/content/" key = collection +:+ "/" +:+ entryId →
       occurs "/" collection = false →
       ∃ found, lookup2 m collection entryId = Some found) ∧
    (∀ collection entryId,
       occurs "/" collection = true → lookup2 m collection entryId = None).
Proof.
  split; [exact glob_followed|]. split; [reflexivity|].
  exact (createCollectionToGlobResultMap_lookup Glob.stripDir Glob.result
           "/src/content/" glob_followed).
Defined.

Lemma getDataEntryById_on_glob_witness :
  followed Glob.stripDir "/src/content/" Glob.result ∧
  (∃ m,
     Runtime.createCollectionToGlobResultMap Glob.stripDir Glob.result
       "/src/content/" = Some m ∧
     Runtime.getDataEntryById m "data" "settings" =
       Normal {| Runtime.de_id := "settings";
                 Runtime.de_collection := "data";
                 Runtime.de_data := "{}" |} ∧
     Runtime.getDataEntryById m "data" "readme" =
       Throw (notFound "data" "readme")) ∧
  ∃ m,
    Runtime.createCollectionToGlobResultMap Glob.stripDir Glob.result
      "/src/content/" = Some m ∧
    ((∀ key lazyImport,
        (key, lazyImport) ∈ Glob.result →
        pathOf (Glob.stripDir "/src/content/" key) ≠
          Some ("data", "readme" +:+ ".json")) →
     Runtime.getDataEntryById m "data" "readme" =
       Throw (notFound "data" "readme")) ∧
    (∀ key lazyImport,
       (key, lazyImport) ∈ Glob.result →
       pathOf (Glob.stripDir "/src/content/" key) =
         Some ("data", "readme" +:+ ".json") →
       ∃ key' found,
         (key', found) ∈ Glob.result ∧
         pathOf (Glob.stripDir "/src/content/" key') =
           Some ("data", "readme" +:+ ".json") ∧
         Runtime.getDataEntryById m "data" "readme" =
           match found with
           | Normal entry =>
               Normal {| Runtime.de_id := entry_id entry;
                         Runtime.de_collection := entry_collection entry;
                         Runtime.de_data := entry_data entry |}
           | Throw t => Throw t
           end).
Proof.
  split; [exact glob_followed|].
  split; [eexists; repeat split|].
  exact (getDataEntryById_on_glob Glob.stripDir Glob.result "/src/content/"
           "data" "readme" glob_followed).
Defined.

Lemma runEventsSafe_keeps_failed_queue_witness :
  let g := withEvents [q addDir "blog"; q add "blog/bad.md";
                       q add "data/settings.json"] in
  jsonKeys (collectionTypes g) ∧
  Exists (λ e, slugUnreadable (I:=imports) disk (type e)) (events g) ∧
  ∃ g2 g3,
    runEventsSafe (I:=imports) disk None g = (Normal (), g2) ∧
    events g2 = events g ∧
    manifestWrites (outputsSince g g2) = [] ∧
    runEventsSafe (I:=imports) disk None g2 = (Normal (), g3) ∧
    events g3 = events g ∧
    manifestWrites (outputsSince g2 g3) = [].
Proof.
  cbv zeta. split; [constructor|].
  assert (Hex :
    Exists (λ e, slugUnreadable (I:=imports) disk (type e))
      [q addDir "blog"; q add "blog/bad.md"; q add "data/settings.json"]).
  { apply Exists_cons_tl, Exists_cons_hd.
    split; [reflexivity|]. eexists. reflexivity. }
  split; [exact Hex|].
  exact (proj2 (proj2 (runEventsSafe_keeps_failed_queue (I:=imports) disk
                         None None
                         (withEvents [q addDir "blog"; q add "blog/bad.md";
                                      q add "data/settings.json"])
                         (List.Forall_nil _))) Hex).
Defined.


Lemma getEntryBySlug_first_of_collection_witness :
  (Runtime.getEntryBySlug false 0 Glob.blog "blog" "custom" JsObject.empty).1 =
    Normal (Some (Runtime.ContentResult "b.md" "custom" "Hello" "blog" "{}")) ∧
  Runtime.hasSlug "custom"
    (Runtime.ContentResult "b.md" "custom" "Hello" "blog" "{}") = true ∧
  (Runtime.getEntryBySlug false 0 Glob.blog "blog" "none" JsObject.empty).1 =
    Normal None.
Proof.
  split; [reflexivity|]. split; [|reflexivity].
  apply (proj2 (getEntryBySlug_first_of_collection false 0 Glob.blog "blog"
                  "custom" JsObject.empty)).
  reflexivity.
Defined.

Lemma getExtGlob_alternatives_witness :
  2 ≤ length [".md"; ".mdx"] ∧
  Forall (λ ext, occurs "," ext = false) [".md"; ".mdx"] ∧
  VirtualMod.getExtGlob [".md"; ".mdx"] = "{.md,.mdx}" ∧
  VirtualMod.getExtGlob [".md"] = ".md" ∧
  ∃ inner,
    VirtualMod.getExtGlob [".md"; ".mdx"] = "{" +:+ inner +:+ "}" ∧
    split "," inner = [".md"; ".mdx"].
Proof.
  assert (Hall : Forall (λ ext, occurs "," ext = false) [".md"; ".mdx"])
    by (repeat constructor).
  split; [simpl; lia|]. split; [exact Hall|]. split; [reflexivity|].
  split; [reflexivity|].
  apply (proj1 (proj2 (getExtGlob_alternatives [".md"; ".mdx"])));
    [simpl; lia|exact Hall].
Defined.

End MoreRuns.
